(** * Order review session

    A shallow embedding of the review gallery script: [script.js] (the
    call-based variant, with its approve / reject workflow calls) and its
    redirect-based twin, which shares bootstrap, photo-list resolution,
    drag reordering and saving, and replaces the workflow calls by page
    navigations (approve, reject, pause, extend).

    JavaScript strings are sequences of UTF-16 code units, JSON values are
    an inductive type, the script's global variables and the DOM properties
    it reads back are fields of one record, and every other observable
    action (outbound calls, dialogs, rendering, console output) is an entry
    of an effect trace.  Asynchronous functions are split at their [await]
    points; a session is an event loop delivering operator events and
    network responses to them. *)

From Stdlib Require Import PrimFloat Ascii DecimalNat.
From stdpp Require Import base numbers list sorting strings.

Open Scope Z_scope.

(** ** JavaScript strings *)

(** A string is its sequence of UTF-16 code units. *)
Abbreviation jsstring := (list N).

(** An ASCII literal of the source, as code units. *)
Definition lit (s : string) : jsstring :=
  N_of_ascii <$> String.list_ascii_of_string s.
Arguments lit : simpl never.

(** [WhiteSpace] and [LineTerminator] of ECMAScript: what
    [String.prototype.trim] strips. *)
Definition is_trim_space (c : N) : bool :=
  ((c =? 0x9) || (c =? 0xA) || (c =? 0xB) || (c =? 0xC) || (c =? 0xD)
   || (c =? 0x20) || (c =? 0xA0) || (c =? 0x1680)
   || ((0x2000 <=? c) && (c <=? 0x200A))
   || (c =? 0x2028) || (c =? 0x2029) || (c =? 0x202F) || (c =? 0x205F)
   || (c =? 0x3000) || (c =? 0xFEFF))%N.

Fixpoint trimStart (s : jsstring) : jsstring :=
  match s with
  | c :: s' => if is_trim_space c then trimStart s' else s
  | [] => []
  end.

Definition trimEnd (s : jsstring) : jsstring := reverse (trimStart (reverse s)).

(** [s.trim()] *)
Definition trim (s : jsstring) : jsstring := trimEnd (trimStart s).

(** [s.endsWith(suffix)] *)
Definition endsWith (s suffix : jsstring) : bool :=
  bool_decide (length suffix ≤ length s)%nat
  && bool_decide (drop (length s - length suffix) s = suffix).

(** [s.split(sep)] for a separator of one code unit: the segments between
    its occurrences, never an empty array. *)
Fixpoint split (sep : N) (s : jsstring) : list jsstring :=
  match s with
  | [] => [[]]
  | c :: s' =>
      if (c =? sep)%N then [] :: split sep s'
      else match split sep s' with
           | seg :: segs => (c :: seg) :: segs
           | [] => [[c]]
           end
  end.

(** [s.split('/').pop()]: the filename segment of a key.  [pop] answers
    [undefined] on an empty array only, which [split] never returns. *)
Definition filename (key : jsstring) : jsstring :=
  default [] (last (split 47%N key)).

(** Decimal digits of a natural number, as [String(n)] prints an index. *)
Fixpoint digits (u : Decimal.uint) : jsstring :=
  match u with
  | Decimal.Nil => []
  | Decimal.D0 u => 48%N :: digits u
  | Decimal.D1 u => 49%N :: digits u
  | Decimal.D2 u => 50%N :: digits u
  | Decimal.D3 u => 51%N :: digits u
  | Decimal.D4 u => 52%N :: digits u
  | Decimal.D5 u => 53%N :: digits u
  | Decimal.D6 u => 54%N :: digits u
  | Decimal.D7 u => 55%N :: digits u
  | Decimal.D8 u => 56%N :: digits u
  | Decimal.D9 u => 57%N :: digits u
  end.

Definition String_of_nat (n : nat) : jsstring := digits (Nat.to_uint n).

(** [s.padStart(width, '0')] *)
Definition padStart0 (width : nat) (s : jsstring) : jsstring :=
  replicate (width - length s) 48%N ++ s.

Definition is_digit (c : N) : bool := ((48 <=? c) && (c <=? 57))%N.

(** [extractAgeBucket]: [filename.match(/^(\d{2}-\d{2})/)], the five
    leading code units when they read digit digit - digit digit, the
    placeholder [??] otherwise. *)
Definition extractAgeBucket (name : jsstring) : jsstring :=
  match name with
  | a :: b :: c :: d :: e :: _ =>
      if is_digit a && is_digit b && (c =? 45)%N && is_digit d && is_digit e
      then [a; b; c; d; e]
      else lit "??"
  | _ => lit "??"
  end.

(** ** JavaScript values *)

(** The values the script handles: what [JSON.parse] builds, and
    [undefined] (a missing property, an element taken from an empty
    array).  Numbers are IEEE 754 doubles.  An object is the list of its
    members in source order. *)
#[warnings="-register-all"]
Inductive jsval : Type :=
| VUndefined
| VNull
| VBool (b : bool)
| VNum (f : float)
| VStr (s : jsstring)
| VArr (elems : list jsval)
| VObj (members : list (jsstring * jsval)).

(** [ToBoolean]: the falsy values are [undefined], [null], [false], [0],
    [-0], [NaN] and the empty string; arrays and objects are truthy. *)
Definition truthy (v : jsval) : bool :=
  match v with
  | VUndefined | VNull => false
  | VBool b => b
  | VNum f => negb (PrimFloat.eqb f 0%float || PrimFloat.is_nan f)
  | VStr s => negb (bool_decide (s = []))
  | VArr _ | VObj _ => true
  end.

(** What the script can throw.  The message texts of the engine's own
    errors are not fixed by the language; the three errors the script
    raises itself keep their argument. *)
Inductive exn : Type :=
| NetworkError                 (* [fetch] rejected *)
| SyntaxError                  (* [response.json()] rejected *)
| TypeError                    (* property of null, call of a non-function, spread of a non-iterable *)
| ManifestStatus (status : Z)  (* [new Error(`Failed to fetch manifest: ${status}`)] *)
| ServerStatus (status : Z)    (* [new Error(`Server error: ${status}`)] *)
| ServerMessage (v : jsval).   (* [new Error(error.error)] *)

Inductive outcome (A : Type) : Type :=
| Return (a : A)
| Throw (e : exn).
Arguments Return {A} a.
Arguments Throw {A} e.

(** The last member of that name wins, as in [JSON.parse]. *)
Fixpoint member (name : jsstring) (ms : list (jsstring * jsval)) : option jsval :=
  match ms with
  | [] => None
  | (k, v) :: ms' =>
      match member name ms' with
      | Some w => Some w
      | None => if bool_decide (k = name) then Some v else None
      end
  end.

(** [v.name] for the member names the script reads ([order],
    [updated_at], [error], [final_key]), none of which a built-in
    prototype defines: a [TypeError] on [null] and [undefined],
    [undefined] on a value that has no such member. *)
Definition get_prop (v : jsval) (name : jsstring) : outcome jsval :=
  match v with
  | VUndefined | VNull => Throw TypeError
  | VObj ms => Return (default VUndefined (member name ms))
  | _ => Return VUndefined
  end.

(** [ToString(v)], as a template literal and [new Error(v)] apply it to
    a parsed value, for its completion: the script shows the text it
    gives nowhere but in a log entry or an error's message.  A
    primitive always converts.  An object converts through
    [Object.prototype.toString] unless it has a [toString] member of its
    own: no parsed value is callable, and [Object.prototype.valueOf]
    answers the object itself, so the conversion throws a [TypeError].
    An array converts through [join], which converts each of its
    elements ([null] and [undefined] become the empty string). *)
Fixpoint string_conversion (v : jsval) : outcome unit :=
  match v with
  | VArr elems =>
      (fix each (l : list jsval) : outcome unit :=
         match l with
         | [] => Return tt
         | x :: l' =>
             match string_conversion x with
             | Return _ => each l'
             | Throw e => Throw e
             end
         end) elems
  | VObj ms =>
      if member (lit "toString") ms is Some _ then Throw TypeError
      else Return tt
  | _ => Return tt
  end.

(** [`${v.length}`]: a [TypeError] on [null] and [undefined]; a number on
    an array and on a string; the conversion of its [length] member on
    an object; [undefined] on a boolean and on a number. *)
Definition length_conversion (v : jsval) : outcome unit :=
  match v with
  | VUndefined | VNull => Throw TypeError
  | VObj ms => string_conversion (default VUndefined (member (lit "length") ms))
  | _ => Return tt
  end.

(** ** Arrays *)

(** [Array.prototype.splice(start, deleteCount, ...items)] on the array
    [l]: the removed elements and the array afterwards.  A negative
    [start] counts from the end, and both arguments are clamped to the
    array. *)
Definition splice {A} (start deleteCount : Z) (items : list A) (l : list A)
  : list A * list A :=
  let len := Z.of_nat (length l) in
  let actualStart :=
    if start <? 0 then Z.max (len + start) 0 else Z.min start len in
  let actualDeleteCount := Z.min (Z.max deleteCount 0) (len - actualStart) in
  let a := Z.to_nat actualStart in
  let d := Z.to_nat actualDeleteCount in
  (take d (drop a l), take a l ++ items ++ drop (a + d)%nat l).
Arguments splice : simpl never.

(** Code points of a string, as the spread syntax iterates it: a
    surrogate pair is one element. *)
Fixpoint code_points (s : jsstring) : list jsstring :=
  match s with
  | [] => []
  | hi :: tl =>
      match tl with
      | lo :: rest =>
          if ((0xD800 <=? hi) && (hi <=? 0xDBFF)
              && (0xDC00 <=? lo) && (lo <=? 0xDFFF))%N
          then [hi; lo] :: code_points rest
          else [hi] :: code_points tl
      | [] => [[hi]]
      end
  end.

(** [[...v]]: a fresh array with the elements of an iterable. *)
Definition spread (v : jsval) : outcome (list jsval) :=
  match v with
  | VArr l => Return l
  | VStr s => Return (VStr <$> code_points s)
  | _ => Throw TypeError
  end.

(** ** Sorting *)

Section Sort.
Context {A : Type}.
(** [comparefn(a, b)]: negative, zero or positive. *)
Variable comparefn : A → A → Z.

(** [x] goes before the first element it does not have to follow. *)
Fixpoint sort_insert (x : A) (l : list A) : list A :=
  match l with
  | [] => [x]
  | y :: l' =>
      if comparefn x y <=? 0 then x :: y :: l' else y :: sort_insert x l'
  end.

(** [Array.prototype.sort(comparefn)].  For a consistent comparator the
    language fixes the result: the stable sorted arrangement, which
    insertion from the right computes. *)
Fixpoint sort (l : list A) : list A :=
  match l with
  | [] => []
  | x :: l' => sort_insert x (sort l')
  end.
End Sort.

(** ** Outbound calls and their answers *)

Inductive http_method : Type := GET | POST.

(** [fetch(url)] and [fetch(url, {method: 'POST', headers, body})]: the
    body is the value handed to [JSON.stringify]. *)
Record request : Type := Request {
  req_method : http_method;
  req_url : jsstring;
  req_body : option jsval
}.

(** What an awaited [fetch] brings back: a rejection, or a response with
    its status and with what [response.json()] makes of its body ([None]
    when the body does not parse). *)
Inductive fetch_result : Type :=
| NetworkFailure
| Response (status : Z) (body : option jsval).

(** [response.ok] *)
Definition ok (status : Z) : bool := (200 <=? status) && (status <=? 299).

(** ** Effects *)

(** A text shown to the operator: a literal of the script, or a literal
    followed by the message of a caught error. *)
Inductive message : Type :=
| Text (s : jsstring)
| ErrorMessage (prefix : jsstring) (e : exn).

Inductive button : Type := saveOrderBtn | approveBtn | rejectBtn.

(** One element of the gallery, as [renderGallery] builds it. *)
Record photo_item : Type := PhotoItem {
  item_s3Key : jsstring;
  item_index : nat;
  item_displayNum : jsstring;
  item_ageBucket : jsstring
}.

(** What the script does to the world outside its state.  [Console] is
    [console.log] or [console.error], by the fixed text that opens the
    message. *)
Inductive effect : Type :=
| Fetch (r : request)
| Navigate (url : jsstring)
| Alert (text : message)
| Confirm (text : jsstring) (answer : bool)
| Console (text : jsstring)
| SetOrderUid (text : jsstring)
| ShowError (title : jsstring) (detail : message)
| ShowLoading (show : bool)
| ClearGallery
| AppendPhotoItem (item : photo_item)
| ShowGallery
| UpdateDisplayNumbers
| SetPhotoCount (n : nat)
| ShowBottomActions
| SetButtonText (b : button) (text : jsstring)
| SetSaveStatusClass (className : jsstring)
| SetTimeout (ms : Z)
| ShowRejectModal
| HideRejectModal
| ShowConfirmation (icon title text : jsstring)
| HideConfirmModal
| DisableBottomButtons
| PreventUnload
| Uncaught (e : exn).

Definition is_fetch (e : effect) : bool :=
  match e with Fetch _ => true | _ => false end.

(** What reaches the operator as a failure: a blocking alert or the error
    display. *)
Definition is_surfaced (e : effect) : bool :=
  match e with Alert _ | ShowError _ _ | Uncaught _ => true | _ => false end.

(** ** Session state *)

(** The script's five global variables, the DOM properties the
    properties are about or the script reads back (button enablement, the status
    text, the reason typed into the reject dialog), and the two listeners
    the script installs. *)
Record state : Type := State {
  photoOrder : jsval;
  originalOrder : list jsval;
  uid : option jsstring;
  reviewToken : option jsstring;
  hasUnsavedChanges : bool;
  saveOrderBtn_disabled : bool;
  approveBtn_disabled : bool;
  rejectBtn_disabled : bool;
  saveStatus_text : jsstring;
  rejectReason_value : jsstring;
  sortable : bool;
  unloadGuard : bool
}.

Definition set_photoOrder (v : jsval) (s : state) : state :=
  State v (originalOrder s) (uid s) (reviewToken s) (hasUnsavedChanges s)
    (saveOrderBtn_disabled s) (approveBtn_disabled s) (rejectBtn_disabled s)
    (saveStatus_text s) (rejectReason_value s) (sortable s) (unloadGuard s).

Definition set_originalOrder (v : list jsval) (s : state) : state :=
  State (photoOrder s) v (uid s) (reviewToken s) (hasUnsavedChanges s)
    (saveOrderBtn_disabled s) (approveBtn_disabled s) (rejectBtn_disabled s)
    (saveStatus_text s) (rejectReason_value s) (sortable s) (unloadGuard s).

Definition set_uid (v : option jsstring) (s : state) : state :=
  State (photoOrder s) (originalOrder s) v (reviewToken s) (hasUnsavedChanges s)
    (saveOrderBtn_disabled s) (approveBtn_disabled s) (rejectBtn_disabled s)
    (saveStatus_text s) (rejectReason_value s) (sortable s) (unloadGuard s).

Definition set_reviewToken (v : option jsstring) (s : state) : state :=
  State (photoOrder s) (originalOrder s) (uid s) v (hasUnsavedChanges s)
    (saveOrderBtn_disabled s) (approveBtn_disabled s) (rejectBtn_disabled s)
    (saveStatus_text s) (rejectReason_value s) (sortable s) (unloadGuard s).

Definition set_hasUnsavedChanges (v : bool) (s : state) : state :=
  State (photoOrder s) (originalOrder s) (uid s) (reviewToken s) v
    (saveOrderBtn_disabled s) (approveBtn_disabled s) (rejectBtn_disabled s)
    (saveStatus_text s) (rejectReason_value s) (sortable s) (unloadGuard s).

Definition set_disabled (b : button) (v : bool) (s : state) : state :=
  State (photoOrder s) (originalOrder s) (uid s) (reviewToken s)
    (hasUnsavedChanges s)
    (match b with saveOrderBtn => v | _ => saveOrderBtn_disabled s end)
    (match b with approveBtn => v | _ => approveBtn_disabled s end)
    (match b with rejectBtn => v | _ => rejectBtn_disabled s end)
    (saveStatus_text s) (rejectReason_value s) (sortable s) (unloadGuard s).

Definition set_saveStatus_text (v : jsstring) (s : state) : state :=
  State (photoOrder s) (originalOrder s) (uid s) (reviewToken s)
    (hasUnsavedChanges s)
    (saveOrderBtn_disabled s) (approveBtn_disabled s) (rejectBtn_disabled s)
    v (rejectReason_value s) (sortable s) (unloadGuard s).

Definition set_rejectReason_value (v : jsstring) (s : state) : state :=
  State (photoOrder s) (originalOrder s) (uid s) (reviewToken s)
    (hasUnsavedChanges s)
    (saveOrderBtn_disabled s) (approveBtn_disabled s) (rejectBtn_disabled s)
    (saveStatus_text s) v (sortable s) (unloadGuard s).

Definition set_sortable (v : bool) (s : state) : state :=
  State (photoOrder s) (originalOrder s) (uid s) (reviewToken s)
    (hasUnsavedChanges s)
    (saveOrderBtn_disabled s) (approveBtn_disabled s) (rejectBtn_disabled s)
    (saveStatus_text s) (rejectReason_value s) v (unloadGuard s).

Definition set_unloadGuard (v : bool) (s : state) : state :=
  State (photoOrder s) (originalOrder s) (uid s) (reviewToken s)
    (hasUnsavedChanges s)
    (saveOrderBtn_disabled s) (approveBtn_disabled s) (rejectBtn_disabled s)
    (saveStatus_text s) (rejectReason_value s) (sortable s) v.

(** The state when the script has been evaluated and before any event:
    the globals as declared, no listener installed, the page as the
    document has it. *)
Definition fresh (s : state) : Prop :=
  photoOrder s = VArr [] ∧ originalOrder s = [] ∧ uid s = None
  ∧ reviewToken s = None ∧ hasUnsavedChanges s = false
  ∧ sortable s = false ∧ unloadGuard s = false.

(** ** The monad of synchronous code *)

(** A stretch of code between two suspension points: it updates the
    state, appends to the trace, and returns or throws. *)
Definition M (A : Type) : Type := state → state * list effect * outcome A.

#[global] Instance outcome_ret : MRet outcome := λ A a, Return a.
#[global] Instance outcome_bind : MBind outcome := λ A B k m,
  match m with
  | Return a => k a
  | Throw e => Throw e
  end.

#[global] Instance M_ret : MRet M := λ A a s, (s, [], Return a).
#[global] Instance M_bind : MBind M := λ A B k m s,
  match m s with
  | (s1, t1, Return a) =>
      match k a s1 with
      | (s2, t2, r) => (s2, t1 ++ t2, r)
      end
  | (s1, t1, Throw e) => (s1, t1, Throw e)
  end.

#[global] Instance M_fmap : FMap M := λ A B f m s,
  match m s with
  | (s1, t1, Return a) => (s1, t1, Return (f a))
  | (s1, t1, Throw e) => (s1, t1, Throw e)
  end.

Definition throw {A} (e : exn) : M A := λ s, (s, [], Throw e).
Definition lift {A} (r : outcome A) : M A := λ s, (s, [], r).
Definition gets {A} (f : state → A) : M A := λ s, (s, [], Return (f s)).
Definition modify (f : state → state) : M unit := λ s, (f s, [], Return tt).
Definition emit (e : effect) : M unit := λ s, (s, [e], Return tt).

(** [try { m } catch (e) { handler e }] *)
Definition try_catch {A} (m : M A) (handler : exn → M A) : M A := λ s,
  match m s with
  | (s1, t1, Throw e) =>
      match handler e s1 with
      | (s2, t2, r) => (s2, t1 ++ t2, r)
      end
  | r => r
  end.

(** Filtering with a predicate that may throw, left to right. *)
Fixpoint filterM {A} (p : A → outcome bool) (l : list A) : outcome (list A) :=
  match l with
  | [] => Return []
  | x :: l' =>
      b ← p x;
      l'' ← filterM p l';
      mret (if b : bool then x :: l'' else l'')
  end.

(** [array.forEach((x, index) => body)] from index [i] on. *)
Fixpoint forEach {A} (body : A → nat → M unit) (i : nat) (l : list A) : M unit :=
  match l with
  | [] => mret tt
  | x :: l' => body x i;; forEach body (S i) l'
  end.

Definition state_of {A} (r : state * list effect * outcome A) : state := r.1.1.
Definition trace_of {A} (r : state * list effect * outcome A) : list effect := r.1.2.
Definition result_of {A} (r : state * list effect * outcome A) : outcome A := r.2.

(** ** Configuration *)

Definition S3_BUCKET : jsstring := lit "order-by-age-uploads".
Definition S3_BASE_URL : jsstring :=
  lit "https://" ++ S3_BUCKET ++ lit ".s3.amazonaws.com".

(** A global holding [null] or a string, inside a template literal. *)
Definition interpolate (v : option jsstring) : jsstring :=
  default (lit "null") v.

(** The same global as a member of a request body. *)
Definition to_value (v : option jsstring) : jsval :=
  match v with
  | Some s => VStr s
  | None => VNull
  end.

(** [!v] for a global holding [null] or a string. *)
Definition not_ (v : option jsstring) : bool :=
  match v with
  | Some s => bool_decide (s = [])
  | None => true
  end.

(** [new URLSearchParams(window.location.search).get(name)] on the parsed
    query: the value of the first parameter of that name, or [null]. *)
Definition searchParam (name : jsstring) (query : list (jsstring * jsstring))
  : option jsstring :=
  snd <$> List.find (λ p, bool_decide (p.1 = name)) query.

Definition customOrderUrl (u : option jsstring) : jsstring :=
  S3_BASE_URL ++ lit "/metadata/" ++ interpolate u ++ lit "/custom_order.json".

Definition manifestUrl (u : option jsstring) : jsstring :=
  S3_BASE_URL ++ lit "/metadata/" ++ interpolate u ++ lit "/final_filenames.json".

Definition saved_mark : jsstring := lit "Saved " ++ [0x2713%N].

(** ** The code the two variants share *)

Definition fetch (r : request) : M request := emit (Fetch r);; mret r.

(** The awaited [fetch] settles: the response, or the rejection thrown. *)
Definition settled (r : fetch_result) : outcome (Z * option jsval) :=
  match r with
  | NetworkFailure => Throw NetworkError
  | Response status body => Return (status, body)
  end.

(** [await response.json()] *)
Definition json (body : option jsval) : outcome jsval :=
  match body with
  | Some v => Return v
  | None => Throw SyntaxError
  end.

(** Reading any property of [v], such as [v.length]: a [TypeError] on
    [null] and [undefined]. *)
Definition has_properties (v : jsval) : outcome unit :=
  match v with
  | VUndefined | VNull => Throw TypeError
  | _ => Return tt
  end.

(** Calling an array method of [v], such as [v.filter], [v.forEach] or
    [v.splice]: a [TypeError] unless [v] is an array. *)
Definition as_array (v : jsval) : outcome (list jsval) :=
  match v with
  | VArr l => Return l
  | _ => Throw TypeError
  end.

(** Calling a string method of [v], such as [v.split] or [v.endsWith]:
    a [TypeError] unless [v] is a string. *)
Definition as_string (v : jsval) : outcome jsstring :=
  match v with
  | VStr s => Return s
  | _ => Throw TypeError
  end.

Definition showLoading (show : bool) : M unit := emit (ShowLoading show).

Definition showError (title : jsstring) (detail : message) : M unit :=
  emit (ShowError title detail).

(** [renderGallery]: one element per entry of [photoOrder], in order. *)
Definition renderGallery : M unit :=
  emit ClearGallery;;
  po ← gets photoOrder;
  l ← lift (as_array po);
  forEach (λ s3Key index,
      key ← lift (as_string s3Key);
      let name := filename key in
      let ageBucket := extractAgeBucket name in
      let displayNum := padStart0 3 (String_of_nat (index + 1)) in
      emit (AppendPhotoItem (PhotoItem key index displayNum ageBucket)))
    0%nat l;;
  emit ShowGallery.

Definition updateDisplayNumbers : M unit := emit UpdateDisplayNumbers.

Definition markAsChanged : M unit :=
  modify (set_hasUnsavedChanges true);;
  modify (set_disabled saveOrderBtn false);;
  modify (set_saveStatus_text (lit "Unsaved changes"));;
  emit (SetSaveStatusClass (lit "save-status")).

(** The [onEnd] callback handed to [Sortable]. *)
Definition onEnd (oldIndex newIndex : Z) : M unit :=
  if bool_decide (oldIndex ≠ newIndex) then
    po ← gets photoOrder;
    l ← lift (as_array po);
    let '(removed, l1) := splice oldIndex 1 [] l in
    let movedItem := default VUndefined (head removed) in
    let '(_, l2) := splice newIndex 0 [movedItem] l1 in
    modify (set_photoOrder (VArr l2));;
    updateDisplayNumbers;;
    markAsChanged;;
    emit (Console (lit "[REORDER] Moved"))
  else mret tt.

Definition initializeSortable : M unit :=
  modify (set_sortable true);;
  emit (Console (lit "[SORTABLE] Initialized")).

(** [loadExistingOrder] up to its [await fetch]. *)
Definition loadExistingOrder_begin : M request :=
  u ← gets uid;
  fetch (Request GET (customOrderUrl u) None).

(** [loadExistingOrder] from the answer on: the value it resolves to. *)
Definition loadExistingOrder_resume (r : fetch_result) : M jsval :=
  try_catch
    ('(status, body) ← lift (settled r);
     if ok status then
       data ← lift (json body);
       updated_at ← lift (get_prop data (lit "updated_at"));
       lift (string_conversion updated_at);;
       emit (Console (lit "[CUSTOM ORDER] Found order from"));;
       lift (get_prop data (lit "order"))
     else mret VNull)
    (λ _, emit (Console (lit "[CUSTOM ORDER] No existing order found"));;
          mret VNull).

(** The callback of [manifest.filter]:
    [entry.final_key && !entry.final_key.endsWith('.ready')]. *)
Definition keep_entry (entry : jsval) : outcome bool :=
  k ← get_prop entry (lit "final_key");
  if truthy k then
    key ← as_string k;
    mret (negb (endsWith key (lit ".ready")))
  else mret false.

Section Shared.
(** [a.localeCompare(b)] in the browser's locale. *)
Variable localeCompare : jsstring → jsstring → Z.
(** The address of the save call, which differs between the variants. *)
Variable SAVE_ORDER_LAMBDA_URL : jsstring.

(** The comparator of the manifest sort. *)
Definition by_filename (a b : jsstring) : Z :=
  let fileA := filename a in
  let fileB := filename b in
  localeCompare fileA fileB.

(** [manifest.filter(...).map(...).sort(...)]: the comparator is only
    ever handed strings, the filter having thrown on any other truthy
    [final_key]. *)
Definition photoEntries (manifest : list jsval) : outcome (list jsstring) :=
  selected ← filterM keep_entry manifest;
  keys ← mapM (λ entry, get_prop entry (lit "final_key")) selected;
  keys ← mapM as_string keys;
  mret (sort by_filename keys).

(** [loadPhotos] after the two branches have set [photoOrder]. *)
Definition loadPhotos_finish : M unit :=
  po ← gets photoOrder;
  copy ← lift (spread po);
  modify (set_originalOrder copy);;
  renderGallery;;
  initializeSortable;;
  po ← gets photoOrder;
  l ← lift (as_array po);
  emit (SetPhotoCount (length l));;
  modify (set_disabled saveOrderBtn true);;
  (if bool_decide (20 < length l)%nat then emit ShowBottomActions else mret tt);;
  showLoading false.

(** [loadPhotos] up to the first [await]. *)
Definition loadPhotos_begin : M request :=
  showLoading true;;
  loadExistingOrder_begin.

(** [loadPhotos] from the answer of the custom-order read on: it ends,
    or it suspends on the manifest read. *)
Definition loadPhotos_afterCustomOrder (r : fetch_result) : M (option request) :=
  existingOrder ← loadExistingOrder_resume r;
  if truthy existingOrder then
    lift (length_conversion existingOrder);;
    emit (Console (lit "[CUSTOM ORDER] Found existing order"));;
    modify (set_photoOrder existingOrder);;
    loadPhotos_finish;;
    mret None
  else
    u ← gets uid;
    emit (Console (lit "[FETCH] Loading manifest"));;
    Some <$> fetch (Request GET (manifestUrl u) None).

(** [loadPhotos] from the answer of the manifest read on. *)
Definition loadPhotos_afterManifest (r : fetch_result) : M unit :=
  '(status, body) ← lift (settled r);
  if negb (ok status) then throw (ManifestStatus status)
  else
    manifest ← lift (json body);
    lift (length_conversion manifest);;
    emit (Console (lit "[MANIFEST] Loaded"));;
    entries ← lift (as_array manifest);
    sorted ← lift (photoEntries entries);
    modify (set_photoOrder (VArr (VStr <$> sorted)));;
    emit (Console (lit "[PHOTOS] Sorted"));;
    loadPhotos_finish.

(** The [catch] around [await loadPhotos()]. *)
Definition loadFailed (error : exn) : M unit :=
  emit (Console (lit "[ERROR] Failed to load photos:"));;
  showError (lit "Failed to load photos") (ErrorMessage [] error).

Definition addUnloadGuard : M unit := modify (set_unloadGuard true).

(** The [DOMContentLoaded] listener up to its first [await], for the
    parsed query of the entry URL. *)
Definition DOMContentLoaded (query : list (jsstring * jsstring))
  : M (option request) :=
  modify (set_uid (searchParam (lit "uid") query));;
  modify (set_reviewToken (searchParam (lit "token") query));;
  u ← gets uid;
  token ← gets reviewToken;
  emit (SetOrderUid (if not_ u then lit "---" else interpolate u));;
  if not_ u || not_ token then
    showError (lit "Invalid review link")
      (Text (lit "Missing order ID or review token. Please use the link from your email."));;
    mret None
  else
    emit (Console (lit "[INIT] Loading review for UID:"));;
    try_catch (Some <$> loadPhotos_begin)
      (λ error, loadFailed error;; addUnloadGuard;; mret None).

Definition DOMContentLoaded_afterCustomOrder (r : fetch_result)
  : M (option request) :=
  next ← try_catch (loadPhotos_afterCustomOrder r)
           (λ error, loadFailed error;; mret None);
  match next with
  | Some req => mret (Some req)
  | None => addUnloadGuard;; mret None
  end.

Definition DOMContentLoaded_afterManifest (r : fetch_result) : M unit :=
  try_catch (loadPhotos_afterManifest r) loadFailed;;
  addUnloadGuard.

(** The [beforeunload] listener. *)
Definition beforeunload : M unit :=
  dirty ← gets hasUnsavedChanges;
  if dirty : bool then emit PreventUnload else mret tt.

(** The error a call answered outside 2xx is turned into:
    [new Error(error.error || `Server error: ${response.status}`)], with
    [error] the parsed body, or [{}] when it does not parse.  The
    constructor converts its argument to a string. *)
Definition server_error {A} (status : Z) (body : option jsval) : M A :=
  let error := default (VObj []) body in
  text ← lift (get_prop error (lit "error"));
  if truthy text then
    lift (string_conversion text);;
    throw (ServerMessage text)
  else throw (ServerStatus status).

(** [saveOrder] up to its [await fetch]. *)
Definition saveOrder_begin : M request :=
  modify (set_disabled saveOrderBtn true);;
  modify (set_saveStatus_text (lit "Saving..."));;
  emit (SetSaveStatusClass (lit "save-status saving"));;
  u ← gets uid;
  token ← gets reviewToken;
  po ← gets photoOrder;
  fetch (Request POST SAVE_ORDER_LAMBDA_URL
           (Some (VObj [(lit "uid", to_value u);
                        (lit "review_token", to_value token);
                        (lit "photo_order", po)]))).

(** [saveOrder] from the answer on. *)
Definition saveOrder_resume (r : fetch_result) : M unit :=
  try_catch
    ('(status, body) ← lift (settled r);
     (if negb (ok status) then server_error status body else mret tt);;
     _ ← lift (json body);
     emit (Console (lit "[SAVE] Success:"));;
     modify (set_hasUnsavedChanges false);;
     po ← gets photoOrder;
     copy ← lift (spread po);
     modify (set_originalOrder copy);;
     modify (set_saveStatus_text saved_mark);;
     emit (SetSaveStatusClass (lit "save-status saved"));;
     emit (SetTimeout 3000))
    (λ error,
      emit (Console (lit "[SAVE ERROR]"));;
      modify (set_saveStatus_text (lit "Save failed!"));;
      emit (SetSaveStatusClass (lit "save-status error"));;
      modify (set_disabled saveOrderBtn false);;
      emit (Alert (ErrorMessage (lit "Failed to save order: ") error))).

(** The callback [saveOrder] hands to [setTimeout]. *)
Definition clearSavedStatus : M unit :=
  text ← gets saveStatus_text;
  if bool_decide (text = saved_mark) then modify (set_saveStatus_text [])
  else mret tt.
End Shared.

(** ** The call-based variant ([script.js]) *)

Module CallBased.

Definition SAVE_ORDER_LAMBDA_URL : jsstring :=
  lit "https://YOUR_SAVE_ORDER_LAMBDA.lambda-url.us-east-2.on.aws/".
Definition REVIEW_GATE_LAMBDA_URL : jsstring :=
  lit "https://YOUR_REVIEW_GATE_LAMBDA.lambda-url.us-east-2.on.aws/".

Definition showConfirmation (icon title text : jsstring) : M unit :=
  emit (ShowConfirmation icon title text).

Definition closeConfirmModal : M unit := emit HideConfirmModal.

Definition disableAllActions : M unit :=
  modify (set_disabled saveOrderBtn true);;
  modify (set_disabled approveBtn true);;
  modify (set_disabled rejectBtn true);;
  emit DisableBottomButtons;;
  modify (set_hasUnsavedChanges false).

(** [approveOrder] from the save prompt to its [await fetch]. *)
Definition approveOrder_call : M request :=
  modify (set_disabled approveBtn true);;
  emit (SetButtonText approveBtn (lit "Approving..."));;
  u ← gets uid;
  token ← gets reviewToken;
  fetch (Request POST REVIEW_GATE_LAMBDA_URL
           (Some (VObj [(lit "uid", to_value u);
                        (lit "review_token", to_value token);
                        (lit "action", VStr (lit "approve"))]))).

(** [approveOrder] up to its first [await]: on the save call when the
    operator accepts to save first ([true]), on the approval otherwise.
    [answer] is what the operator answers if [confirm] is shown. *)
Definition approveOrder_begin (answer : bool) : M (request * bool) :=
  dirty ← gets hasUnsavedChanges;
  if dirty : bool then
    emit (Confirm (lit "You have unsaved changes. Save them before approving?") answer);;
    if answer then
      req ← saveOrder_begin SAVE_ORDER_LAMBDA_URL;
      mret (req, true)
    else
      req ← approveOrder_call;
      mret (req, false)
  else
    req ← approveOrder_call;
    mret (req, false).

(** [approveOrder] from the answer of the approval on. *)
Definition approveOrder_resume (r : fetch_result) : M unit :=
  try_catch
    ('(status, body) ← lift (settled r);
     (if negb (ok status) then server_error status body else mret tt);;
     _ ← lift (json body);
     emit (Console (lit "[APPROVE] Success:"));;
     showConfirmation [0x2705%N] (lit "Order Approved!")
       (lit "The customer has been notified and can now access their photos.");;
     disableAllActions)
    (λ error,
      emit (Console (lit "[APPROVE ERROR]"));;
      emit (Alert (ErrorMessage (lit "Failed to approve: ") error));;
      modify (set_disabled approveBtn false);;
      emit (SetButtonText approveBtn (lit "Approve & Send"))).

Definition rejectOrder : M unit := emit ShowRejectModal.

Definition closeRejectModal : M unit :=
  emit HideRejectModal;;
  modify (set_rejectReason_value []).

(** [submitRejection] up to its [await fetch]: the reason sent, when a
    call is issued. *)
Definition submitRejection : M (option (request * jsstring)) :=
  value ← gets rejectReason_value;
  let reason := trim value in
  if bool_decide (reason = []) then
    emit (Alert (Text (lit "Please provide a reason for rejection.")));;
    mret None
  else
    closeRejectModal;;
    modify (set_disabled rejectBtn true);;
    emit (SetButtonText rejectBtn (lit "Rejecting..."));;
    u ← gets uid;
    token ← gets reviewToken;
    req ← fetch (Request POST REVIEW_GATE_LAMBDA_URL
                   (Some (VObj [(lit "uid", to_value u);
                                (lit "review_token", to_value token);
                                (lit "action", VStr (lit "reject"));
                                (lit "reason", VStr reason)])));
    mret (Some (req, reason)).

(** [submitRejection] from the answer on. *)
Definition submitRejection_resume (reason : jsstring) (r : fetch_result) : M unit :=
  try_catch
    ('(status, body) ← lift (settled r);
     (if negb (ok status) then server_error status body else mret tt);;
     _ ← lift (json body);
     emit (Console (lit "[REJECT] Success:"));;
     showConfirmation [0x274C%N] (lit "Order Rejected")
       (lit "The order has been flagged for manual review. Reason: " ++ reason);;
     disableAllActions)
    (λ error,
      emit (Console (lit "[REJECT ERROR]"));;
      emit (Alert (ErrorMessage (lit "Failed to reject: ") error));;
      modify (set_disabled rejectBtn false);;
      emit (SetButtonText rejectBtn (lit "Reject"))).

(** *** The session as an event loop *)

(** A suspended asynchronous function: the [await] it is waiting at. *)
Inductive kont : Type :=
| KCustomOrder                  (* [loadExistingOrder], called by [loadPhotos] *)
| KManifest                     (* [loadPhotos] *)
| KSave (thenApprove : bool)    (* [saveOrder], called by [approveOrder] or not *)
| KApprove                      (* [approveOrder] *)
| KReject (reason : jsstring).  (* [submitRejection] *)

(** What can happen to the page.  The page's markup decides which
    control calls which function; every function the script offers is
    taken to be callable at any time. *)
Inductive event : Type :=
| Answer (n : nat) (r : fetch_result)   (* the [n]-th call in flight settles *)
| DragEnd (oldIndex newIndex : Z)
| ClickSave
| ClickApprove (answer : bool)
| ClickReject
| TypeReason (text : jsstring)
| ClickCloseReject
| ClickSubmitRejection
| ClickCloseConfirm
| TimerFires
| LeavePage.

Record config : Type := Config {
  st : state;
  inflight : list kont;
  timers : nat
}.

Section Session.
Variable localeCompare : jsstring → jsstring → Z.

(** Resuming a suspended function with the answer to its call. *)
Definition resume (k : kont) (r : fetch_result) : M (list kont) :=
  match k with
  | KCustomOrder =>
      next ← DOMContentLoaded_afterCustomOrder r;
      mret (if next is Some _ then [KManifest] else [])
  | KManifest =>
      DOMContentLoaded_afterManifest localeCompare r;;
      mret []
  | KSave false =>
      saveOrder_resume r;;
      mret []
  | KSave true =>
      saveOrder_resume r;;
      approveOrder_call;;
      mret [KApprove]
  | KApprove =>
      approveOrder_resume r;;
      mret []
  | KReject reason =>
      submitRejection_resume reason r;;
      mret []
  end.

(** The listener or callback an event runs, and the calls it leaves
    in flight. *)
Definition handler (ev : event) (c : config) : M (list kont) :=
  match ev with
  | Answer n r =>
      match inflight c !! n with
      | Some k => resume k r
      | None => mret []
      end
  | DragEnd oldIndex newIndex =>
      if sortable (st c) then onEnd oldIndex newIndex;; mret []
      else mret []
  | ClickSave =>
      saveOrder_begin SAVE_ORDER_LAMBDA_URL;;
      mret [KSave false]
  | ClickApprove answer =>
      '(_, saving) ← approveOrder_begin answer;
      mret [if saving : bool then KSave true else KApprove]
  | ClickReject => rejectOrder;; mret []
  | TypeReason text => modify (set_rejectReason_value text);; mret []
  | ClickCloseReject => closeRejectModal;; mret []
  | ClickSubmitRejection =>
      sent ← submitRejection;
      mret (if sent is Some (_, reason) then [KReject reason] else [])
  | ClickCloseConfirm => closeConfirmModal;; mret []
  | TimerFires =>
      if bool_decide (0 < timers c)%nat then clearSavedStatus;; mret []
      else mret []
  | LeavePage =>
      if unloadGuard (st c) then beforeunload;; mret [] else mret []
  end.

(** A call that is answered is no longer in flight. *)
Definition settles (ev : event) (l : list kont) : list kont :=
  match ev with
  | Answer n _ => delete n l
  | _ => l
  end.

(** The timers a turn has started. *)
Definition count_timeouts (t : list effect) : nat :=
  length (List.filter (λ e, match e with SetTimeout _ => true | _ => false end) t).

(** A timer that fires is spent. *)
Definition fired (ev : event) (n : nat) : nat :=
  match ev with
  | TimerFires => pred n
  | _ => n
  end.

(** One turn of the event loop. *)
Definition step (c : config) (ev : event) : config * list effect :=
  match handler ev c (st c) with
  | (s, t, Return ks) =>
      (Config s (settles ev (inflight c) ++ ks)
         (fired ev (timers c) + count_timeouts t), t)
  | (s, t, Throw e) =>
      (Config s (settles ev (inflight c))
         (fired ev (timers c) + count_timeouts t), t ++ [Uncaught e])
  end.

Fixpoint run (evs : list event) (c : config) : config * list effect :=
  match evs with
  | [] => (c, [])
  | ev :: evs' =>
      let '(c1, t1) := step c ev in
      let '(c2, t2) := run evs' c1 in
      (c2, t1 ++ t2)
  end.

(** The page is opened on an entry URL with the given query. *)
Definition boot (query : list (jsstring * jsstring)) (s : state)
  : config * list effect :=
  match DOMContentLoaded query s with
  | (s1, t, Return (Some _)) => (Config s1 [KCustomOrder] 0, t)
  | (s1, t, Return None) => (Config s1 [] 0, t)
  | (s1, t, Throw e) => (Config s1 [] 0, t ++ [Uncaught e])
  end.

(** The configurations a session passes through. *)
Definition reachable (c : config) : Prop :=
  ∃ s0 query evs,
    fresh s0 ∧ c = (run evs (boot query s0).1).1.
End Session.

End CallBased.

(** ** The redirect-based variant *)

Module RedirectBased.

Definition SAVE_ORDER_LAMBDA_URL : jsstring :=
  lit "https://cewpk2fgheclulpkx2fhfywnym0ucucx.lambda-url.us-east-2.on.aws/".
Definition API_BASE_URL : jsstring :=
  lit "https://w8i78lu05m.execute-api.us-east-2.amazonaws.com/prod".

(** [window.location.href = url] *)
Definition navigate (url : jsstring) : M unit := emit (Navigate url).

(** [approveOrder] from the save prompt on; [confirmed] is the
    operator's answer to the second prompt. *)
Definition approveOrder_confirm (confirmed : bool) : M unit :=
  emit (Confirm (lit "Approve this order and send to customer now?") confirmed);;
  if confirmed then
    token ← gets reviewToken;
    navigate (API_BASE_URL ++ lit "/approve/" ++ interpolate token)
  else mret tt.

(** [approveOrder] up to its first [await], if it has one: the save
    call, when the operator accepts to save first. *)
Definition approveOrder_begin (save confirmed : bool) : M (option request) :=
  dirty ← gets hasUnsavedChanges;
  if (dirty : bool) then
    emit (Confirm (lit "You have unsaved changes. Save them before approving?") save);;
    if save then Some <$> saveOrder_begin SAVE_ORDER_LAMBDA_URL
    else approveOrder_confirm confirmed;; mret None
  else approveOrder_confirm confirmed;; mret None.

(** [approveOrder] from the answer of the save call to the half-second
    wait that follows it. *)
Definition approveOrder_afterSave (r : fetch_result) : M unit :=
  saveOrder_resume r;;
  emit (SetTimeout 500).

(** [approveOrder] once the wait is over. *)
Definition approveOrder_afterWait (confirmed : bool) : M unit :=
  approveOrder_confirm confirmed.

Definition rejectOrder (discard confirmed : bool) : M unit :=
  dirty ← gets hasUnsavedChanges;
  proceed ← (if (dirty : bool) then
               emit (Confirm (lit "You have unsaved changes. Discard them and reject?") discard);;
               mret discard
             else mret true);
  if (proceed : bool) then
    emit (Confirm (lit "Reject this order? The customer will NOT receive their photos.") confirmed);;
    if confirmed then
      token ← gets reviewToken;
      navigate (API_BASE_URL ++ lit "/reject/" ++ interpolate token)
    else mret tt
  else mret tt.

Definition pauseTimer : M unit :=
  token ← gets reviewToken;
  navigate (API_BASE_URL ++ lit "/pause/" ++ interpolate token).

Section Extend.
(** [`${minutes}`]: the language's conversion of the argument to a
    string. *)
Variable ToString : jsval → jsstring.

Definition extendTimer (minutes : jsval) : M unit :=
  token ← gets reviewToken;
  navigate (API_BASE_URL ++ lit "/extend/" ++ interpolate token
            ++ lit "?minutes=" ++ ToString minutes).
End Extend.

End RedirectBased.

(** ** The functions run without interruption *)

(** An asynchronous function run from its call to its end when no other
    event is handled while it is suspended: each takes the answers to its
    calls, in the order it issues them. *)

Definition loadPhotos (localeCompare : jsstring → jsstring → Z)
    (custom manifest : fetch_result) : M unit :=
  loadPhotos_begin;;
  next ← loadPhotos_afterCustomOrder custom;
  match next with
  | Some _ => loadPhotos_afterManifest localeCompare manifest
  | None => mret tt
  end.

Definition saveOrder (SAVE_ORDER_LAMBDA_URL : jsstring) (r : fetch_result) : M unit :=
  saveOrder_begin SAVE_ORDER_LAMBDA_URL;;
  saveOrder_resume r.

(** A call is answered successfully when the response is 2xx and its body
    parses: the two conditions the script tests before it goes on. *)
Definition accepted (r : fetch_result) : bool :=
  match r with
  | Response status (Some _) => ok status
  | _ => false
  end.

(** ** Notions the properties are stated with *)

(** [respects R T m]: from any state, [m] ends in a state related to it
    by [R] and emits only effects in [T], whether it returns or throws. *)
Definition respects {A} (R : relation state) (T : effect → Prop) (m : M A) : Prop :=
  ∀ s, R s (state_of (m s)) ∧ Forall T (trace_of (m s)).

(** The state is left as it was. *)
Definition unchanged : relation state := eq.

(** PhotoOrder is left as it was. *)
Definition same_photoOrder : relation state :=
  λ s s', photoOrder s' = photoOrder s.

(** The flag does not go from set to cleared. *)
Definition keeps_dirty : relation state :=
  λ s s', hasUnsavedChanges s = true → hasUnsavedChanges s' = true.

(** A consistent comparator, as the language defines it for
    [Array.prototype.sort]: equivalence under it is reflexive, symmetric
    and transitive, and so are "before" and "after". *)
Record consistent {A} (comparefn : A → A → Z) : Prop := Consistent {
  consistent_refl a : comparefn a a = 0;
  consistent_sym a b : comparefn a b = 0 → comparefn b a = 0;
  consistent_eq a b c : comparefn a b = 0 → comparefn b c = 0 → comparefn a c = 0;
  consistent_lt a b c : comparefn a b < 0 → comparefn b c < 0 → comparefn a c < 0;
  consistent_gt a b c : 0 < comparefn a b → 0 < comparefn b c → 0 < comparefn a c
}.

(** [a] is not placed after [b]. *)
Definition not_after {A} (comparefn : A → A → Z) (a b : A) : Prop :=
  comparefn a b ≤ 0.

(** Ordering by code units: a consistent comparator to run examples
    with. *)
Fixpoint compare_code_units (a b : jsstring) : Z :=
  match a, b with
  | [], [] => 0
  | [], _ :: _ => -1
  | _ :: _, [] => 1
  | x :: a', y :: b' =>
      if (x <? y)%N then -1
      else if (y <? x)%N then 1
      else compare_code_units a' b'
  end.

(** After the specification's words: the [final_key] of an entry whose
    [final_key] is present, non-empty and does not end in [.ready]. *)
Definition reviewable_key (entry : jsval) : option jsstring :=
  match entry with
  | VObj ms =>
      match member (lit "final_key") ms with
      | Some (VStr key) =>
          if bool_decide (key ≠ []) && negb (endsWith key (lit ".ready"))
          then Some key else None
      | _ => None
      end
  | _ => None
  end.

(** The keys a manifest offers for review, in the manifest's order. *)
Definition reviewable_keys (manifest : list jsval) : list jsstring :=
  omap reviewable_key manifest.

(** A record of a manifest: an object whose [final_key], unless it is
    missing or falsy, is a string. *)
Definition manifest_record (entry : jsval) : Prop :=
  ∃ ms, entry = VObj ms
        ∧ ∀ v, member (lit "final_key") ms = Some v → truthy v = true →
               ∃ key, v = VStr key.

Import CallBased.


(** The event is the successful answer to a save call in flight. *)
Definition save_succeeds (c : config) (ev : event) : bool :=
  match ev with
  | Answer n r =>
      accepted r && (if inflight c !! n is Some (KSave _) then true else false)
  | _ => false
  end.

(** The event is the successful answer to an approval or a rejection in
    flight, upon which [disableAllActions] makes the session read-only. *)
Definition action_succeeds (c : config) (ev : event) : bool :=
  match ev with
  | Answer n r =>
      accepted r
      && match inflight c !! n with
         | Some KApprove | Some (KReject _) => true
         | _ => false
         end
  | _ => false
  end.

(** The event is a drag that changes PhotoOrder. *)
Definition mutates (localeCompare : jsstring → jsstring → Z)
    (c : config) (ev : event) : Prop :=
  (∃ oldIndex newIndex, ev = DragEnd oldIndex newIndex)
  ∧ photoOrder (st (step localeCompare c ev).1) ≠ photoOrder (st c).

(** No event of the run from [c] satisfies [p] when it is handled. *)
Fixpoint never (localeCompare : jsstring → jsstring → Z)
    (p : config → event → bool) (evs : list event) (c : config) : bool :=
  match evs with
  | [] => true
  | ev :: evs' =>
      negb (p c ev) && never localeCompare p evs' (step localeCompare c ev).1
  end.

(** ** Sample inputs *)

(** The state of a session whose photo list has been resolved to [l]
    from an entry URL carrying both parameters. *)
Definition reviewing (l : list jsval) : state :=
  State (VArr l) l (Some (lit "order-1")) (Some (lit "token-1")) false
    true false false [] [] true true.

Definition three_photos : list jsval :=
  [VStr (lit "a/01.jpg"); VStr (lit "b/02.jpg"); VStr (lit "c/03.jpg")].

(** The state of a page opened on an entry URL carrying both parameters,
    as [loadPhotos] finds it. *)
Definition opened : state :=
  State (VArr []) [] (Some (lit "order-1")) (Some (lit "token-1")) false
    false false false [] [] false false.

(** The manifest of the specification's scenario. *)
Definition scenario_manifest : list jsval :=
  [VObj [(lit "final_key", VStr (lit "b/02-1.jpg"))];
   VObj [(lit "final_key", VStr (lit "a/01-1.jpg"))];
   VObj [(lit "final_key", VStr (lit "x/y.ready"))]].

(** An entry URL carrying both parameters. *)
Definition both_parameters : list (jsstring * jsstring) :=
  [(lit "uid", lit "order-1"); (lit "token", lit "token-1")].

(** The state of the page before the script's listener runs. *)
Definition pristine : state :=
  State (VArr []) [] None None false false false false [] [] false false.

(** A session that has resolved the scenario's manifest. *)
Definition loaded_session : config :=
  (run compare_code_units
     [Answer 0 (Response 404 None);
      Answer 0 (Response 200 (Some (VArr scenario_manifest)))]
     (boot both_parameters pristine).1).1.

(** The state of a session in which the first of three photos has been
    dragged to the last place and nothing has been saved since. *)
Definition moved : state := state_of (onEnd 0 2 (reviewing three_photos)).

(** ** Notions for the further properties *)

(** The element [renderGallery] appends for the entry [key] at [index]. *)
Definition gallery_item (key : jsstring) (index : nat) : effect :=
  AppendPhotoItem
    (PhotoItem key index (padStart0 3 (String_of_nat (index + 1)))
       (extractAgeBucket (filename key))).

(** The elements for [keys], the first of them at [index]. *)
Fixpoint gallery_items (index : nat) (keys : list jsstring) : list effect :=
  match keys with
  | [] => []
  | key :: keys' => gallery_item key index :: gallery_items (S index) keys'
  end.

(** The number a string of decimal digits writes. *)
Definition read_digits (s : jsstring) : nat :=
  foldl (λ acc c, 10 * acc + (N.to_nat c - 48))%nat 0%nat s.

(** PhotoOrder and OriginalOrder are left as they were. *)
Definition same_orders : relation state :=
  λ s s', photoOrder s' = photoOrder s ∧ originalOrder s' = originalOrder s.

(** The suspended function is not part of loading. *)
Definition load_free (k : kont) : Prop :=
  match k with
  | KCustomOrder | KManifest => False
  | _ => True
  end.

(** A drag event has both indices inside a list of [n] entries. *)
Definition within (n : nat) (ev : event) : Prop :=
  match ev with
  | DragEnd oldIndex newIndex =>
      (0 ≤ oldIndex < Z.of_nat n) ∧ (0 ≤ newIndex < Z.of_nat n)
  | _ => True
  end.

(** PhotoOrder and OriginalOrder are rearrangements of [l], and loading
    is over. *)
Definition rearranged (l : list jsval) (c : config) : Prop :=
  ∃ l', photoOrder (st c) = VArr l' ∧ l' ≡ₚ l
        ∧ originalOrder (st c) ≡ₚ l ∧ Forall load_free (inflight c).

(** A call that carries a photo order carries a rearrangement of [l]. *)
Definition carries (l : list jsval) (e : effect) : Prop :=
  match e with
  | Fetch (Request _ _ (Some (VObj ms))) =>
      ∀ order, member (lit "photo_order") ms = Some order →
               ∃ l', order = VArr l' ∧ l' ≡ₚ l
  | _ => True
  end.

(** The drag handler and the unload listener are left as they were. *)
Definition same_listeners : relation state :=
  λ s s', sortable s' = sortable s ∧ unloadGuard s' = unloadGuard s.

(** Dragging is possible only with the unload listener installed. *)
Definition guarded (s : state) : Prop :=
  sortable s = true → unloadGuard s = true.


(** Any two states. *)
Definition any_state : relation state := λ _ _, True.

(** An entry of a manifest on which the filter throws: [null], or an
    object whose [final_key] is truthy and not a string. *)
Definition malformed_entry (entry : jsval) : Prop :=
  entry = VNull
  ∨ ∃ ms v, entry = VObj ms ∧ member (lit "final_key") ms = Some v
            ∧ truthy v = true ∧ ∀ key, v ≠ VStr key.

(** The approval call of a session. *)
Definition approval_request (s : state) : request :=
  Request POST REVIEW_GATE_LAMBDA_URL
    (Some (VObj [(lit "uid", to_value (uid s));
                 (lit "review_token", to_value (reviewToken s));
                 (lit "action", VStr (lit "approve"))])).

(** The save call of a session: it carries PhotoOrder as it is when the
    call is made. *)
Definition save_request (url : jsstring) (s : state) : request :=
  Request POST url
    (Some (VObj [(lit "uid", to_value (uid s));
                 (lit "review_token", to_value (reviewToken s));
                 (lit "photo_order", photoOrder s)])).


(** * Properties *)

(** ** The helpers on small inputs *)

Example filename_nested : filename (lit "a/b/c.jpg") = lit "c.jpg".
Proof. reflexivity. Qed.

Example filename_plain : filename (lit "c.jpg") = lit "c.jpg".
Proof. reflexivity. Qed.

Example age_bucket_found :
  extractAgeBucket (lit "01-05(003)_|EX|_name.jpg") = lit "01-05".
Proof. reflexivity. Qed.

Example age_bucket_placeholder : extractAgeBucket (lit "bad.jpg") = lit "??".
Proof. reflexivity. Qed.

Example displayNum_7 : padStart0 3 (String_of_nat 7) = lit "007".
Proof. reflexivity. Qed.

Example splice_take_one :
  splice 1 1 [] [10; 20; 30]%N = ([20], [10; 30])%N.
Proof. reflexivity. Qed.

Example splice_out_of_range :
  splice 5 1 [] [10; 20; 30]%N = ([], [10; 20; 30])%N.
Proof. reflexivity. Qed.

(** ** Lists and strings *)

Lemma splice_remove_one {A} (l : list A) (i : nat) (x : A) :
  l !! i = Some x → splice (Z.of_nat i) 1 [] l = ([x], delete i l).
Proof.
  intros Hx. pose proof (lookup_lt_Some _ _ _ Hx) as Hi.
  unfold splice. destruct (Z.ltb_spec (Z.of_nat i) 0) as [|_]; [lia|].
  rewrite (Z.min_l (Z.of_nat i)) by lia. rewrite Nat2Z.id.
  replace (Z.to_nat (Z.min (Z.max 1 0) (Z.of_nat (length l) - Z.of_nat i)))
    with 1%nat by lia.
  f_equal.
  - rewrite <- (take_drop_middle l i x Hx) at 1.
    rewrite drop_app_length'; [done|]. rewrite length_take. lia.
  - simpl. rewrite delete_take_drop. do 2 f_equal. lia.
Qed.

Lemma splice_insert_one {A} (l : list A) (j : nat) (x : A) :
  (j ≤ length l)%nat →
  splice (Z.of_nat j) 0 [x] l = ([], take j l ++ x :: drop j l).
Proof.
  intros Hj. unfold splice.
  destruct (Z.ltb_spec (Z.of_nat j) 0) as [|_]; [lia|].
  rewrite (Z.min_l (Z.of_nat j)) by lia. rewrite Nat2Z.id.
  replace (Z.to_nat (Z.min (Z.max 0 0) (Z.of_nat (length l) - Z.of_nat j)))
    with 0%nat by lia.
  rewrite Nat.add_0_r. by rewrite take_0.
Qed.

Lemma lookup_reinserted {A} (l : list A) (j : nat) (x : A) :
  (j ≤ length l)%nat → (take j l ++ x :: drop j l) !! j = Some x.
Proof.
  intros Hj. rewrite lookup_app_r; rewrite length_take; [|lia].
  by replace (j - j `min` length l)%nat with 0%nat by lia.
Qed.

Lemma delete_reinserted {A} (l : list A) (j : nat) (x : A) :
  (j ≤ length l)%nat → delete j (take j l ++ x :: drop j l) = l.
Proof.
  intros Hj. rewrite delete_take_drop.
  rewrite take_app_length'; [|rewrite length_take; lia].
  rewrite (cons_middle x), (assoc_L (++)).
  rewrite (drop_app_length' (take j l ++ [x])).
  - apply take_drop.
  - rewrite length_app, length_take. simpl. lia.
Qed.

Lemma split_shape (s : jsstring) :
  ∃ seg segs,
    split 47%N s = seg :: segs ∧ (47%N ∉ seg)
    ∧ (match last segs with
       | None => s = seg
       | Some name => (47%N ∉ name) ∧ ∃ prefix, s = prefix ++ 47%N :: name
       end).
Proof.
  induction s as [|c s (seg & segs & Hsplit & Hseg & Hlast)]; simpl.
  - exists [], []. split; [done|]. split; [apply not_elem_of_nil|done].
  - rewrite Hsplit. destruct (N.eqb_spec c 47) as [->|Hc].
    + exists [], (seg :: segs). split; [done|].
      split; [apply not_elem_of_nil|]. rewrite last_cons.
      destruct (last segs) as [name|].
      * destruct Hlast as [Hname [prefix ->]]. split; [done|].
        by exists (47%N :: prefix).
      * subst s. split; [done|]. by exists [].
    + exists (c :: seg), segs. split; [done|].
      split; [by apply not_elem_of_cons|].
      destruct (last segs) as [name|]; [|by subst s].
      destruct Hlast as [Hname [prefix ->]]. split; [done|].
      by exists (c :: prefix).
Qed.

(** The filename segment of a key is what follows its last [/], the
    whole key when it has none. *)
Lemma filename_after_last_slash (key : jsstring) :
  (47%N ∉ filename key)
  ∧ (key = filename key ∨ ∃ prefix, key = prefix ++ 47%N :: filename key).
Proof.
  destruct (split_shape key) as (seg & segs & Hsplit & Hseg & Hlast).
  unfold filename. rewrite Hsplit, last_cons.
  destruct (last segs) as [name|]; simpl.
  - destruct Hlast as [Hname Hprefix]. auto.
  - auto.
Qed.

(** ** C1: the drag-end handler *)

(** C1.  For every PhotoOrder list [l] and every completed drag from
    index [i] to index [j], both in range: when [i ≠ j] the handler
    returns, PhotoOrder becomes [l] with the element at [i] removed and
    put back at [j] (it is found at [j], and removing it there gives
    what removing it at [i] gave, so the other elements keep their
    order), and the dirty flag is set; when [i = j] the state, PhotoOrder
    and the dirty flag with it, is left as it was and nothing is emitted. *)
Theorem onEnd_moves_entry (s : state) (l : list jsval) (i j : nat) :
  photoOrder s = VArr l → (i < length l)%nat → (j < length l)%nat →
  (i ≠ j →
     ∃ x l',
       l !! i = Some x
       ∧ result_of (onEnd (Z.of_nat i) (Z.of_nat j) s) = Return tt
       ∧ photoOrder (state_of (onEnd (Z.of_nat i) (Z.of_nat j) s)) = VArr l'
       ∧ l' = take j (delete i l) ++ x :: drop j (delete i l)
       ∧ l' !! j = Some x
       ∧ delete j l' = delete i l
       ∧ hasUnsavedChanges (state_of (onEnd (Z.of_nat i) (Z.of_nat j) s)) = true)
  ∧ (i = j → onEnd (Z.of_nat i) (Z.of_nat j) s = (s, [], Return tt)).
Proof.
  intros Hpo Hi Hj. split.
  - intros Hij. destruct (lookup_lt_is_Some_2 l i Hi) as [x Hx].
    assert (Hlen : (j ≤ length (delete i l))%nat).
    { rewrite length_delete by eauto. lia. }
    exists x, (take j (delete i l) ++ x :: drop j (delete i l)).
    unfold onEnd. rewrite bool_decide_true by lia.
    unfold state_of, result_of, mbind, M_bind, gets, lift. rewrite Hpo. cbn.
    rewrite (splice_remove_one l i x Hx). cbn.
    rewrite (splice_insert_one (delete i l) j x Hlen). cbn.
    repeat split; auto using lookup_reinserted, delete_reinserted.
  - intros ->. unfold onEnd. by rewrite bool_decide_false by lia.
Qed.

(** A drag of the first of three photos to the last place. *)
Lemma onEnd_moves_entry_witness :
  (0 ≠ 2)%nat
  ∧ ∃ x l',
      three_photos !! 0%nat = Some x
      ∧ result_of (onEnd 0 2 (reviewing three_photos)) = Return tt
      ∧ photoOrder (state_of (onEnd 0 2 (reviewing three_photos))) = VArr l'
      ∧ l' = take 2 (delete 0%nat three_photos) ++ x :: drop 2 (delete 0%nat three_photos)
      ∧ l' !! 2%nat = Some x
      ∧ delete 2%nat l' = delete 0%nat three_photos
      ∧ hasUnsavedChanges (state_of (onEnd 0 2 (reviewing three_photos))) = true.
Proof.
  split; [lia|].
  apply (proj1 (onEnd_moves_entry (reviewing three_photos) three_photos 0 2
                  eq_refl (Nat.lt_0_succ 2) (Nat.lt_succ_diag_r 2))).
  lia.
Defined.

Example onEnd_first_to_last :
  photoOrder (state_of (onEnd 0 2 (reviewing three_photos)))
  = VArr [VStr (lit "b/02.jpg"); VStr (lit "c/03.jpg"); VStr (lit "a/01.jpg")].
Proof. reflexivity. Qed.

(** ** C2: saving *)

(** Unfolds the monad and a straight-line function down to its result. *)
Ltac mrun :=
  cbv beta iota delta
    [state_of trace_of result_of fst snd
     mbind mret fmap M_bind M_ret M_fmap outcome_bind outcome_ret
     throw lift gets modify emit try_catch fetch settled json
     showLoading showError updateDisplayNumbers markAsChanged];
  cbn.

(** The ways [server_error] makes its error from the parsed body [v]. *)
Ltac error_cases v :=
  let t := fresh "t" in
  destruct (get_prop v (lit "error")) as [t|]; mrun;
  [destruct (truthy t); mrun; [destruct (string_conversion t); mrun|]|].

Lemma saveOrder_returns (url : jsstring) (r : fetch_result) (s : state) :
  result_of (saveOrder url r s) = Return tt.
Proof.
  unfold saveOrder, saveOrder_begin, saveOrder_resume, server_error.
  destruct r as [|status [v|]]; mrun; try done.
  - destruct (ok status); mrun.
    + by destruct (spread (photoOrder s)).
    + destruct (get_prop v _) as [t|]; mrun; [|done].
      destruct (truthy t); mrun; [|done].
      by destruct (string_conversion t).
  - by destruct (ok status).
Qed.

Lemma saveOrder_accepted (url : jsstring) (r : fetch_result) (s : state)
    (l : list jsval) :
  accepted r = true → photoOrder s = VArr l →
  hasUnsavedChanges (state_of (saveOrder url r s)) = false
  ∧ originalOrder (state_of (saveOrder url r s)) = l
  ∧ photoOrder (state_of (saveOrder url r s)) = VArr l.
Proof.
  intros Hr Hpo. destruct r as [|status [v|]]; try done. simpl in Hr.
  unfold saveOrder, saveOrder_begin, saveOrder_resume.
  mrun. rewrite Hr. mrun. rewrite Hpo. by mrun.
Qed.

Lemma saveOrder_refused (url : jsstring) (r : fetch_result) (s : state) :
  accepted r = false →
  hasUnsavedChanges (state_of (saveOrder url r s)) = hasUnsavedChanges s
  ∧ photoOrder (state_of (saveOrder url r s)) = photoOrder s
  ∧ originalOrder (state_of (saveOrder url r s)) = originalOrder s
  ∧ saveOrderBtn_disabled (state_of (saveOrder url r s)) = false.
Proof.
  intros Hr.
  unfold saveOrder, saveOrder_begin, saveOrder_resume, server_error.
  destruct r as [|status [v|]]; simpl in Hr; mrun; try done.
  - rewrite Hr. mrun. destruct (get_prop v _) as [t|]; mrun; [|done].
    destruct (truthy t); mrun; [|done].
    by destruct (string_conversion t).
  - by destruct (ok status).
Qed.

(** C2, as the code has it.  [saveOrder] always returns.  When the save
    call is answered by a 2xx response whose body parses, and PhotoOrder
    is a list, the dirty flag is false afterwards and OriginalOrder is an
    equal-valued copy of PhotoOrder, which is unchanged.  On any other
    answer (a rejected call, a response outside 2xx, or a 2xx response
    whose body does not parse) the dirty flag, PhotoOrder and
    OriginalOrder are unchanged and the save control is enabled again. *)
Theorem saveOrder_outcome (url : jsstring) (r : fetch_result) (s : state) :
  result_of (saveOrder url r s) = Return tt
  ∧ (accepted r = true → ∀ l, photoOrder s = VArr l →
       hasUnsavedChanges (state_of (saveOrder url r s)) = false
       ∧ originalOrder (state_of (saveOrder url r s)) = l
       ∧ photoOrder (state_of (saveOrder url r s)) = VArr l)
  ∧ (accepted r = false →
       hasUnsavedChanges (state_of (saveOrder url r s)) = hasUnsavedChanges s
       ∧ photoOrder (state_of (saveOrder url r s)) = photoOrder s
       ∧ originalOrder (state_of (saveOrder url r s)) = originalOrder s
       ∧ saveOrderBtn_disabled (state_of (saveOrder url r s)) = false).
Proof.
  split; [apply saveOrder_returns|].
  split; eauto using saveOrder_accepted, saveOrder_refused.
Qed.

(** A save answered 200 with a JSON body, and one answered 500, both
    after the drag of [moved]. *)
Lemma saveOrder_outcome_witness :
  (accepted (Response 200 (Some (VObj []))) = true
   ∧ hasUnsavedChanges
       (state_of (saveOrder CallBased.SAVE_ORDER_LAMBDA_URL
                    (Response 200 (Some (VObj []))) moved)) = false
   ∧ originalOrder
       (state_of (saveOrder CallBased.SAVE_ORDER_LAMBDA_URL
                    (Response 200 (Some (VObj []))) moved))
     = [VStr (lit "b/02.jpg"); VStr (lit "c/03.jpg"); VStr (lit "a/01.jpg")])
  ∧ (accepted (Response 500 None) = false
     ∧ hasUnsavedChanges
         (state_of (saveOrder CallBased.SAVE_ORDER_LAMBDA_URL
                      (Response 500 None) moved)) = true
     ∧ saveOrderBtn_disabled
         (state_of (saveOrder CallBased.SAVE_ORDER_LAMBDA_URL
                      (Response 500 None) moved)) = false).
Proof.
  split.
  - split; [reflexivity|].
    pose proof (proj1 (proj2 (saveOrder_outcome CallBased.SAVE_ORDER_LAMBDA_URL
      (Response 200 (Some (VObj []))) moved)) eq_refl _ eq_refl) as (H1 & H2 & _).
    exact (conj H1 H2).
  - split; [reflexivity|].
    pose proof (proj2 (proj2 (saveOrder_outcome CallBased.SAVE_ORDER_LAMBDA_URL
      (Response 500 None) moved)) eq_refl) as (H1 & _ & _ & H4).
    exact (conj H1 H4).
Defined.

(** The save call is answered 204 with no body, a 2xx response: the
    script takes the failure path, so the dirty flag stays set and
    OriginalOrder keeps the order from before the drag. *)
Lemma saveOrder_2xx_unparsed_counterexample :
  ok 204 = true
  ∧ photoOrder moved
    = VArr [VStr (lit "b/02.jpg"); VStr (lit "c/03.jpg"); VStr (lit "a/01.jpg")]
  ∧ hasUnsavedChanges
      (state_of (saveOrder CallBased.SAVE_ORDER_LAMBDA_URL (Response 204 None) moved))
    = true
  ∧ originalOrder
      (state_of (saveOrder CallBased.SAVE_ORDER_LAMBDA_URL (Response 204 None) moved))
    = [VStr (lit "a/01.jpg"); VStr (lit "b/02.jpg"); VStr (lit "c/03.jpg")]
  ∧ last (trace_of (saveOrder CallBased.SAVE_ORDER_LAMBDA_URL (Response 204 None) moved))
    = Some (Alert (ErrorMessage (lit "Failed to save order: ") SyntaxError)).
Proof. repeat split. Qed.

(** ** What a stretch of code leaves alone *)

Section Respects.
Context (R : relation state) `{!PreOrder R} (T : effect → Prop).

Lemma respects_ret {A} (a : A) : respects R T (mret a).
Proof. intros s. by split. Qed.

Lemma respects_throw {A} (e : exn) : respects R T (throw e : M A).
Proof. intros s. by split. Qed.

Lemma respects_lift {A} (r : outcome A) : respects R T (lift r).
Proof. intros s. by split. Qed.

Lemma respects_gets {A} (f : state → A) : respects R T (gets f).
Proof. intros s. by split. Qed.

Lemma respects_emit (e : effect) : T e → respects R T (emit e).
Proof. intros He s. split; [done|]. by repeat constructor. Qed.

Lemma respects_modify (f : state → state) :
  (∀ s, R s (f s)) → respects R T (modify f).
Proof. intros Hf s. split; [apply Hf|constructor]. Qed.

Lemma respects_bind {A B} (m : M A) (k : A → M B) :
  respects R T m → (∀ a, respects R T (k a)) → respects R T (m ≫= k).
Proof.
  intros Hm Hk s. specialize (Hm s).
  unfold mbind, M_bind, state_of, trace_of in *.
  destruct (m s) as [[s1 t1] [a|e]]; simpl in *; [|done].
  specialize (Hk a s1). unfold state_of, trace_of in Hk.
  destruct (k a s1) as [[s2 t2] r]; simpl in *.
  destruct Hm, Hk. split; [by etrans|by apply Forall_app].
Qed.

Lemma respects_fmap {A B} (f : A → B) (m : M A) :
  respects R T m → respects R T (f <$> m).
Proof.
  intros Hm s. specialize (Hm s).
  unfold fmap, M_fmap, state_of, trace_of in *.
  by destruct (m s) as [[s1 t1] [a|e]].
Qed.

Lemma respects_try_catch {A} (m : M A) (handler : exn → M A) :
  respects R T m → (∀ e, respects R T (handler e)) →
  respects R T (try_catch m handler).
Proof.
  intros Hm Hh s. specialize (Hm s).
  unfold try_catch, state_of, trace_of in *.
  destruct (m s) as [[s1 t1] [a|e]]; simpl in *; [done|].
  specialize (Hh e s1). unfold state_of, trace_of in Hh.
  destruct (handler e s1) as [[s2 t2] r]; simpl in *.
  destruct Hm, Hh. split; [by etrans|by apply Forall_app].
Qed.

Lemma respects_forEach {A} (body : A → nat → M unit) (i : nat) (l : list A) :
  (∀ x n, respects R T (body x n)) → respects R T (forEach body i l).
Proof.
  intros Hbody. revert i.
  induction l as [|x l IH]; intros i; simpl.
  - apply respects_ret.
  - apply respects_bind; auto.
Qed.

Lemma respects_if {A} (b : bool) (m1 m2 : M A) :
  respects R T m1 → respects R T m2 → respects R T (if b then m1 else m2).
Proof. by destruct b. Qed.
End Respects.

(** Breaks a function down to its primitive steps. *)
Ltac frame :=
  repeat first
    [ progress intros
    | apply respects_bind
    | apply respects_try_catch
    | apply respects_forEach
    | apply respects_fmap
    | apply respects_if
    | apply respects_ret
    | apply respects_throw
    | apply respects_lift
    | apply respects_gets
    | match goal with
      | |- PreOrder _ => apply _
      | |- respects _ _ (let '(_, _) := ?p in _) => destruct p
      | |- respects _ _ (match ?o with Some _ => _ | None => _ end) => destruct o
      | |- respects _ _ (if ?b then _ else _) => destruct b
      end ];
  try (apply respects_emit; first [solve [auto] | done | apply _]);
  try (apply respects_modify; first [solve [intros; hnf; done] | apply _]).

(** [renderGallery] writes to the page only. *)
Lemma renderGallery_respects (T : effect → Prop) :
  T ClearGallery → T ShowGallery → (∀ item, T (AppendPhotoItem item)) →
  respects unchanged T renderGallery.
Proof.
  intros H1 H2 H3. unfold renderGallery, unchanged. frame.
Qed.

(** On an array of strings [renderGallery] returns. *)
Lemma forEach_strings (i : nat) (keys : list jsstring) (s : state) :
  result_of
    (forEach (λ s3Key index,
        key ← lift (as_string s3Key);
        emit (AppendPhotoItem
                (PhotoItem key index (padStart0 3 (String_of_nat (index + 1)))
                   (extractAgeBucket (filename key)))))
       i (VStr <$> keys) s) = Return tt.
Proof.
  revert i s. induction keys as [|k keys IH]; intros i s; [done|].
  simpl. specialize (IH (S i) s). revert IH.
  unfold result_of, mbind, M_bind, lift, emit. simpl.
  by destruct (forEach _ _ _ s) as [[s1 t1] r1]; simpl; intros ->.
Qed.

Lemma renderGallery_returns (keys : list jsstring) (s : state) :
  photoOrder s = VArr (VStr <$> keys) →
  result_of (renderGallery s) = Return tt.
Proof.
  intros Hpo. unfold renderGallery.
  pose proof (forEach_strings 0 keys s) as H. revert H.
  unfold result_of, mbind, M_bind, gets, lift, emit. rewrite Hpo. simpl.
  by destruct (forEach _ _ _ s) as [[s1 t1] r1]; simpl; intros ->.
Qed.

(** ** Sorting with a consistent comparator *)

Section SortProperties.
Context {A : Type} (comparefn : A → A → Z) (Hc : consistent comparefn).

Lemma after_flip a b : 0 < comparefn a b → comparefn b a < 0.
Proof.
  intros Hab. destruct (Z.lt_trichotomy (comparefn b a) 0) as [|[Hba|Hba]]; [done|..].
  - apply (consistent_sym _ Hc) in Hba. lia.
  - pose proof (consistent_gt _ Hc a b a Hab ltac:(lia)) as H.
    rewrite (consistent_refl _ Hc) in H. lia.
Qed.

Lemma before_flip a b : comparefn a b < 0 → 0 < comparefn b a.
Proof.
  intros Hab. destruct (Z.lt_trichotomy (comparefn b a) 0) as [Hba|[Hba|Hba]]; [..|lia].
  - pose proof (consistent_lt _ Hc a b a Hab Hba) as H.
    rewrite (consistent_refl _ Hc) in H. lia.
  - apply (consistent_sym _ Hc) in Hba. lia.
Qed.

Lemma before_equiv a b c : comparefn a b < 0 → comparefn b c = 0 → comparefn a c < 0.
Proof.
  intros Hab Hbc.
  destruct (Z.lt_trichotomy (comparefn a c) 0) as [|[Hac|Hac]]; [done|..].
  - pose proof (consistent_eq _ Hc a c b Hac (consistent_sym _ Hc _ _ Hbc)). lia.
  - pose proof (after_flip _ _ Hac) as Hca.
    pose proof (consistent_lt _ Hc c a b Hca Hab).
    pose proof (consistent_sym _ Hc _ _ Hbc). lia.
Qed.

Lemma equiv_before a b c : comparefn a b = 0 → comparefn b c < 0 → comparefn a c < 0.
Proof.
  intros Hab Hbc.
  destruct (Z.lt_trichotomy (comparefn a c) 0) as [|[Hac|Hac]]; [done|..].
  - pose proof (consistent_eq _ Hc b a c (consistent_sym _ Hc _ _ Hab) Hac). lia.
  - pose proof (after_flip _ _ Hac) as Hca.
    pose proof (consistent_lt _ Hc b c a Hbc Hca) as Hba.
    pose proof (consistent_sym _ Hc _ _ Hab). lia.
Qed.

Lemma not_after_trans : Transitive (not_after comparefn).
Proof.
  intros a b c Hab Hbc. unfold not_after in *.
  destruct (Z.eq_dec (comparefn a b) 0) as [Hab0|]; 
    destruct (Z.eq_dec (comparefn b c) 0) as [Hbc0|].
  - rewrite (consistent_eq _ Hc a b c); lia.
  - pose proof (equiv_before a b c Hab0 ltac:(lia)). lia.
  - pose proof (before_equiv a b c ltac:(lia) Hbc0). lia.
  - pose proof (consistent_lt _ Hc a b c ltac:(lia) ltac:(lia)). lia.
Qed.

Lemma sort_insert_permutation x l : sort_insert comparefn x l ≡ₚ x :: l.
Proof.
  induction l as [|y l IH]; simpl; [done|].
  destruct (comparefn x y <=? 0); [done|].
  rewrite IH. apply Permutation_swap.
Qed.

Lemma sort_permutation l : sort comparefn l ≡ₚ l.
Proof.
  induction l as [|x l IH]; simpl; [done|].
  by rewrite sort_insert_permutation, IH.
Qed.

Lemma sort_insert_sorted x l :
  StronglySorted (not_after comparefn) l → StronglySorted (not_after comparefn) (sort_insert comparefn x l).
Proof.
  induction 1 as [|y l Hl IH Hy]; simpl.
  - by repeat constructor.
  - destruct (Z.leb_spec (comparefn x y) 0) as [Hxy|Hxy].
    + constructor; [by constructor|].
      constructor; [done|].
      eapply Forall_impl; [exact Hy|]. intros z Hz.
      by apply (not_after_trans x y z).
    + constructor; [done|].
      rewrite sort_insert_permutation. constructor; [|done].
      pose proof (after_flip x y ltac:(lia)). unfold not_after. lia.
Qed.

(** The result is in ascending order. *)
Lemma sort_sorted l : StronglySorted (not_after comparefn) (sort comparefn l).
Proof.
  induction l as [|x l IH]; simpl; [constructor|].
  by apply sort_insert_sorted.
Qed.

Lemma sort_insert_stable (k x : A) l :
  filter (λ y, comparefn y k = 0) (sort_insert comparefn x l)
  = filter (λ y, comparefn y k = 0) (x :: l).
Proof.
  induction l as [|y l IH]; simpl; [done|].
  destruct (Z.leb_spec (comparefn x y) 0) as [Hxy|Hxy]; [done|].
  rewrite !filter_cons in *.
  destruct (decide (comparefn y k = 0)) as [Hy|Hy];
    destruct (decide (comparefn x k = 0)) as [Hx|Hx]; try by rewrite IH.
  pose proof (consistent_eq _ Hc x k y Hx (consistent_sym _ Hc _ _ Hy)). lia.
Qed.

(** The sort is stable: the elements equivalent to any given one come
    out in the order they went in. *)
Lemma sort_stable (k : A) l :
  filter (λ y, comparefn y k = 0) (sort comparefn l)
  = filter (λ y, comparefn y k = 0) l.
Proof.
  induction l as [|x l IH]; simpl; [done|].
  rewrite sort_insert_stable, !filter_cons. by rewrite IH.
Qed.
Lemma sorted_head_equiv x y l1 l2 :
  StronglySorted (not_after comparefn) (x :: l1) →
  StronglySorted (not_after comparefn) (y :: l2) →
  x :: l1 ≡ₚ y :: l2 → comparefn x y = 0.
Proof.
  intros H1 H2 Hp.
  apply StronglySorted_inv in H1 as [_ H1]. apply StronglySorted_inv in H2 as [_ H2].
  rewrite Forall_forall in H1, H2. unfold not_after in *.
  assert (Hxy : comparefn x y ≤ 0).
  { assert (y ∈ x :: l1) as [->|Hy]%elem_of_cons by (rewrite Hp; left).
    - by rewrite (consistent_refl _ Hc).
    - by apply H1. }
  assert (Hyx : comparefn y x ≤ 0).
  { assert (x ∈ y :: l2) as [->|Hx]%elem_of_cons by (rewrite <- Hp; left).
    - by rewrite (consistent_refl _ Hc).
    - by apply H2. }
  destruct (Z.eq_dec (comparefn x y) 0) as [|Hne]; [done|].
  pose proof (before_flip x y ltac:(lia)). lia.
Qed.

(** The stable sorted arrangement is the only one: a sorted permutation
    of [l] that keeps equivalent elements in their order is [sort l]. *)
Lemma sorted_stable_unique l1 l2 :
  StronglySorted (not_after comparefn) l1 →
  StronglySorted (not_after comparefn) l2 →
  l1 ≡ₚ l2 →
  (∀ k, filter (λ y, comparefn y k = 0) l1 = filter (λ y, comparefn y k = 0) l2) →
  l1 = l2.
Proof.
  revert l2. induction l1 as [|x l1 IH]; intros [|y l2] H1 H2 Hp Hf.
  - done.
  - by apply Permutation_nil_cons in Hp.
  - symmetry in Hp. by apply Permutation_nil_cons in Hp.
  - pose proof (sorted_head_equiv x y l1 l2 H1 H2 Hp) as Hxy.
    pose proof (Hf x) as Hx. rewrite !filter_cons in Hx.
    rewrite decide_True in Hx by apply (consistent_refl _ Hc).
    rewrite decide_True in Hx by by apply (consistent_sym _ Hc).
    injection Hx as <- _.
    f_equal. apply IH.
    + by apply StronglySorted_inv in H1 as [? _].
    + by apply StronglySorted_inv in H2 as [? _].
    + by apply (inj (cons x)).
    + intros k. specialize (Hf k). rewrite !filter_cons in Hf.
      destruct (decide (comparefn x k = 0)); [by injection Hf|done].
Qed.

Lemma sort_unique l l' :
  StronglySorted (not_after comparefn) l' → l' ≡ₚ l →
  (∀ k, filter (λ y, comparefn y k = 0) l' = filter (λ y, comparefn y k = 0) l) →
  l' = sort comparefn l.
Proof.
  intros Hsorted Hperm Hstable.
  apply sorted_stable_unique; [done|apply sort_sorted|..].
  - by rewrite sort_permutation.
  - intros k. by rewrite sort_stable.
Qed.
End SortProperties.

Lemma compare_code_units_consistent : consistent compare_code_units.
Proof.
  split.
  - induction a as [|x a IH]; simpl; [done|]. by rewrite N.ltb_irrefl.
  - induction a as [|x a IH]; intros [|y b]; simpl; try done.
    destruct (N.ltb_spec x y), (N.ltb_spec y x); try done; try lia. auto.
  - induction a as [|x a IH]; intros [|y b] [|z c]; simpl; try done.
    destruct (N.ltb_spec x y), (N.ltb_spec y x), (N.ltb_spec y z),
      (N.ltb_spec z y), (N.ltb_spec x z), (N.ltb_spec z x);
      try done; try lia; eauto.
  - induction a as [|x a IH]; intros [|y b] [|z c]; simpl; try done.
    destruct (N.ltb_spec x y), (N.ltb_spec y x), (N.ltb_spec y z),
      (N.ltb_spec z y), (N.ltb_spec x z), (N.ltb_spec z x);
      try done; try lia; eauto.
  - induction a as [|x a IH]; intros [|y b] [|z c]; simpl; try done.
    destruct (N.ltb_spec x y), (N.ltb_spec y x), (N.ltb_spec y z),
      (N.ltb_spec z y), (N.ltb_spec x z), (N.ltb_spec z x);
      try done; try lia; eauto.
Qed.

Lemma by_filename_consistent (localeCompare : jsstring → jsstring → Z) :
  consistent localeCompare → consistent (by_filename localeCompare).
Proof.
  intros [H1 H2 H3 H4 H5]. split; unfold by_filename; eauto.
Qed.

(** ** C3: the order derived from a manifest *)

Lemma keep_entry_record (entry : jsval) :
  manifest_record entry →
  (keep_entry entry = Return false ∧ reviewable_key entry = None)
  ∨ ∃ key, keep_entry entry = Return true
           ∧ reviewable_key entry = Some key
           ∧ get_prop entry (lit "final_key") = Return (VStr key).
Proof.
  intros (ms & -> & Hms). unfold keep_entry, reviewable_key, get_prop.
  destruct (member (lit "final_key") ms) as [v|] eqn:Hv; [|by left].
  cbn. destruct (truthy v) eqn:Htruthy.
  - destruct (Hms v eq_refl Htruthy) as [key ->]. cbn.
    simpl in Htruthy. apply negb_true_iff, bool_decide_eq_false in Htruthy.
    rewrite (bool_decide_true (key ≠ [])) by done. simpl.
    destruct (endsWith key _); cbn; [by left|right; eauto].
  - left. split; [done|].
    destruct v as [| | | |key| |]; try done.
    simpl in Htruthy. apply negb_false_iff, bool_decide_eq_true in Htruthy.
    by rewrite (bool_decide_false (key ≠ [])) by auto.
Qed.

Lemma mapM_as_string (keys : list jsstring) :
  mapM as_string (VStr <$> keys) = Return keys.
Proof.
  induction keys as [|k keys IH]; [done|].
  rewrite fmap_cons. cbn [mapM]. by rewrite IH.
Qed.

Lemma reviewable_keys_cons (entry : jsval) (manifest : list jsval) :
  reviewable_keys (entry :: manifest)
  = match reviewable_key entry with
    | Some key => key :: reviewable_keys manifest
    | None => reviewable_keys manifest
    end.
Proof. done. Qed.

Lemma filter_map_records (manifest : list jsval) :
  Forall manifest_record manifest →
  ∃ selected,
    filterM keep_entry manifest = Return selected
    ∧ mapM (λ entry, get_prop entry (lit "final_key")) selected
      = Return (VStr <$> reviewable_keys manifest).
Proof.
  induction 1 as [|entry manifest Hentry _ (selected & Hsel & Hmap)].
  - by exists [].
  - rewrite reviewable_keys_cons. cbn [filterM].
    destruct (keep_entry_record entry Hentry)
      as [[Hk Hr]|(key & Hk & Hr & Hg)]; rewrite Hk, Hr, Hsel.
    + by exists selected.
    + exists (entry :: selected). split; [done|].
      rewrite fmap_cons. cbn [mapM]. by rewrite Hg, Hmap.
Qed.

(** On a manifest of records the script's filter, map and sort return,
    and give the reviewable keys sorted by filename. *)
Lemma photoEntries_records (localeCompare : jsstring → jsstring → Z)
    (manifest : list jsval) :
  Forall manifest_record manifest →
  photoEntries localeCompare manifest
  = Return (sort (by_filename localeCompare) (reviewable_keys manifest)).
Proof.
  intros (selected & Hsel & Hmap)%filter_map_records.
  unfold photoEntries. rewrite Hsel. cbn [mbind outcome_bind].
  rewrite Hmap. cbn [mbind outcome_bind]. by rewrite mapM_as_string.
Qed.

Lemma renderGallery_strings (keys : list jsstring) (s : state) :
  photoOrder s = VArr (VStr <$> keys) →
  ∃ t, renderGallery s = (s, t, Return tt).
Proof.
  intros Hpo.
  pose proof (renderGallery_returns keys s Hpo) as Hr.
  destruct (renderGallery_respects (λ _, True) I I (λ _, I) s) as [Hs _].
  unfold state_of, result_of, unchanged in *.
  destruct (renderGallery s) as [[s1 t1] r]. simpl in *. subst. eauto.
Qed.

(** [loadPhotos_finish] on a list of strings: it returns, having
    snapshotted OriginalOrder, attached the drag handler and disabled
    the save control. *)
Lemma loadPhotos_finish_strings (keys : list jsstring) (s : state) :
  photoOrder s = VArr (VStr <$> keys) →
  ∃ t,
    loadPhotos_finish s
    = (set_disabled saveOrderBtn true
         (set_sortable true (set_originalOrder (VStr <$> keys) s)),
       t, Return tt).
Proof.
  intros Hpo. unfold loadPhotos_finish, initializeSortable.
  destruct (renderGallery_strings keys (set_originalOrder (VStr <$> keys) s) Hpo)
    as [t Ht].
  unfold mbind at 1 2 3. unfold M_bind, gets at 1, lift at 1, modify at 1.
  rewrite Hpo. cbn [spread].
  unfold mbind at 1. unfold M_bind. rewrite Ht.
  mrun. rewrite Hpo. mrun.
  destruct (bool_decide _); mrun; eauto.
Qed.

Lemma run_bind {A B} (m : M A) (k : A → M B) (s : state) :
  (m ≫= k) s
  = match m s with
    | (s1, t1, Return a) =>
        match k a s1 with
        | (s2, t2, r) => (s2, t1 ++ t2, r)
        end
    | (s1, t1, Throw e) => (s1, t1, Throw e)
    end.
Proof. done. Qed.

Lemma loadPhotos_begin_run (s : state) :
  loadPhotos_begin s
  = (s,
     [ShowLoading true; Fetch (Request GET (customOrderUrl (uid s)) None)],
     Return (Request GET (customOrderUrl (uid s)) None)).
Proof. done. Qed.

(** [loadExistingOrder] never throws, leaves the state alone and writes
    to the console only. *)
Lemma loadExistingOrder_resume_total (r : fetch_result) (s : state) :
  ∃ v t, loadExistingOrder_resume r s = (s, t, Return v)
         ∧ Forall (λ e, ∃ text, e = Console text) t.
Proof.
  unfold loadExistingOrder_resume.
  destruct r as [|status [data|]]; mrun.
  - eexists _, _. split; [done|]. repeat constructor. eauto.
  - destruct (ok status); mrun.
    + destruct (get_prop data (lit "updated_at")) as [u|] eqn:H1; mrun.
      * destruct (string_conversion u) eqn:H3; mrun.
        -- destruct (get_prop data (lit "order")) eqn:H2; mrun;
             eexists _, _; (split; [done|]); repeat constructor; eauto.
        -- eexists _, _. split; [done|]. repeat constructor. eauto.
      * eexists _, _. split; [done|]. repeat constructor. eauto.
    + eexists _, _. split; [done|]. constructor.
  - destruct (ok status); mrun.
    + eexists _, _. split; [done|]. repeat constructor. eauto.
    + eexists _, _. split; [done|]. constructor.
Qed.

(** Without a custom order, [loadPhotos] goes on to read the manifest. *)
Lemma loadPhotos_afterCustomOrder_absent (r : fetch_result) (s : state)
    (v : jsval) (t : list effect) :
  loadExistingOrder_resume r s = (s, t, Return v) → truthy v = false →
  loadPhotos_afterCustomOrder r s
  = (s,
     t ++ [Console (lit "[FETCH] Loading manifest");
           Fetch (Request GET (manifestUrl (uid s)) None)],
     Return (Some (Request GET (manifestUrl (uid s)) None))).
Proof.
  intros Hr Hv. unfold loadPhotos_afterCustomOrder.
  unfold mbind at 1. unfold M_bind. rewrite Hr, Hv. by mrun.
Qed.

(** With a custom order, [loadPhotos] takes it and finishes. *)
Lemma loadPhotos_afterCustomOrder_present (r : fetch_result) (s : state)
    (v : jsval) (t : list effect) :
  loadExistingOrder_resume r s = (s, t, Return v) → truthy v = true →
  length_conversion v = Return tt →
  loadPhotos_afterCustomOrder r s
  = (state_of (loadPhotos_finish (set_photoOrder v s)),
     t ++ Console (lit "[CUSTOM ORDER] Found existing order")
       :: trace_of (loadPhotos_finish (set_photoOrder v s)),
     match result_of (loadPhotos_finish (set_photoOrder v s)) with
     | Return _ => Return None
     | Throw e => Throw e
     end).
Proof.
  intros Hr Hv Hlen. unfold loadPhotos_afterCustomOrder.
  unfold mbind at 1. unfold M_bind. rewrite Hr, Hv.
  unfold mbind at 1. unfold M_bind, lift at 1. rewrite Hlen.
  unfold state_of, trace_of, result_of, mbind, M_bind, emit, modify, mret, M_ret.
  destruct (loadPhotos_finish (set_photoOrder v s)) as [[s1 t1] [[]|e]]; simpl;
    by rewrite ?app_nil_r.
Qed.

(** With a custom order whose [length] cannot be written into the log
    entry, [loadPhotos] throws before it takes the order. *)
Lemma loadPhotos_afterCustomOrder_unreadable (r : fetch_result) (s : state)
    (v : jsval) (t : list effect) (e : exn) :
  loadExistingOrder_resume r s = (s, t, Return v) → truthy v = true →
  length_conversion v = Throw e →
  loadPhotos_afterCustomOrder r s = (s, t, Throw e).
Proof.
  intros Hr Hv Hlen. unfold loadPhotos_afterCustomOrder.
  unfold mbind at 1. unfold M_bind. rewrite Hr, Hv.
  unfold mbind at 1. unfold M_bind, lift at 1. rewrite Hlen.
  by rewrite app_nil_r.
Qed.

Lemma loadPhotos_afterManifest_records (localeCompare : jsstring → jsstring → Z)
    (status : Z) (manifest : list jsval) (s : state) :
  ok status = true → Forall manifest_record manifest →
  result_of (loadPhotos_afterManifest localeCompare
               (Response status (Some (VArr manifest))) s) = Return tt
  ∧ photoOrder (state_of (loadPhotos_afterManifest localeCompare
                            (Response status (Some (VArr manifest))) s))
    = VArr (VStr <$> sort (by_filename localeCompare) (reviewable_keys manifest)).
Proof.
  intros Hok Hrecords. unfold loadPhotos_afterManifest.
  pose proof (photoEntries_records localeCompare manifest Hrecords) as Hentries.
  destruct (loadPhotos_finish_strings
              (sort (by_filename localeCompare) (reviewable_keys manifest))
              (set_photoOrder
                 (VArr (VStr <$> sort (by_filename localeCompare)
                                   (reviewable_keys manifest))) s) eq_refl)
    as [t Ht].
  mrun. rewrite Hok. mrun. rewrite Hentries. mrun.
  unfold fmap in Ht. by rewrite Ht.
Qed.

Lemma reviewable_keys_elem (key : jsstring) (manifest : list jsval) :
  key ∈ reviewable_keys manifest
  ↔ ∃ ms, VObj ms ∈ manifest
          ∧ member (lit "final_key") ms = Some (VStr key)
          ∧ key ≠ [] ∧ endsWith key (lit ".ready") = false.
Proof.
  unfold reviewable_keys. rewrite list_elem_of_omap. split.
  - intros (entry & Hin & Hkey). unfold reviewable_key in Hkey.
    destruct entry as [| | | | | |ms]; try done.
    destruct (member _ ms) as [[| | | |k| |]|] eqn:Hm; try done.
    destruct (bool_decide (k ≠ [])) eqn:Hne; [|done].
    destruct (endsWith k _) eqn:Hends; [done|].
    simpl in Hkey. injection Hkey as <-.
    apply bool_decide_eq_true in Hne. eauto.
  - intros (ms & Hin & Hm & Hne & Hends). exists (VObj ms). split; [done|].
    unfold reviewable_key. rewrite Hm, Hends.
    by rewrite (bool_decide_true (key ≠ [])).
Qed.

(** C3.  For every manifest of records, when no custom order exists and
    the manifest read is answered 2xx, [loadPhotos] returns and the
    resolved PhotoOrder is a list of keys which holds, as often as the
    manifest offers it, the [final_key] of each entry whose [final_key]
    is present, non-empty and does not end in [.ready], and nothing
    else; which is in ascending order of the filename segments under
    [localeCompare]; and in which keys of equivalent filename segments
    keep the order of the manifest (the sort is stable).  The filename
    segment of a key is what follows its last [/], the whole key when it
    has none. *)
Theorem manifest_order (localeCompare : jsstring → jsstring → Z)
    (custom : fetch_result) (status : Z) (manifest : list jsval) (s : state) :
  consistent localeCompare →
  (∀ v, result_of (loadExistingOrder_resume custom s) = Return v →
        truthy v = false) →
  ok status = true →
  Forall manifest_record manifest →
  ∃ keys,
    result_of (loadPhotos localeCompare custom
                 (Response status (Some (VArr manifest))) s) = Return tt
    ∧ photoOrder (state_of (loadPhotos localeCompare custom
                              (Response status (Some (VArr manifest))) s))
      = VArr (VStr <$> keys)
    ∧ keys ≡ₚ reviewable_keys manifest
    ∧ (∀ key, key ∈ keys ↔
         ∃ ms, VObj ms ∈ manifest
               ∧ member (lit "final_key") ms = Some (VStr key)
               ∧ key ≠ [] ∧ endsWith key (lit ".ready") = false)
    ∧ StronglySorted
        (λ a b, localeCompare (filename a) (filename b) ≤ 0) keys
    ∧ (∀ k, filter (λ key, localeCompare (filename key) (filename k) = 0) keys
            = filter (λ key, localeCompare (filename key) (filename k) = 0)
                (reviewable_keys manifest))
    ∧ ∀ key,
        (47%N ∉ filename key)
        ∧ (key = filename key ∨ ∃ prefix, key = prefix ++ 47%N :: filename key).
Proof.
  intros Hc Habsent Hok Hrecords.
  pose proof (by_filename_consistent localeCompare Hc) as Hc'.
  exists (sort (by_filename localeCompare) (reviewable_keys manifest)).
  destruct (loadExistingOrder_resume_total custom
              (state_of (loadPhotos_begin s))) as (v & t & Hv & _).
  assert (Hs : state_of (loadPhotos_begin s) = s) by done.
  rewrite Hs in Hv.
  assert (Hfalsy : truthy v = false).
  { apply Habsent. by rewrite Hv. }
  pose proof (loadPhotos_afterCustomOrder_absent custom s v t Hv Hfalsy) as Hafter.
  destruct (loadPhotos_afterManifest_records localeCompare status manifest s
              Hok Hrecords) as [Hret Hpo].
  assert (Hrun :
    result_of (loadPhotos localeCompare custom
                 (Response status (Some (VArr manifest))) s)
    = result_of (loadPhotos_afterManifest localeCompare
                   (Response status (Some (VArr manifest))) s)
    ∧ state_of (loadPhotos localeCompare custom
                  (Response status (Some (VArr manifest))) s)
    = state_of (loadPhotos_afterManifest localeCompare
                  (Response status (Some (VArr manifest))) s)).
  { unfold loadPhotos. rewrite run_bind, loadPhotos_begin_run.
    rewrite run_bind, Hafter.
    unfold state_of, result_of.
    by destruct (loadPhotos_afterManifest _ _ s) as [[s1 t1] r1]. }
  destruct Hrun as [-> ->].
  split; [done|]. split; [done|].
  split; [apply sort_permutation|].
  split; [|split; [|split]].
  - intros key. rewrite <- reviewable_keys_elem.
    by rewrite (sort_permutation (by_filename localeCompare)).
  - apply (sort_sorted (by_filename localeCompare) Hc').
  - intros k. apply (sort_stable (by_filename localeCompare) Hc').
  - apply filename_after_last_slash.
Qed.

Lemma scenario_manifest_records : Forall manifest_record scenario_manifest.
Proof.
  repeat (constructor;
          [eexists; split; [reflexivity|];
           intros v Hv _; vm_compute in Hv; injection Hv as <-; eauto|]).
  constructor.
Qed.

(** The scenario: no custom order (the read is answered 404), the
    manifest of three entries, code-unit order for the locale's. *)
Lemma manifest_order_witness :
  ∃ keys,
    result_of (loadPhotos compare_code_units (Response 404 None)
                 (Response 200 (Some (VArr scenario_manifest))) opened) = Return tt
    ∧ photoOrder (state_of (loadPhotos compare_code_units (Response 404 None)
                              (Response 200 (Some (VArr scenario_manifest))) opened))
      = VArr (VStr <$> keys)
    ∧ keys ≡ₚ reviewable_keys scenario_manifest
    ∧ (∀ key, key ∈ keys ↔
         ∃ ms, VObj ms ∈ scenario_manifest
               ∧ member (lit "final_key") ms = Some (VStr key)
               ∧ key ≠ [] ∧ endsWith key (lit ".ready") = false)
    ∧ StronglySorted
        (λ a b, compare_code_units (filename a) (filename b) ≤ 0) keys
    ∧ (∀ k, filter (λ key, compare_code_units (filename key) (filename k) = 0) keys
            = filter (λ key, compare_code_units (filename key) (filename k) = 0)
                (reviewable_keys scenario_manifest))
    ∧ ∀ key,
        (47%N ∉ filename key)
        ∧ (key = filename key ∨ ∃ prefix, key = prefix ++ 47%N :: filename key).
Proof.
  apply (manifest_order compare_code_units (Response 404 None) 200
           scenario_manifest opened).
  - apply compare_code_units_consistent.
  - intros v Hv. vm_compute in Hv. injection Hv as <-. reflexivity.
  - reflexivity.
  - apply scenario_manifest_records.
Defined.

Example scenario_order :
  photoOrder (state_of (loadPhotos compare_code_units (Response 404 None)
                          (Response 200 (Some (VArr scenario_manifest))) opened))
  = VArr [VStr (lit "a/01-1.jpg"); VStr (lit "b/02-1.jpg")].
Proof. reflexivity. Qed.

(** ** C4, C5, C10: the custom order *)

#[global] Instance same_photoOrder_preorder : PreOrder same_photoOrder.
Proof.
  split; [by intros s|]. intros s1 s2 s3 H12 H23. unfold same_photoOrder in *.
  congruence.
Qed.

(** [loadPhotos_finish] keeps PhotoOrder and issues no call. *)
Lemma loadPhotos_finish_respects :
  respects same_photoOrder (λ e, is_fetch e = false) loadPhotos_finish.
Proof.
  unfold loadPhotos_finish, renderGallery, initializeSortable, showLoading.
  frame.
Qed.

Lemma loadExistingOrder_resume_order (status : Z) (data updated_at : jsval)
    (order : jsval) (s : state) :
  ok status = true →
  get_prop data (lit "updated_at") = Return updated_at →
  string_conversion updated_at = Return tt →
  get_prop data (lit "order") = Return order →
  loadExistingOrder_resume (Response status (Some data)) s
  = (s, [Console (lit "[CUSTOM ORDER] Found order from")], Return order).
Proof.
  intros Hok Hupdated Hconv Horder. unfold loadExistingOrder_resume. mrun.
  rewrite Hok. mrun. rewrite Hupdated. mrun. rewrite Hconv. mrun.
  by rewrite Horder.
Qed.

(** When the conversion of [updated_at] throws, the [catch] of
    [loadExistingOrder] turns the error into [null]. *)
Lemma loadExistingOrder_resume_unreadable (status : Z) (data updated_at : jsval)
    (e : exn) (s : state) :
  ok status = true →
  get_prop data (lit "updated_at") = Return updated_at →
  string_conversion updated_at = Throw e →
  loadExistingOrder_resume (Response status (Some data)) s
  = (s, [Console (lit "[CUSTOM ORDER] No existing order found")], Return VNull).
Proof.
  intros Hok Hupdated Hconv. unfold loadExistingOrder_resume. mrun.
  rewrite Hok. mrun. rewrite Hupdated. mrun. by rewrite Hconv.
Qed.


(** [loadPhotos] when [loadExistingOrder] yields a list. *)
Lemma loadPhotos_with_custom_order (localeCompare : jsstring → jsstring → Z)
    (r manifest : fetch_result) (order : list jsval) (s : state) :
  result_of (loadExistingOrder_resume r s) = Return (VArr order) →
  ∃ t,
    Forall (λ e, ∃ text, e = Console text) t
    ∧ loadPhotos localeCompare r manifest s
      = (state_of (loadPhotos_finish (set_photoOrder (VArr order) s)),
         ShowLoading true :: Fetch (Request GET (customOrderUrl (uid s)) None)
           :: t ++ Console (lit "[CUSTOM ORDER] Found existing order")
           :: trace_of (loadPhotos_finish (set_photoOrder (VArr order) s)),
         result_of (loadPhotos_finish (set_photoOrder (VArr order) s))).
Proof.
  intros Horder.
  destruct (loadExistingOrder_resume_total r s) as (v & t & Hv & Ht).
  rewrite Hv in Horder. injection Horder as ->.
  pose proof (loadPhotos_afterCustomOrder_present r s _ t Hv eq_refl eq_refl)
    as Hafter.
  exists t. split; [done|].
  unfold loadPhotos. rewrite run_bind, loadPhotos_begin_run.
  rewrite run_bind, Hafter.
  unfold state_of, trace_of, result_of.
  destruct (loadPhotos_finish _) as [[s1 t1] [[]|e]]; simpl;
    by rewrite ?app_nil_r.
Qed.



(** A response has failed the custom-order read when it is no 2xx
    response with a body that parses. *)
Lemma loadExistingOrder_resume_refused (r : fetch_result) (s : state) :
  accepted r = false →
  ∃ t, loadExistingOrder_resume r s = (s, t, Return VNull)
       ∧ Forall (λ e, is_surfaced e = false ∧ is_fetch e = false) t.
Proof.
  intros Hr. unfold loadExistingOrder_resume.
  destruct r as [|status [data|]]; simpl in Hr; mrun.
  - eexists. split; [done|]. by repeat constructor.
  - rewrite Hr. mrun. eexists. split; [done|]. constructor.
  - destruct (ok status); mrun; eexists; (split; [done|]); by repeat constructor.
Qed.

(** C5, as the code has it.  When the custom-order read is rejected, is
    answered outside 2xx, or is answered with a body that does not
    parse, [loadExistingOrder] yields [null] without throwing;
    [loadPhotos] goes on to read the manifest, and up to that read
    nothing is shown to the operator and the state is untouched; the
    state [loadPhotos] ends in is the one the manifest gives. *)
Theorem custom_order_read_failure (localeCompare : jsstring → jsstring → Z)
    (r manifest : fetch_result) (s : state) :
  accepted r = false →
  result_of (loadExistingOrder_resume r s) = Return VNull
  ∧ (∃ t, loadPhotos_afterCustomOrder r s
          = (s, t ++ [Fetch (Request GET (manifestUrl (uid s)) None)],
             Return (Some (Request GET (manifestUrl (uid s)) None)))
          ∧ Forall (λ e, is_surfaced e = false ∧ is_fetch e = false) t)
  ∧ state_of (loadPhotos localeCompare r manifest s)
    = state_of (loadPhotos_afterManifest localeCompare manifest s)
  ∧ result_of (loadPhotos localeCompare r manifest s)
    = result_of (loadPhotos_afterManifest localeCompare manifest s).
Proof.
  intros Hr. destruct (loadExistingOrder_resume_refused r s Hr) as (t & Ht & Hquiet).
  pose proof (loadPhotos_afterCustomOrder_absent r s VNull t Ht eq_refl) as Hafter.
  split; [by rewrite Ht|]. split.
  - exists (t ++ [Console (lit "[FETCH] Loading manifest")]).
    rewrite Hafter, <- (assoc_L (++)). split; [done|].
    apply Forall_app. split; [done|]. by repeat constructor.
  - unfold loadPhotos. rewrite run_bind, loadPhotos_begin_run, run_bind, Hafter.
    unfold state_of, result_of.
    by destruct (loadPhotos_afterManifest _ _ s) as [[s1 t1] r1].
Qed.

(** A custom-order read answered 404, then the scenario's manifest. *)
Lemma custom_order_read_failure_witness :
  result_of (loadExistingOrder_resume (Response 404 None) opened) = Return VNull
  ∧ state_of (loadPhotos compare_code_units (Response 404 None)
                (Response 200 (Some (VArr scenario_manifest))) opened)
    = state_of (loadPhotos_afterManifest compare_code_units
                  (Response 200 (Some (VArr scenario_manifest))) opened).
Proof.
  pose proof (custom_order_read_failure compare_code_units (Response 404 None)
                (Response 200 (Some (VArr scenario_manifest))) opened eq_refl)
    as (H1 & _ & H3 & _).
  exact (conj H1 H3).
Defined.

(** The custom-order read is answered 201, not 200, with a saved order:
    [loadExistingOrder] yields that order, not [null], and the manifest
    is not read. *)
Lemma custom_order_201_counterexample :
  (201 ≠ 200)
  ∧ result_of
      (loadExistingOrder_resume
         (Response 201 (Some (VObj [(lit "order", VArr [VStr (lit "a/01.jpg")])])))
         opened)
    = Return (VArr [VStr (lit "a/01.jpg")])
  ∧ result_of
      (loadPhotos_afterCustomOrder
         (Response 201 (Some (VObj [(lit "order", VArr [VStr (lit "a/01.jpg")])])))
         opened)
    = Return None
  ∧ photoOrder
      (state_of
         (loadPhotos compare_code_units
            (Response 201 (Some (VObj [(lit "order", VArr [VStr (lit "a/01.jpg")])])))
            (Response 200 (Some (VArr scenario_manifest))) opened))
    = VArr [VStr (lit "a/01.jpg")].
Proof. split; [done|]. repeat split. Qed.

(** C10, as the code has it.  When the custom-order read is answered
    2xx with a body that parses: if its [order] is missing, [null] or
    otherwise falsy (or the body is [null], which has no members),
    [loadPhotos] treats the custom order as absent and goes on to read
    the manifest, ending in the state the manifest gives; if its [order]
    is the empty list and its [updated_at] can be written into the log
    entry (its conversion to a string does not throw), [loadPhotos]
    returns with an empty PhotoOrder, the custom-order read being the
    only call it issues; if that conversion throws, the read's [catch]
    yields [null] and [loadPhotos] reads the manifest as for an absent
    order. *)
Theorem falsy_order_falls_back (localeCompare : jsstring → jsstring → Z)
    (status : Z) (data : jsval) (manifest : fetch_result) (s : state) :
  ok status = true →
  ((∀ v, get_prop data (lit "order") = Return v → truthy v = false) →
     (∃ t, loadPhotos_afterCustomOrder (Response status (Some data)) s
           = (s, t ++ [Fetch (Request GET (manifestUrl (uid s)) None)],
              Return (Some (Request GET (manifestUrl (uid s)) None)))
           ∧ Forall (λ e, is_surfaced e = false ∧ is_fetch e = false) t)
     ∧ state_of (loadPhotos localeCompare (Response status (Some data)) manifest s)
       = state_of (loadPhotos_afterManifest localeCompare manifest s))
  ∧ (get_prop data (lit "order") = Return (VArr []) →
     ∀ updated_at, get_prop data (lit "updated_at") = Return updated_at →
     (string_conversion updated_at = Return tt →
      result_of (loadPhotos localeCompare (Response status (Some data)) manifest s)
      = Return tt
      ∧ photoOrder (state_of (loadPhotos localeCompare
                                (Response status (Some data)) manifest s))
        = VArr []
      ∧ ∃ t, trace_of (loadPhotos localeCompare
                         (Response status (Some data)) manifest s)
             = ShowLoading true
               :: Fetch (Request GET (customOrderUrl (uid s)) None) :: t
             ∧ Forall (λ e, is_fetch e = false) t)
     ∧ (∀ e, string_conversion updated_at = Throw e →
        result_of (loadExistingOrder_resume (Response status (Some data)) s)
        = Return VNull
        ∧ (∃ t, loadPhotos_afterCustomOrder (Response status (Some data)) s
                = (s, t ++ [Fetch (Request GET (manifestUrl (uid s)) None)],
                   Return (Some (Request GET (manifestUrl (uid s)) None)))
                ∧ Forall (λ e, is_surfaced e = false ∧ is_fetch e = false) t)
        ∧ state_of (loadPhotos localeCompare
                      (Response status (Some data)) manifest s)
          = state_of (loadPhotos_afterManifest localeCompare manifest s))).
Proof.
  intros Hok.
  assert (Hfallback : ∀ v t,
    loadExistingOrder_resume (Response status (Some data)) s = (s, t, Return v) →
    Forall (λ e, ∃ text, e = Console text) t → truthy v = false →
    (∃ t, loadPhotos_afterCustomOrder (Response status (Some data)) s
          = (s, t ++ [Fetch (Request GET (manifestUrl (uid s)) None)],
             Return (Some (Request GET (manifestUrl (uid s)) None)))
          ∧ Forall (λ e, is_surfaced e = false ∧ is_fetch e = false) t)
    ∧ state_of (loadPhotos localeCompare (Response status (Some data)) manifest s)
      = state_of (loadPhotos_afterManifest localeCompare manifest s)).
  { intros v t Hv Ht Hv'.
    pose proof (loadPhotos_afterCustomOrder_absent _ s v t Hv Hv') as Hafter.
    split.
    - exists (t ++ [Console (lit "[FETCH] Loading manifest")]).
      rewrite Hafter, <- (assoc_L (++)). split; [done|].
      apply Forall_app. split; [|by repeat constructor].
      eapply Forall_impl; [exact Ht|]. by intros e [text ->].
    - unfold loadPhotos. rewrite run_bind, loadPhotos_begin_run, run_bind, Hafter.
      unfold state_of.
      by destruct (loadPhotos_afterManifest _ _ s) as [[s1 t1] r1]. }
  split.
  - intros Hfalsy.
    destruct (loadExistingOrder_resume_total (Response status (Some data)) s)
      as (v & t & Hv & Ht).
    apply (Hfallback v t Hv Ht).
    revert Hv. unfold loadExistingOrder_resume. mrun. rewrite Hok. mrun.
    destruct (get_prop data (lit "updated_at")) as [u|]; mrun;
      [|by intros [= _ <-]].
    destruct (string_conversion u); mrun; [|by intros [= _ <-]].
    destruct (get_prop data (lit "order")) as [w|] eqn:Hw; mrun;
      intros [= _ <-]; [by apply Hfalsy|done].
  - intros Horder updated_at Hupdated. split.
    + intros Hconv.
      pose proof (loadExistingOrder_resume_order status data updated_at
                    (VArr []) s Hok Hupdated Hconv Horder) as Hread.
      destruct (loadPhotos_with_custom_order localeCompare
                  (Response status (Some data)) manifest [] s)
        as (t0 & Ht0 & Hrun); [by rewrite Hread|].
      destruct (loadPhotos_finish_strings [] (set_photoOrder (VArr []) s) eq_refl)
        as [t Ht].
      rewrite Hrun. unfold state_of, trace_of, result_of. rewrite Ht. simpl.
      split; [done|]. split; [done|].
      eexists. split; [done|].
      destruct (loadPhotos_finish_respects (set_photoOrder (VArr []) s))
        as [_ Hq].
      unfold trace_of in Hq. rewrite Ht in Hq.
      apply Forall_app. split.
      * eapply Forall_impl; [exact Ht0|]. by intros e [text ->].
      * by repeat constructor.
    + intros e Hconv.
      pose proof (loadExistingOrder_resume_unreadable status data updated_at e s
                    Hok Hupdated Hconv) as Hread.
      split; [by rewrite Hread|].
      apply (Hfallback VNull _ Hread); [|done].
      repeat constructor. by eexists.
Qed.

(** A body whose [order] is [null], and a body whose [order] is the
    empty list. *)
Lemma falsy_order_falls_back_witness :
  state_of (loadPhotos compare_code_units
              (Response 200 (Some (VObj [(lit "order", VNull)])))
              (Response 200 (Some (VArr scenario_manifest))) opened)
  = state_of (loadPhotos_afterManifest compare_code_units
                (Response 200 (Some (VArr scenario_manifest))) opened)
  ∧ photoOrder (state_of (loadPhotos compare_code_units
                            (Response 200 (Some (VObj [(lit "order", VArr [])])))
                            (Response 200 (Some (VArr scenario_manifest))) opened))
    = VArr [].
Proof.
  split.
  - refine (proj2 (proj1 (falsy_order_falls_back compare_code_units 200
      (VObj [(lit "order", VNull)])
      (Response 200 (Some (VArr scenario_manifest))) opened eq_refl) _)).
    intros v Hv. vm_compute in Hv. injection Hv as <-. reflexivity.
  - refine (proj1 (proj2 (proj1 (proj2 (falsy_order_falls_back compare_code_units 200
      (VObj [(lit "order", VArr [])])
      (Response 200 (Some (VArr scenario_manifest))) opened eq_refl)
      eq_refl VUndefined eq_refl) eq_refl))).
Defined.

(** The custom-order read is answered 200 with a body that parses, whose
    [order] is the empty list and whose [updated_at] is an object with a
    [toString] member of its own: the log entry cannot be written, the
    [catch] of [loadExistingOrder] yields [null], the manifest is read
    and PhotoOrder is what the manifest gives, not the empty list. *)
Lemma empty_order_unreadable_counterexample :
  ok 200 = true
  ∧ get_prop (VObj [(lit "order", VArr []);
                    (lit "updated_at", VObj [(lit "toString", VNum 0%float)])])
      (lit "order") = Return (VArr [])
  ∧ result_of
      (loadPhotos_afterCustomOrder
         (Response 200
            (Some (VObj [(lit "order", VArr []);
                         (lit "updated_at",
                          VObj [(lit "toString", VNum 0%float)])])))
         opened)
    = Return (Some (Request GET (manifestUrl (uid opened)) None))
  ∧ photoOrder
      (state_of
         (loadPhotos compare_code_units
            (Response 200
               (Some (VObj [(lit "order", VArr []);
                            (lit "updated_at",
                             VObj [(lit "toString", VNum 0%float)])])))
            (Response 200 (Some (VArr scenario_manifest))) opened))
    = VArr [VStr (lit "a/01-1.jpg"); VStr (lit "b/02-1.jpg")].
Proof. repeat split. Qed.

(** ** C7: the entry URL without its parameters *)


#[global] Instance any_state_preorder : PreOrder any_state.
Proof. by split. Qed.

Lemma bind_result_inv {A B} (P : B → Prop) (m : M A) (k : A → M B) (s : state) :
  (∀ a s' b, result_of (k a s') = Return b → P b) →
  ∀ b, result_of ((m ≫= k) s) = Return b → P b.
Proof.
  intros Hk b. rewrite run_bind. unfold result_of in *.
  destruct (m s) as [[s1 t1] [a|e]]; [|done].
  specialize (Hk a s1 b). destruct (k a s1) as [[s2 t2] r2]. exact Hk.
Qed.

(** The calls an event leaves in flight are no part of loading, unless
    it is the answer to a call of loading. *)
Lemma handler_konts (localeCompare : jsstring → jsstring → Z)
    (c : config) (ev : event) (s : state) (ks : list kont) :
  Forall load_free (inflight c) →
  result_of (handler localeCompare ev c s) = Return ks → Forall load_free ks.
Proof.
  intros Hfree. revert ks.
  destruct ev as [n r|oldIndex newIndex| |answer| |text| | | | |]; simpl.
  - destruct (inflight c !! n) as [k|] eqn:Hk;
      [|intros ks [= <-]; constructor].
    pose proof (Forall_lookup_1 _ _ _ _ Hfree Hk) as Hload.
    destruct k as [| |[]| |reason]; try done; simpl;
      repeat (apply (bind_result_inv (Forall load_free)); intros ? ?);
      (intros ks [= <-]; by repeat constructor).
  - destruct (sortable (st c));
      repeat (apply (bind_result_inv (Forall load_free)); intros ? ?);
      (intros ks [= <-]; by repeat constructor).
  - repeat (apply (bind_result_inv (Forall load_free)); intros ? ?).
    intros ks [= <-]; by repeat constructor.
  - apply (bind_result_inv (Forall load_free)). intros [req []] s' ks [= <-];
      by repeat constructor.
  - repeat (apply (bind_result_inv (Forall load_free)); intros ? ?).
    intros ks [= <-]; by repeat constructor.
  - repeat (apply (bind_result_inv (Forall load_free)); intros ? ?).
    intros ks [= <-]; by repeat constructor.
  - repeat (apply (bind_result_inv (Forall load_free)); intros ? ?).
    intros ks [= <-]; by repeat constructor.
  - apply (bind_result_inv (Forall load_free)).
    intros [[req reason]|] s' ks [= <-]; by repeat constructor.
  - repeat (apply (bind_result_inv (Forall load_free)); intros ? ?).
    intros ks [= <-]; by repeat constructor.
  - destruct (bool_decide _);
      repeat (apply (bind_result_inv (Forall load_free)); intros ? ?);
      (intros ks [= <-]; by repeat constructor).
  - destruct (unloadGuard (st c));
      repeat (apply (bind_result_inv (Forall load_free)); intros ? ?);
      (intros ks [= <-]; by repeat constructor).
Qed.






(** ** C8: a rejection without a reason *)

Lemma trimStart_blank (s : jsstring) :
  forallb is_trim_space s = true → trimStart s = [].
Proof.
  induction s as [|c s IH]; simpl; [done|].
  intros [Hc Hs]%andb_true_iff. rewrite Hc. auto.
Qed.

(** A string of white space and line terminators trims to the empty
    string. *)
Lemma trim_blank (s : jsstring) :
  forallb is_trim_space s = true → trim s = [].
Proof.
  intros Hs. unfold trim, trimEnd. by rewrite (trimStart_blank s Hs).
Qed.

(** C8.  When the reason typed into the reject dialog is empty or made
    of white space only, [submitRejection] alerts the operator and
    returns at once: it issues no call, suspends on none, and leaves the
    whole state (PhotoOrder, OriginalOrder, the dirty flag, the
    enablement of the controls, the dialog's text) as it was; the
    session has no more calls in flight than before. *)
Theorem blank_reason_refused (localeCompare : jsstring → jsstring → Z)
    (c : CallBased.config) :
  forallb is_trim_space (rejectReason_value (CallBased.st c)) = true →
  CallBased.submitRejection (CallBased.st c)
  = (CallBased.st c,
     [Alert (Text (lit "Please provide a reason for rejection."))],
     Return None)
  ∧ CallBased.step localeCompare c CallBased.ClickSubmitRejection
    = (c, [Alert (Text (lit "Please provide a reason for rejection."))]).
Proof.
  intros Hblank.
  assert (Hrun : CallBased.submitRejection (CallBased.st c)
    = (CallBased.st c,
       [Alert (Text (lit "Please provide a reason for rejection."))],
       Return None)).
  { unfold CallBased.submitRejection. mrun. by rewrite (trim_blank _ Hblank). }
  split; [done|].
  unfold CallBased.step, CallBased.handler. rewrite run_bind, Hrun.
  destruct c as [s0 calls n]. simpl. by rewrite app_nil_r, Nat.add_0_r.
Qed.

(** A reason of two spaces, a tab and a line feed, typed while a save
    call is in flight. *)
Lemma blank_reason_refused_witness :
  CallBased.step compare_code_units
    (CallBased.Config
       (set_rejectReason_value [32; 32; 9; 10]%N moved)
       [CallBased.KSave false] 0)
    CallBased.ClickSubmitRejection
  = (CallBased.Config
       (set_rejectReason_value [32; 32; 9; 10]%N moved)
       [CallBased.KSave false] 0,
     [Alert (Text (lit "Please provide a reason for rejection."))]).
Proof.
  exact (proj2 (blank_reason_refused compare_code_units
    (CallBased.Config
       (set_rejectReason_value [32; 32; 9; 10]%N moved)
       [CallBased.KSave false] 0) eq_refl)).
Defined.

(** ** C9: pause and extend *)

(** C9.  In the redirect-based variant [pauseTimer] and [extendTimer]
    leave the whole state (PhotoOrder, OriginalOrder, the dirty flag,
    [uid], [reviewToken] and the rest) as it was and do one thing: they
    navigate to the workflow endpoint of the review token, with the
    duration as the [minutes] parameter for [extendTimer]. *)
Theorem pause_extend_navigate_only (ToString : jsval → jsstring)
    (minutes : jsval) (s : state) :
  RedirectBased.pauseTimer s
  = (s,
     [Navigate (RedirectBased.API_BASE_URL ++ lit "/pause/"
                ++ interpolate (reviewToken s))],
     Return tt)
  ∧ RedirectBased.extendTimer ToString minutes s
    = (s,
       [Navigate (RedirectBased.API_BASE_URL ++ lit "/extend/"
                  ++ interpolate (reviewToken s)
                  ++ lit "?minutes=" ++ ToString minutes)],
       Return tt).
Proof. done. Qed.

(** ** C6: the dirty flag along a session *)

#[global] Instance keeps_dirty_preorder : PreOrder keeps_dirty.
Proof.
  split; [intros s H; exact H|].
  intros s1 s2 s3 H12 H23 H. exact (H23 (H12 H)).
Qed.

Lemma step_state (localeCompare : jsstring → jsstring → Z) (c : config) (ev : event) :
  st (step localeCompare c ev).1 = state_of (handler localeCompare ev c (st c)).
Proof.
  unfold step, state_of.
  by destruct (handler localeCompare ev c (st c)) as [[s1 t1] [ks|e]].
Qed.

Lemma Forall_trivial {A} (l : list A) : Forall (λ _, True) l.
Proof. induction l; by constructor. Qed.

Lemma server_error_throws {A} (status : Z) (body : option jsval) (s : state) :
  ∃ e, server_error (A:=A) status body s = (s, [], Throw e).
Proof.
  unfold server_error. destruct (get_prop _ _) as [t|]; mrun; [|by eauto].
  destruct (truthy t); mrun; [|by eauto].
  destruct (string_conversion t); mrun; eauto.
Qed.

Lemma saveOrder_resume_refused (r : fetch_result) :
  accepted r = false → respects keeps_dirty (λ _, True) (saveOrder_resume r).
Proof.
  intros Hr s. split; [|apply Forall_trivial].
  unfold saveOrder_resume, keeps_dirty, state_of, try_catch.
  destruct r as [|status [v|]]; simpl in Hr.
  - by mrun.
  - rewrite !run_bind. mrun. rewrite Hr. simpl.
    destruct (server_error_throws (A:=unit) status (Some v) s) as [e ->]. by mrun.
  - rewrite !run_bind. mrun. by destruct (ok status).
Qed.

Lemma approveOrder_resume_refused (r : fetch_result) :
  accepted r = false → respects keeps_dirty (λ _, True) (approveOrder_resume r).
Proof.
  intros Hr s. split; [|apply Forall_trivial].
  unfold approveOrder_resume, keeps_dirty, state_of, try_catch.
  destruct r as [|status [v|]]; simpl in Hr.
  - by mrun.
  - rewrite !run_bind. mrun. rewrite Hr. simpl.
    destruct (server_error_throws (A:=unit) status (Some v) s) as [e ->]. by mrun.
  - rewrite !run_bind. mrun. by destruct (ok status).
Qed.

Lemma submitRejection_resume_refused (reason : jsstring) (r : fetch_result) :
  accepted r = false →
  respects keeps_dirty (λ _, True) (submitRejection_resume reason r).
Proof.
  intros Hr s. split; [|apply Forall_trivial].
  unfold submitRejection_resume, keeps_dirty, state_of, try_catch.
  destruct r as [|status [v|]]; simpl in Hr.
  - by mrun.
  - rewrite !run_bind. mrun. rewrite Hr. simpl.
    destruct (server_error_throws (A:=unit) status (Some v) s) as [e ->]. by mrun.
  - rewrite !run_bind. mrun. by destruct (ok status).
Qed.

(** The code that never clears the flag. *)
Lemma load_keeps_dirty (localeCompare : jsstring → jsstring → Z) (r : fetch_result) :
  respects keeps_dirty (λ _, True) (DOMContentLoaded_afterCustomOrder r)
  ∧ respects keeps_dirty (λ _, True) (DOMContentLoaded_afterManifest localeCompare r).
Proof.
  split.
  - unfold DOMContentLoaded_afterCustomOrder, loadPhotos_afterCustomOrder,
      loadExistingOrder_resume, loadPhotos_finish, renderGallery,
      initializeSortable, loadFailed, addUnloadGuard, showLoading, showError,
      fetch.
    frame.
  - unfold DOMContentLoaded_afterManifest, loadPhotos_afterManifest,
      loadPhotos_finish, renderGallery, initializeSortable, loadFailed,
      addUnloadGuard, showLoading, showError.
    frame.
Qed.

Lemma controls_keep_dirty (answer : bool) :
  respects keeps_dirty (λ _, True) (saveOrder_begin SAVE_ORDER_LAMBDA_URL)
  ∧ respects keeps_dirty (λ _, True) approveOrder_call
  ∧ respects keeps_dirty (λ _, True) (approveOrder_begin answer)
  ∧ respects keeps_dirty (λ _, True) submitRejection
  ∧ respects keeps_dirty (λ _, True) closeRejectModal
  ∧ respects keeps_dirty (λ _, True) clearSavedStatus
  ∧ respects keeps_dirty (λ _, True) beforeunload.
Proof.
  unfold saveOrder_begin, approveOrder_call, approveOrder_begin,
    submitRejection, closeRejectModal, clearSavedStatus, beforeunload,
    saveOrder_begin, approveOrder_call, fetch.
  repeat apply conj; frame.
Qed.

Lemma onEnd_keeps_dirty (oldIndex newIndex : Z) :
  respects keeps_dirty (λ _, True) (onEnd oldIndex newIndex).
Proof.
  unfold onEnd, updateDisplayNumbers, markAsChanged. frame.
Qed.

(** Unless it is the successful answer to a save, an approval or a
    rejection, an event is handled without clearing the flag. *)
Lemma handler_keeps_dirty (localeCompare : jsstring → jsstring → Z)
    (c : config) (ev : event) :
  save_succeeds c ev = false → action_succeeds c ev = false →
  respects keeps_dirty (λ _, True) (handler localeCompare ev c).
Proof.
  intros Hsave Haction.
  destruct (controls_keep_dirty true) as (H1 & H2 & H3 & H4 & H5 & H6 & H7).
  destruct (controls_keep_dirty false) as (_ & _ & H3' & _).
  destruct ev as [n r|oldIndex newIndex| |[]| |text| | | | |]; simpl;
    try (frame; done).
  destruct (inflight c !! n) as [[| |[]| |reason]|] eqn:Hk;
    simpl in Hsave, Haction; rewrite Hk in Hsave, Haction;
    simpl in Hsave, Haction; simpl.
  - apply respects_bind; [apply _|apply (load_keeps_dirty localeCompare)|frame].
  - apply respects_bind; [apply _|apply (load_keeps_dirty localeCompare)|frame].
  - assert (Hr : accepted r = false) by (by destruct (accepted r)).
    apply respects_bind; [apply _|by apply saveOrder_resume_refused|frame].
  - assert (Hr : accepted r = false) by (by destruct (accepted r)).
    apply respects_bind; [apply _|by apply saveOrder_resume_refused|frame].
  - assert (Hr : accepted r = false) by (by destruct (accepted r)).
    apply respects_bind; [apply _|by apply approveOrder_resume_refused|frame].
  - assert (Hr : accepted r = false) by (by destruct (accepted r)).
    apply respects_bind; [apply _|by apply submitRejection_resume_refused|frame].
  - frame.
Qed.

Lemma step_keeps_dirty (localeCompare : jsstring → jsstring → Z)
    (c : config) (ev : event) :
  save_succeeds c ev || action_succeeds c ev = false →
  hasUnsavedChanges (st c) = true →
  hasUnsavedChanges (st (step localeCompare c ev).1) = true.
Proof.
  intros [Hsave Haction]%orb_false_iff. rewrite step_state.
  exact (proj1 (handler_keeps_dirty localeCompare c ev Hsave Haction (st c))).
Qed.

Lemma run_cons (localeCompare : jsstring → jsstring → Z)
    (ev : event) (evs : list event) (c : config) :
  (run localeCompare (ev :: evs) c).1
  = (run localeCompare evs (step localeCompare c ev).1).1.
Proof.
  cbn [run]. destruct (step localeCompare c ev) as [c1 t1]. cbn [fst].
  by destruct (run localeCompare evs c1) as [c2 t2].
Qed.

Lemma run_keeps_dirty (localeCompare : jsstring → jsstring → Z)
    (evs : list event) (c : config) :
  never localeCompare (λ c ev, save_succeeds c ev || action_succeeds c ev) evs c
  = true →
  hasUnsavedChanges (st c) = true →
  hasUnsavedChanges (st (run localeCompare evs c).1) = true.
Proof.
  revert c. induction evs as [|ev evs IH]; intros c Hnever Hdirty; [done|].
  simpl in Hnever. apply andb_true_iff in Hnever as [Hev Hnever].
  apply negb_true_iff in Hev.
  rewrite run_cons. apply IH; [done|]. by apply step_keeps_dirty.
Qed.

(** A drag that changes PhotoOrder sets the flag. *)
Lemma mutation_sets_dirty (localeCompare : jsstring → jsstring → Z)
    (c : config) (ev : event) :
  mutates localeCompare c ev →
  hasUnsavedChanges (st (step localeCompare c ev).1) = true.
Proof.
  intros [(oldIndex & newIndex & ->) Hne]. rewrite step_state in *.
  revert Hne. unfold handler.
  destruct (sortable (st c)); [|by intros []].
  unfold onEnd. case_bool_decide; [|by intros []].
  rewrite !run_bind. mrun.
  destruct (photoOrder (st c)) as [| | | | |l|] eqn:Hpo; mrun;
    try (by intros []).
  destruct (splice oldIndex 1 [] l) as [removed l1].
  by destruct (splice newIndex 0 _ l1) as [? l2].
Qed.

(** C6, as the code has it.  The dirty flag is set whenever PhotoOrder
    has been changed by a drag since the last successful save, approval
    or rejection (or since load, if there was none): from any state of
    the session, after a drag that changes PhotoOrder and any run of
    events none of which is the successful answer to a save, an
    approval or a rejection, the flag is set.  And an event that clears
    a set flag is the successful answer to a save, an approval or a
    rejection: nothing else clears it. *)
Theorem dirty_flag_tracks_mutations (localeCompare : jsstring → jsstring → Z)
    (c : config) (ev : event) (evs : list event) :
  (mutates localeCompare c ev →
   never localeCompare (λ c ev, save_succeeds c ev || action_succeeds c ev)
     evs (step localeCompare c ev).1 = true →
   hasUnsavedChanges (st (run localeCompare evs (step localeCompare c ev).1).1)
   = true)
  ∧ (hasUnsavedChanges (st c) = true →
     hasUnsavedChanges (st (step localeCompare c ev).1) = false →
     save_succeeds c ev || action_succeeds c ev = true).
Proof.
  split.
  - intros Hmutates Hnever.
    by apply run_keeps_dirty, mutation_sets_dirty.
  - intros Hdirty Hcleared.
    destruct (save_succeeds c ev || action_succeeds c ev) eqn:Hclears; [done|].
    rewrite (step_keeps_dirty localeCompare c ev Hclears Hdirty) in Hcleared.
    done.
Qed.

Lemma loaded_session_reachable : reachable compare_code_units loaded_session.
Proof.
  exists pristine, both_parameters,
    [Answer 0 (Response 404 None);
     Answer 0 (Response 200 (Some (VArr scenario_manifest)))].
  by repeat split.
Qed.

(** A drag, then a save that the server answers 500: the flag is still
    set. *)
Lemma dirty_flag_tracks_mutations_witness :
  mutates compare_code_units loaded_session (DragEnd 0 1)
  ∧ hasUnsavedChanges
      (st (run compare_code_units [ClickSave; Answer 0 (Response 500 None)]
             (step compare_code_units loaded_session (DragEnd 0 1)).1).1)
    = true.
Proof.
  assert (Hm : mutates compare_code_units loaded_session (DragEnd 0 1)).
  { split; [by eexists _, _|]. vm_compute. discriminate. }
  split; [exact Hm|].
  exact (proj1 (dirty_flag_tracks_mutations compare_code_units loaded_session
                  (DragEnd 0 1) [ClickSave; Answer 0 (Response 500 None)])
           Hm eq_refl).
Defined.

(** The operator drags a photo, clicks Approve, declines to save first,
    and the approval succeeds: no save has succeeded since the drag,
    PhotoOrder differs from OriginalOrder, and the flag is cleared. *)
Lemma approval_clears_dirty_counterexample :
  reachable compare_code_units loaded_session
  ∧ mutates compare_code_units loaded_session (DragEnd 0 1)
  ∧ never compare_code_units save_succeeds
      [ClickApprove false; Answer 0 (Response 200 (Some (VObj [])))]
      (step compare_code_units loaded_session (DragEnd 0 1)).1 = true
  ∧ hasUnsavedChanges
      (st (run compare_code_units
             [ClickApprove false; Answer 0 (Response 200 (Some (VObj [])))]
             (step compare_code_units loaded_session (DragEnd 0 1)).1).1)
    = false
  ∧ photoOrder
      (st (run compare_code_units
             [ClickApprove false; Answer 0 (Response 200 (Some (VObj [])))]
             (step compare_code_units loaded_session (DragEnd 0 1)).1).1)
    = VArr [VStr (lit "b/02-1.jpg"); VStr (lit "a/01-1.jpg")]
  ∧ originalOrder
      (st (run compare_code_units
             [ClickApprove false; Answer 0 (Response 200 (Some (VObj [])))]
             (step compare_code_units loaded_session (DragEnd 0 1)).1).1)
    = [VStr (lit "a/01-1.jpg"); VStr (lit "b/02-1.jpg")].
Proof.
  split; [apply loaded_session_reachable|].
  split; [|by repeat split].
  split; [by eexists _, _|]. vm_compute. discriminate.
Qed.

(** * Further properties *)

(** ** Dragging *)

(** [onEnd] on a list, for two different indices inside it. *)
Lemma onEnd_run (s : state) (l : list jsval) (i j : nat) (x : jsval) :
  photoOrder s = VArr l → l !! i = Some x → (j < length l)%nat → i ≠ j →
  onEnd (Z.of_nat i) (Z.of_nat j) s
  = (set_saveStatus_text (lit "Unsaved changes")
       (set_disabled saveOrderBtn false
          (set_hasUnsavedChanges true
             (set_photoOrder
                (VArr (take j (delete i l) ++ x :: drop j (delete i l))) s))),
     [UpdateDisplayNumbers; SetSaveStatusClass (lit "save-status");
      Console (lit "[REORDER] Moved")],
     Return tt).
Proof.
  intros Hpo Hx Hj Hij.
  assert (Hlen : (j ≤ length (delete i l))%nat).
  { rewrite length_delete by eauto. lia. }
  unfold onEnd. rewrite bool_decide_true by lia.
  unfold mbind, M_bind, gets, lift. rewrite Hpo. cbn.
  rewrite (splice_remove_one l i x Hx). cbn.
  by rewrite (splice_insert_one (delete i l) j x Hlen).
Qed.

Lemma reinserted_permutation {A} (l : list A) (i j : nat) (x : A) :
  l !! i = Some x →
  take j (delete i l) ++ x :: drop j (delete i l) ≡ₚ l.
Proof.
  intros Hx. rewrite <- Permutation_middle, take_drop.
  symmetry. by apply delete_Permutation.
Qed.

(** X1.  A drag between two indices inside PhotoOrder never loses or
    duplicates a photo: PhotoOrder afterwards is a rearrangement of the
    list before, of the same length, and OriginalOrder, [uid] and
    [reviewToken] are untouched. *)
Theorem onEnd_rearranges (s : state) (l : list jsval) (i j : nat) :
  photoOrder s = VArr l → (i < length l)%nat → (j < length l)%nat →
  ∃ l',
    photoOrder (state_of (onEnd (Z.of_nat i) (Z.of_nat j) s)) = VArr l'
    ∧ l' ≡ₚ l ∧ length l' = length l
    ∧ originalOrder (state_of (onEnd (Z.of_nat i) (Z.of_nat j) s)) = originalOrder s
    ∧ uid (state_of (onEnd (Z.of_nat i) (Z.of_nat j) s)) = uid s
    ∧ reviewToken (state_of (onEnd (Z.of_nat i) (Z.of_nat j) s)) = reviewToken s.
Proof.
  intros Hpo Hi Hj. destruct (decide (i = j)) as [->|Hij].
  - exists l. unfold onEnd. by rewrite bool_decide_false by lia.
  - destruct (lookup_lt_is_Some_2 l i Hi) as [x Hx].
    rewrite (onEnd_run s l i j x Hpo Hx Hj Hij).
    eexists. split; [done|].
    pose proof (reinserted_permutation l i j x Hx) as Hp.
    split; [done|]. split; [by rewrite Hp|done].
Qed.

Lemma onEnd_rearranges_witness :
  ∃ l',
    photoOrder (state_of (onEnd 0 2 (reviewing three_photos))) = VArr l'
    ∧ l' ≡ₚ three_photos ∧ length l' = length three_photos
    ∧ originalOrder (state_of (onEnd 0 2 (reviewing three_photos))) = three_photos
    ∧ uid (state_of (onEnd 0 2 (reviewing three_photos))) = Some (lit "order-1")
    ∧ reviewToken (state_of (onEnd 0 2 (reviewing three_photos)))
      = Some (lit "token-1").
Proof.
  exact (onEnd_rearranges (reviewing three_photos) three_photos 0 2
           eq_refl (Nat.lt_0_succ 2) (Nat.lt_succ_diag_r 2)).
Defined.

(** X2.  Dragging an entry from [i] to [j] and then back from [j] to [i]
    restores PhotoOrder; the dirty flag stays set all the same, the
    flag recording that a drag happened and not that the order differs. *)
Theorem onEnd_there_and_back (s : state) (l : list jsval) (i j : nat) :
  photoOrder s = VArr l → (i < length l)%nat → (j < length l)%nat → i ≠ j →
  photoOrder
    (state_of (onEnd (Z.of_nat j) (Z.of_nat i)
                 (state_of (onEnd (Z.of_nat i) (Z.of_nat j) s))))
  = VArr l
  ∧ hasUnsavedChanges
      (state_of (onEnd (Z.of_nat j) (Z.of_nat i)
                   (state_of (onEnd (Z.of_nat i) (Z.of_nat j) s))))
    = true.
Proof.
  intros Hpo Hi Hj Hij. destruct (lookup_lt_is_Some_2 l i Hi) as [x Hx].
  assert (Hlen : (j ≤ length (delete i l))%nat).
  { rewrite length_delete by eauto. lia. }
  set (l1 := take j (delete i l) ++ x :: drop j (delete i l)).
  set (s1 := set_saveStatus_text (lit "Unsaved changes")
               (set_disabled saveOrderBtn false
                  (set_hasUnsavedChanges true (set_photoOrder (VArr l1) s)))).
  assert (H1 : state_of (onEnd (Z.of_nat i) (Z.of_nat j) s) = s1)
    by (by rewrite (onEnd_run s l i j x Hpo Hx Hj Hij)).
  rewrite H1.
  assert (Hi1 : (i < length l1)%nat).
  { unfold l1. by rewrite (reinserted_permutation l i j x Hx). }
  rewrite (onEnd_run s1 l1 j i x eq_refl (lookup_reinserted _ j x Hlen) Hi1)
    by done.
  unfold state_of. simpl. split; [|done]. f_equal. unfold l1.
  rewrite (delete_reinserted _ j x Hlen).
  rewrite delete_take_drop.
  rewrite take_app_length' by (rewrite length_take; lia).
  rewrite drop_app_length' by (rewrite length_take; lia).
  by apply take_drop_middle.
Qed.

Lemma onEnd_there_and_back_witness :
  photoOrder
    (state_of (onEnd 2 0 (state_of (onEnd 0 2 (reviewing three_photos)))))
  = VArr three_photos
  ∧ hasUnsavedChanges
      (state_of (onEnd 2 0 (state_of (onEnd 0 2 (reviewing three_photos)))))
    = true.
Proof.
  refine (onEnd_there_and_back (reviewing three_photos) three_photos 0 2
            eq_refl (Nat.lt_0_succ 2) (Nat.lt_succ_diag_r 2) _).
  lia.
Defined.

Lemma splice_beyond_end {A} (l : list A) (start : Z) :
  Z.of_nat (length l) ≤ start → splice start 1 [] l = ([], l).
Proof.
  intros Hstart. unfold splice.
  destruct (Z.ltb_spec start 0) as [|_]; [lia|].
  rewrite (Z.min_r start) by lia. rewrite Nat2Z.id.
  replace (Z.to_nat (Z.min (Z.max 1 0) (Z.of_nat (length l) - Z.of_nat (length l))))
    with 0%nat by lia.
  rewrite Nat.add_0_r, drop_all, take_0, take_ge by done.
  by rewrite app_nil_r.
Qed.

(** X3.  The handler does not check its indices: when the old index lies
    at or beyond the end of PhotoOrder, nothing is removed and
    [undefined] is inserted at the new index, so that PhotoOrder grows
    by one entry that is no photo, and the dirty flag is set. *)
Theorem onEnd_old_index_beyond_end (s : state) (l : list jsval)
    (oldIndex : Z) (j : nat) :
  photoOrder s = VArr l → Z.of_nat (length l) ≤ oldIndex →
  (j ≤ length l)%nat → oldIndex ≠ Z.of_nat j →
  photoOrder (state_of (onEnd oldIndex (Z.of_nat j) s))
  = VArr (take j l ++ VUndefined :: drop j l)
  ∧ hasUnsavedChanges (state_of (onEnd oldIndex (Z.of_nat j) s)) = true.
Proof.
  intros Hpo Hold Hj Hne. unfold onEnd. rewrite bool_decide_true by done.
  unfold state_of, mbind, M_bind, gets, lift. rewrite Hpo. cbn.
  rewrite (splice_beyond_end l oldIndex Hold). cbn.
  by rewrite (splice_insert_one l j VUndefined Hj).
Qed.

Lemma onEnd_old_index_beyond_end_witness :
  photoOrder (state_of (onEnd 3 1 (reviewing three_photos)))
  = VArr (take 1 three_photos ++ VUndefined :: drop 1 three_photos)
  ∧ hasUnsavedChanges (state_of (onEnd 3 1 (reviewing three_photos))) = true.
Proof.
  refine (onEnd_old_index_beyond_end (reviewing three_photos) three_photos 3 1
            eq_refl _ _ _); simpl; lia.
Defined.

(** ** Saving *)

(** The conversion to a string throws nothing but a [TypeError]. *)
Lemma string_conversion_throws (v : jsval) (e : exn) :
  string_conversion v = Throw e → e = TypeError.
Proof.
  revert v e. fix IH 1. intros [| | | | |elems|ms] e; simpl; try done.
  - induction elems as [|x l IHl]; [done|].
    destruct (string_conversion x) eqn:Hx; [exact IHl|].
    intros [= <-]. exact (IH x _ Hx).
  - destruct (member _ ms); [by intros [= <-]|done].
Qed.

(** X4.  A save that is not answered by a 2xx response with a JSON body
    ends with the status text "Save failed!" and one alert, whose
    message is that of: the rejection, when the call was rejected; the
    parse error, when a 2xx body does not parse; the [error] member of
    the body of a response outside 2xx, when it has a truthy one that
    converts to a string; a [TypeError], when it has a truthy one that
    does not; the response's status otherwise (a body that does not
    parse, or that has no truthy [error]); and a [TypeError] when the
    body of a response outside 2xx is [null]. *)
Theorem saveOrder_failure_report (url : jsstring) (r : fetch_result) (s : state) :
  accepted r = false →
  ∃ e req,
    trace_of (saveOrder url r s)
    = [SetSaveStatusClass (lit "save-status saving"); Fetch req;
       Console (lit "[SAVE ERROR]");
       SetSaveStatusClass (lit "save-status error");
       Alert (ErrorMessage (lit "Failed to save order: ") e)]
    ∧ saveStatus_text (state_of (saveOrder url r s)) = lit "Save failed!"
    ∧ (r = NetworkFailure → e = NetworkError)
    ∧ (∀ status, r = Response status None →
         e = if ok status then SyntaxError else ServerStatus status)
    ∧ (∀ status v t, r = Response status (Some v) →
         get_prop v (lit "error") = Return t →
         e = if truthy t
             then match string_conversion t with
                  | Return _ => ServerMessage t
                  | Throw _ => TypeError
                  end
             else ServerStatus status)
    ∧ (∀ status v x, r = Response status (Some v) →
         get_prop v (lit "error") = Throw x → e = x ∧ x = TypeError).
Proof.
  intros Hr. unfold saveOrder, saveOrder_begin, saveOrder_resume, server_error.
  destruct r as [|status [v|]]; simpl in Hr.
  - mrun. eexists _, _. split; [done|]. split; [done|].
    repeat split; intros; done.
  - mrun. rewrite Hr. mrun.
    destruct (get_prop v (lit "error")) as [t|x] eqn:Hv; mrun.
    + destruct (truthy t) eqn:Ht; mrun;
        [destruct (string_conversion t) as [[]|x] eqn:Hc; mrun|];
        (eexists _, _; split; [done|]; split; [done|];
         split; [done|]; split; [done|]; split;
         [intros ? ? t' [= <- <-] Ht'; rewrite Hv in Ht'; injection Ht' as <-;
          rewrite ?Ht, ?Hc; try done;
          by rewrite (string_conversion_throws t x Hc)
         |intros ? ? ? [= <- <-] Hx; congruence]).
    + eexists _, _. split; [done|]. split; [done|].
      split; [done|]. split; [done|]. split.
      * intros ? ? ? [= <- <-] Ht'. congruence.
      * intros ? ? x' [= <- <-] Hx. rewrite Hv in Hx. injection Hx as <-.
        split; [done|]. destruct v; simpl in Hv; try done; by injection Hv.
  - mrun. destruct (ok status) eqn:Hok; mrun;
      eexists _, _; (split; [done|]); (split; [done|]);
      repeat split; intros; try done;
      match goal with H : Response _ _ = Response _ _ |- _ =>
        injection H as <- end; by rewrite Hok.
Qed.

(** A save answered 500 with [{"error": "quota"}]. *)
Lemma saveOrder_failure_report_witness :
  ∃ e req,
    trace_of (saveOrder CallBased.SAVE_ORDER_LAMBDA_URL
                (Response 500 (Some (VObj [(lit "error", VStr (lit "quota"))])))
                moved)
    = [SetSaveStatusClass (lit "save-status saving"); Fetch req;
       Console (lit "[SAVE ERROR]");
       SetSaveStatusClass (lit "save-status error");
       Alert (ErrorMessage (lit "Failed to save order: ") e)]
    ∧ e = ServerMessage (VStr (lit "quota")).
Proof.
  destruct (saveOrder_failure_report CallBased.SAVE_ORDER_LAMBDA_URL
              (Response 500 (Some (VObj [(lit "error", VStr (lit "quota"))])))
              moved eq_refl) as (e & req & Ht & _ & _ & _ & He & _).
  exists e, req. split; [exact Ht|].
  exact (He 500 _ (VStr (lit "quota")) eq_refl eq_refl).
Defined.

Lemma saveOrder_resume_total (r : fetch_result) (s : state) :
  ∃ s1 t1,
    saveOrder_resume r s = (s1, t1, Return tt)
    ∧ uid s1 = uid s ∧ reviewToken s1 = reviewToken s
    ∧ photoOrder s1 = photoOrder s
    ∧ approveBtn_disabled s1 = approveBtn_disabled s
    ∧ rejectBtn_disabled s1 = rejectBtn_disabled s.
Proof.
  unfold saveOrder_resume, server_error.
  destruct r as [|status [v|]]; mrun.
  - by eexists _, _.
  - destruct (ok status); mrun.
    + destruct (spread (photoOrder s)); mrun; by eexists _, _.
    + error_cases v; by eexists _, _.
  - destruct (ok status); mrun; by eexists _, _.
Qed.

Lemma saveOrder_resume_accepted (r : fetch_result) (s : state) (l : list jsval) :
  accepted r = true → photoOrder s = VArr l →
  saveOrder_resume r s
  = (set_saveStatus_text saved_mark
       (set_originalOrder l (set_hasUnsavedChanges false s)),
     [Console (lit "[SAVE] Success:");
      SetSaveStatusClass (lit "save-status saved"); SetTimeout 3000],
     Return tt).
Proof.
  intros Hr Hpo. destruct r as [|status [v|]]; try done. simpl in Hr.
  unfold saveOrder_resume. mrun. rewrite Hr. mrun. rewrite Hpo. by mrun.
Qed.



(** ** Approving and rejecting by a call *)

(** X6.  [approveOrder] from the answer to its call on always returns.
    On a 2xx answer with a JSON body it shows the confirmation, disables
    the save, approve and reject controls and clears the dirty flag; on
    any other answer it alerts the operator and enables the approve
    control again, leaving the dirty flag and the other two controls as
    they were.  PhotoOrder and OriginalOrder are untouched either way. *)
Theorem approveOrder_outcome (r : fetch_result) (s : state) :
  result_of (approveOrder_resume r s) = Return tt
  ∧ photoOrder (state_of (approveOrder_resume r s)) = photoOrder s
  ∧ originalOrder (state_of (approveOrder_resume r s)) = originalOrder s
  ∧ (accepted r = true →
       saveOrderBtn_disabled (state_of (approveOrder_resume r s)) = true
       ∧ approveBtn_disabled (state_of (approveOrder_resume r s)) = true
       ∧ rejectBtn_disabled (state_of (approveOrder_resume r s)) = true
       ∧ hasUnsavedChanges (state_of (approveOrder_resume r s)) = false
       ∧ trace_of (approveOrder_resume r s)
         = [Console (lit "[APPROVE] Success:");
            ShowConfirmation [0x2705%N] (lit "Order Approved!")
              (lit "The customer has been notified and can now access their photos.");
            DisableBottomButtons])
  ∧ (accepted r = false →
       approveBtn_disabled (state_of (approveOrder_resume r s)) = false
       ∧ saveOrderBtn_disabled (state_of (approveOrder_resume r s))
         = saveOrderBtn_disabled s
       ∧ rejectBtn_disabled (state_of (approveOrder_resume r s))
         = rejectBtn_disabled s
       ∧ hasUnsavedChanges (state_of (approveOrder_resume r s))
         = hasUnsavedChanges s
       ∧ ∃ e, trace_of (approveOrder_resume r s)
              = [Console (lit "[APPROVE ERROR]");
                 Alert (ErrorMessage (lit "Failed to approve: ") e);
                 SetButtonText approveBtn (lit "Approve & Send")]).
Proof.
  unfold approveOrder_resume, server_error, showConfirmation, disableAllActions.
  destruct r as [|status [v|]]; mrun.
  - repeat split; try done. eauto.
  - destruct (ok status) eqn:Hok; mrun.
    + repeat split; done.
    + error_cases v; repeat split; try done; eauto.
  - destruct (ok status) eqn:Hok; mrun; repeat split; try done; eauto.
Qed.

(** An approval answered 200, and one rejected by the network. *)
Lemma approveOrder_outcome_witness :
  hasUnsavedChanges
    (state_of (approveOrder_resume (Response 200 (Some (VObj []))) moved))
  = false
  ∧ approveBtn_disabled (state_of (approveOrder_resume NetworkFailure moved))
    = false.
Proof.
  split.
  - pose proof (approveOrder_outcome (Response 200 (Some (VObj []))) moved)
      as (_ & _ & _ & H & _).
    exact (proj1 (proj2 (proj2 (proj2 (H eq_refl))))).
  - pose proof (approveOrder_outcome NetworkFailure moved) as (_ & _ & _ & _ & H).
    exact (proj1 (H eq_refl)).
Defined.

(** X7.  [submitRejection] from the answer to its call on always
    returns.  On a 2xx answer with a JSON body it shows a confirmation
    that quotes the reason sent, disables the three controls and clears
    the dirty flag; on any other answer it alerts the operator and
    enables the reject control again, the dirty flag and the other two
    controls being as they were.  PhotoOrder and OriginalOrder are
    untouched either way. *)
Theorem submitRejection_outcome (reason : jsstring) (r : fetch_result) (s : state) :
  result_of (submitRejection_resume reason r s) = Return tt
  ∧ photoOrder (state_of (submitRejection_resume reason r s)) = photoOrder s
  ∧ originalOrder (state_of (submitRejection_resume reason r s)) = originalOrder s
  ∧ (accepted r = true →
       saveOrderBtn_disabled (state_of (submitRejection_resume reason r s)) = true
       ∧ approveBtn_disabled (state_of (submitRejection_resume reason r s)) = true
       ∧ rejectBtn_disabled (state_of (submitRejection_resume reason r s)) = true
       ∧ hasUnsavedChanges (state_of (submitRejection_resume reason r s)) = false
       ∧ trace_of (submitRejection_resume reason r s)
         = [Console (lit "[REJECT] Success:");
            ShowConfirmation [0x274C%N] (lit "Order Rejected")
              (lit "The order has been flagged for manual review. Reason: "
               ++ reason);
            DisableBottomButtons])
  ∧ (accepted r = false →
       rejectBtn_disabled (state_of (submitRejection_resume reason r s)) = false
       ∧ saveOrderBtn_disabled (state_of (submitRejection_resume reason r s))
         = saveOrderBtn_disabled s
       ∧ approveBtn_disabled (state_of (submitRejection_resume reason r s))
         = approveBtn_disabled s
       ∧ hasUnsavedChanges (state_of (submitRejection_resume reason r s))
         = hasUnsavedChanges s
       ∧ ∃ e, trace_of (submitRejection_resume reason r s)
              = [Console (lit "[REJECT ERROR]");
                 Alert (ErrorMessage (lit "Failed to reject: ") e);
                 SetButtonText rejectBtn (lit "Reject")]).
Proof.
  unfold submitRejection_resume, server_error, showConfirmation, disableAllActions.
  destruct r as [|status [v|]]; mrun.
  - repeat split; try done. eauto.
  - destruct (ok status) eqn:Hok; mrun.
    + repeat split; done.
    + error_cases v; repeat split; try done; eauto.
  - destruct (ok status) eqn:Hok; mrun; repeat split; try done; eauto.
Qed.

(** A rejection answered 200, and one answered 403. *)
Lemma submitRejection_outcome_witness :
  hasUnsavedChanges
    (state_of (submitRejection_resume (lit "blurry")
                 (Response 200 (Some (VObj []))) moved))
  = false
  ∧ rejectBtn_disabled
      (state_of (submitRejection_resume (lit "blurry") (Response 403 None) moved))
    = false.
Proof.
  split.
  - pose proof (submitRejection_outcome (lit "blurry")
                  (Response 200 (Some (VObj []))) moved) as (_ & _ & _ & H & _).
    exact (proj1 (proj2 (proj2 (proj2 (H eq_refl))))).
  - pose proof (submitRejection_outcome (lit "blurry") (Response 403 None) moved)
      as (_ & _ & _ & _ & H).
    exact (proj1 (H eq_refl)).
Defined.

(** X8.  Unsaved changes never hold an approval back.  Without unsaved
    changes [approveOrder] asks nothing and sends the approval.  With
    unsaved changes it asks once whether to save first: on "no" it sends
    the approval at once, without a save call; on "yes" it sends the
    save call first, and when that call is answered it sends the
    approval whatever the answer, also when the save has failed. *)
Theorem approval_not_held_back (localeCompare : jsstring → jsstring → Z)
    (answer : bool) (r : fetch_result) (s : state) :
  (hasUnsavedChanges s = false →
   approveOrder_begin answer s
   = (set_disabled approveBtn true s,
      [SetButtonText approveBtn (lit "Approving...");
       Fetch (approval_request s)],
      Return (approval_request s, false)))
  ∧ (hasUnsavedChanges s = true →
     approveOrder_begin false s
     = (set_disabled approveBtn true s,
        [Confirm (lit "You have unsaved changes. Save them before approving?") false;
         SetButtonText approveBtn (lit "Approving...");
         Fetch (approval_request s)],
        Return (approval_request s, false)))
  ∧ (hasUnsavedChanges s = true →
     trace_of (approveOrder_begin true s)
     = [Confirm (lit "You have unsaved changes. Save them before approving?") true;
        SetSaveStatusClass (lit "save-status saving");
        Fetch (save_request SAVE_ORDER_LAMBDA_URL s)]
     ∧ result_of (approveOrder_begin true s)
       = Return (save_request SAVE_ORDER_LAMBDA_URL s, true))
  ∧ result_of (resume localeCompare (KSave true) r s) = Return [KApprove]
  ∧ last (trace_of (resume localeCompare (KSave true) r s))
    = Some (Fetch (approval_request s))
  ∧ approveBtn_disabled (state_of (resume localeCompare (KSave true) r s)) = true.
Proof.
  split; [|split; [|split]].
  - intros Hclean. unfold approveOrder_begin, approveOrder_call. mrun.
    rewrite Hclean. by mrun.
  - intros Hdirty. unfold approveOrder_begin, approveOrder_call. mrun.
    rewrite Hdirty. by mrun.
  - intros Hdirty. unfold approveOrder_begin, saveOrder_begin. mrun.
    by rewrite Hdirty.
  - destruct (saveOrder_resume_total r s) as (s1 & t1 & Hrun & Hu & Ht & _).
    unfold resume. rewrite run_bind, Hrun. unfold approveOrder_call. mrun.
    unfold approval_request. rewrite Hu, Ht. split; [done|]. split; [|done].
    by rewrite last_app.
Qed.

(** A dirty session whose save call is answered 500. *)
Lemma approval_not_held_back_witness :
  result_of (resume compare_code_units (KSave true) (Response 500 None) moved)
  = Return [KApprove]
  ∧ last (trace_of (resume compare_code_units (KSave true) (Response 500 None) moved))
    = Some (Fetch (approval_request moved)).
Proof.
  pose proof (approval_not_held_back compare_code_units true (Response 500 None) moved)
    as (_ & _ & _ & H1 & H2 & _).
  exact (conj H1 H2).
Defined.

(** ** The reason of a rejection *)











(** ** Loading *)

(** X10.  On an entry URL carrying a non-empty [uid] and a non-empty
    [token], the bootstrap listener stores both, shows the [uid] and the
    loading state, and starts exactly one call, the read of
    [custom_order.json] under the [uid]'s metadata folder; it shows no
    error and waits for that answer. *)
Theorem bootstrap_with_parameters (query : list (jsstring * jsstring))
    (u token : jsstring) (s : state) :
  searchParam (lit "uid") query = Some u → u ≠ [] →
  searchParam (lit "token") query = Some token → token ≠ [] →
  DOMContentLoaded query s
  = (set_reviewToken (Some token) (set_uid (Some u) s),
     [SetOrderUid u; Console (lit "[INIT] Loading review for UID:");
      ShowLoading true;
      Fetch (Request GET
               (S3_BASE_URL ++ lit "/metadata/" ++ u ++ lit "/custom_order.json")
               None)],
     Return (Some (Request GET
                     (S3_BASE_URL ++ lit "/metadata/" ++ u
                      ++ lit "/custom_order.json") None)))
  ∧ inflight (boot query s).1 = [KCustomOrder].
Proof.
  intros Hu Hune Ht Htne.
  assert (Hrun : DOMContentLoaded query s
    = (set_reviewToken (Some token) (set_uid (Some u) s),
       [SetOrderUid u; Console (lit "[INIT] Loading review for UID:");
        ShowLoading true;
        Fetch (Request GET
                 (S3_BASE_URL ++ lit "/metadata/" ++ u ++ lit "/custom_order.json")
                 None)],
       Return (Some (Request GET
                       (S3_BASE_URL ++ lit "/metadata/" ++ u
                        ++ lit "/custom_order.json") None)))).
  { unfold DOMContentLoaded, loadPhotos_begin, loadExistingOrder_begin. mrun.
    rewrite Hu, Ht. simpl.
    rewrite (bool_decide_false (u = [])), (bool_decide_false (token = [])) by done.
    by mrun. }
  split; [done|]. unfold boot. by rewrite Hrun.
Qed.

Lemma bootstrap_with_parameters_witness :
  inflight (boot both_parameters pristine).1 = [KCustomOrder].
Proof.
  refine (proj2 (bootstrap_with_parameters both_parameters
            (lit "order-1") (lit "token-1") pristine eq_refl _ eq_refl _));
    vm_compute; discriminate.
Defined.

(** X11.  Loading never lets an error escape: whatever the answer to the
    manifest read, the bootstrap listener returns, having shown the
    error display with the error's message exactly when [loadPhotos]
    threw, and having installed the unload guard; the same holds for the
    answer to the custom-order read whenever loading ends with it. *)
Theorem load_never_escapes (localeCompare : jsstring → jsstring → Z)
    (r : fetch_result) (s : state) :
  result_of (DOMContentLoaded_afterManifest localeCompare r s) = Return tt
  ∧ unloadGuard (state_of (DOMContentLoaded_afterManifest localeCompare r s)) = true
  ∧ trace_of (DOMContentLoaded_afterManifest localeCompare r s)
    = trace_of (loadPhotos_afterManifest localeCompare r s)
      ++ match result_of (loadPhotos_afterManifest localeCompare r s) with
         | Return _ => []
         | Throw e =>
             [Console (lit "[ERROR] Failed to load photos:");
              ShowError (lit "Failed to load photos") (ErrorMessage [] e)]
         end
  ∧ ∃ next,
      result_of (DOMContentLoaded_afterCustomOrder r s) = Return next
      ∧ (next = None →
         unloadGuard (state_of (DOMContentLoaded_afterCustomOrder r s)) = true
         ∧ trace_of (DOMContentLoaded_afterCustomOrder r s)
           = trace_of (loadPhotos_afterCustomOrder r s)
             ++ match result_of (loadPhotos_afterCustomOrder r s) with
                | Return _ => []
                | Throw e =>
                    [Console (lit "[ERROR] Failed to load photos:");
                     ShowError (lit "Failed to load photos") (ErrorMessage [] e)]
                end).
Proof.
  unfold DOMContentLoaded_afterManifest, DOMContentLoaded_afterCustomOrder,
    loadFailed, addUnloadGuard.
  rewrite !run_bind. unfold try_catch, state_of, trace_of, result_of.
  destruct (loadPhotos_afterManifest localeCompare r s) as [[s1 t1] [[]|e]];
    destruct (loadPhotos_afterCustomOrder r s) as [[s2 t2] [[req|]|e']];
    mrun; rewrite ?app_nil_r; (repeat split; try done);
    eexists; (split; [done|]); done.
Qed.

(** X12.  The manifest read is fatal: unless it is answered 2xx with a
    body that is a list, [loadPhotos] throws before it touches the
    state, with the response's status in the error when the answer is
    outside 2xx; the error display is shown with that error, and
    PhotoOrder, OriginalOrder and the rest of the state are as before,
    the unload guard apart. *)
Theorem manifest_read_failure (localeCompare : jsstring → jsstring → Z)
    (r : fetch_result) (s : state) :
  (∀ status l, r = Response status (Some (VArr l)) → ok status = false) →
  ∃ e t,
    loadPhotos_afterManifest localeCompare r s = (s, t, Throw e)
    ∧ DOMContentLoaded_afterManifest localeCompare r s
      = (set_unloadGuard true s,
         t ++ [Console (lit "[ERROR] Failed to load photos:");
               ShowError (lit "Failed to load photos") (ErrorMessage [] e)],
         Return tt)
    ∧ (r = NetworkFailure → e = NetworkError)
    ∧ (∀ status body, r = Response status body → ok status = false →
         e = ManifestStatus status).
Proof.
  intros Hr.
  assert (Hthrow : ∃ e t,
    loadPhotos_afterManifest localeCompare r s = (s, t, Throw e)
    ∧ (r = NetworkFailure → e = NetworkError)
    ∧ (∀ status body, r = Response status body → ok status = false →
         e = ManifestStatus status)).
  { unfold loadPhotos_afterManifest. destruct r as [|status body]; mrun.
    - eexists _, _. by repeat split.
    - destruct (ok status) eqn:Hok; mrun.
      + destruct body as [[| | | | |l|ms]|]; mrun;
          try (destruct (string_conversion _); mrun);
          try (eexists _, _; split; [done|]; split; [done|];
               intros ? ? [= <- <-]; congruence).
        specialize (Hr status l eq_refl). congruence.
      + eexists _, _. split; [done|]. split; [done|].
        by intros ? ? [= <- <-]. }
  destruct Hthrow as (e & t & Hrun & He).
  exists e, t. split; [done|]. split; [|done].
  unfold DOMContentLoaded_afterManifest, loadFailed, addUnloadGuard.
  rewrite run_bind. unfold try_catch. rewrite Hrun. mrun.
  by rewrite app_nil_r.
Qed.

(** A manifest read answered 404. *)
Lemma manifest_read_failure_witness :
  ∃ e t,
    loadPhotos_afterManifest compare_code_units (Response 404 None) opened
    = (opened, t, Throw e)
    ∧ e = ManifestStatus 404.
Proof.
  destruct (manifest_read_failure compare_code_units (Response 404 None) opened)
    as (e & t & H1 & _ & _ & H4).
  - intros status l H. discriminate H.
  - exists e, t. split; [exact H1|]. exact (H4 404 None eq_refl eq_refl).
Defined.

Lemma keep_entry_malformed (entry : jsval) :
  malformed_entry entry → keep_entry entry = Throw TypeError.
Proof.
  intros [->|(ms & v & -> & Hm & Hv & Hstr)]; [done|].
  unfold keep_entry, get_prop. rewrite Hm. cbn. rewrite Hv.
  destruct v; try done. by destruct (Hstr s).
Qed.

Lemma keep_entry_throws (entry : jsval) (e : exn) :
  keep_entry entry = Throw e → e = TypeError.
Proof.
  unfold keep_entry. destruct (get_prop entry _) as [v|x] eqn:Hg; cbn.
  - destruct (truthy v); [|done].
    destruct v; cbn; intros H; try discriminate H; by injection H.
  - intros [= <-]. destruct entry; simpl in Hg; congruence.
Qed.

Lemma filterM_malformed (manifest : list jsval) :
  Exists malformed_entry manifest →
  filterM keep_entry manifest = Throw TypeError.
Proof.
  induction manifest as [|entry manifest IH]; intros Hex.
  - by apply Exists_nil in Hex.
  - cbn [filterM]. destruct (keep_entry entry) as [b|e] eqn:Hk; cbn.
    + apply Exists_cons in Hex as [Hbad|Hex].
      * rewrite (keep_entry_malformed entry Hbad) in Hk. done.
      * by rewrite (IH Hex).
    + by rewrite (keep_entry_throws entry e Hk).
Qed.

(** X13.  One malformed entry fails the whole load: when the manifest
    holds [null], or an object whose [final_key] is truthy and not a
    string, [loadPhotos] throws a [TypeError] out of the filter, before
    PhotoOrder is set and before anything is rendered. *)
Theorem malformed_manifest_fails (localeCompare : jsstring → jsstring → Z)
    (status : Z) (manifest : list jsval) (s : state) :
  ok status = true → Exists malformed_entry manifest →
  loadPhotos_afterManifest localeCompare (Response status (Some (VArr manifest))) s
  = (s, [Console (lit "[MANIFEST] Loaded")], Throw TypeError).
Proof.
  intros Hok Hbad. unfold loadPhotos_afterManifest, photoEntries. mrun.
  rewrite Hok. mrun. by rewrite (filterM_malformed manifest Hbad).
Qed.

(** A manifest whose second entry has the number 7 for [final_key]. *)
Lemma malformed_manifest_fails_witness :
  loadPhotos_afterManifest compare_code_units
    (Response 200
       (Some (VArr [VObj [(lit "final_key", VStr (lit "a/01.jpg"))];
                    VObj [(lit "final_key", VNum 7%float)]])))
    opened
  = (opened, [Console (lit "[MANIFEST] Loaded")], Throw TypeError).
Proof.
  apply (malformed_manifest_fails compare_code_units 200); [reflexivity|].
  apply Exists_cons_tl, Exists_cons_hd. right.
  exists [(lit "final_key", VNum 7%float)], (VNum 7%float).
  repeat split. intros key H. discriminate H.
Defined.

(** ** Rendering *)

Lemma forEach_items (body : jsval → nat → M unit) (index : nat)
    (keys : list jsstring) (s : state) :
  (∀ key i s', body (VStr key) i s' = (s', [gallery_item key i], Return tt)) →
  forEach body index (VStr <$> keys) s = (s, gallery_items index keys, Return tt).
Proof.
  intros Hbody. revert index.
  induction keys as [|key keys IH]; intros index; [done|].
  rewrite fmap_cons. cbn [forEach gallery_items].
  by rewrite run_bind, Hbody, IH.
Qed.

Lemma forEach_stops (body : jsval → nat → M unit) (index : nat)
    (keys : list jsstring) (v : jsval) (rest : list jsval) (s : state) :
  (∀ key i s', body (VStr key) i s' = (s', [gallery_item key i], Return tt)) →
  (∀ i s', body v i s' = (s', [], Throw TypeError)) →
  forEach body index ((VStr <$> keys) ++ v :: rest) s
  = (s, gallery_items index keys, Throw TypeError).
Proof.
  intros Hbody Hv. revert index.
  induction keys as [|key keys IH]; intros index.
  - cbn [fmap list_fmap app forEach gallery_items]. by rewrite run_bind, Hv.
  - rewrite fmap_cons. cbn [app forEach gallery_items].
    by rewrite run_bind, Hbody, IH.
Qed.

Lemma gallery_items_lookup (index : nat) (keys : list jsstring) (i : nat) :
  gallery_items index keys !! i
  = (λ key, gallery_item key (index + i)) <$> keys !! i.
Proof.
  revert index i. induction keys as [|key keys IH]; intros index [|i]; simpl;
    try done.
  - by rewrite Nat.add_0_r.
  - rewrite IH. by replace (S index + i)%nat with (index + S i)%nat by lia.
Qed.

Lemma renderGallery_run (keys : list jsstring) (s : state) :
  photoOrder s = VArr (VStr <$> keys) →
  renderGallery s
  = (s, ClearGallery :: gallery_items 0 keys ++ [ShowGallery], Return tt).
Proof.
  intros Hpo. unfold renderGallery. rewrite !run_bind. mrun. rewrite Hpo.
  cbn [as_array].
  erewrite forEach_items; [done|]. intros key i s'. by mrun.
Qed.

Lemma renderGallery_run_stops (keys : list jsstring) (v : jsval)
    (rest : list jsval) (s : state) :
  (∀ key, v ≠ VStr key) →
  photoOrder s = VArr ((VStr <$> keys) ++ v :: rest) →
  renderGallery s = (s, ClearGallery :: gallery_items 0 keys, Throw TypeError).
Proof.
  intros Hv Hpo. unfold renderGallery. rewrite !run_bind. mrun. rewrite Hpo.
  cbn [as_array].
  erewrite forEach_stops; [done| |].
  - intros key i s'. by mrun.
  - intros i s'. destruct v; mrun; try done. by destruct (Hv s0).
Qed.

(** X14.  [renderGallery] on a PhotoOrder of strings leaves the state
    alone and builds the gallery anew: it empties it, appends one
    element per entry in PhotoOrder's order, the element for the entry at
    index [i] carrying that entry's key, the index [i], the position
    label of [i + 1] and the age bucket of the key's filename, and then
    displays the gallery. *)
Theorem renderGallery_items (keys : list jsstring) (s : state) :
  photoOrder s = VArr (VStr <$> keys) →
  renderGallery s
  = (s, ClearGallery :: gallery_items 0 keys ++ [ShowGallery], Return tt)
  ∧ length (gallery_items 0 keys) = length keys
  ∧ ∀ i key, keys !! i = Some key →
      gallery_items 0 keys !! i
      = Some (AppendPhotoItem
                (PhotoItem key i (padStart0 3 (String_of_nat (i + 1)))
                   (extractAgeBucket (filename key)))).
Proof.
  intros Hpo. split; [by apply renderGallery_run|split].
  - clear Hpo. generalize 0%nat.
    induction keys as [|key keys IH]; intros n; simpl; [done|]. by rewrite IH.
  - intros i key Hi. by rewrite gallery_items_lookup, Hi.
Qed.

Lemma renderGallery_items_witness :
  renderGallery (reviewing [VStr (lit "a/01-05(001)_x.jpg"); VStr (lit "b/y.jpg")])
  = (reviewing [VStr (lit "a/01-05(001)_x.jpg"); VStr (lit "b/y.jpg")],
     [ClearGallery;
      AppendPhotoItem (PhotoItem (lit "a/01-05(001)_x.jpg") 0 (lit "001") (lit "01-05"));
      AppendPhotoItem (PhotoItem (lit "b/y.jpg") 1 (lit "002") (lit "??"));
      ShowGallery],
     Return tt).
Proof.
  exact (proj1 (renderGallery_items [lit "a/01-05(001)_x.jpg"; lit "b/y.jpg"]
                  (reviewing [VStr (lit "a/01-05(001)_x.jpg"); VStr (lit "b/y.jpg")])
                  eq_refl)).
Defined.

(** X15.  Rendering stops at the first entry of PhotoOrder that is no
    string: the entries before it have been appended, a [TypeError] is
    thrown, and neither the entries after it are appended nor the
    gallery displayed; [loadPhotos] then fails with that error before it
    attaches the drag handler. *)
Theorem renderGallery_stops (keys : list jsstring) (v : jsval)
    (rest : list jsval) (s : state) :
  (∀ key, v ≠ VStr key) →
  photoOrder s = VArr ((VStr <$> keys) ++ v :: rest) →
  renderGallery s = (s, ClearGallery :: gallery_items 0 keys, Throw TypeError)
  ∧ sortable (state_of (loadPhotos_finish s)) = sortable s
  ∧ result_of (loadPhotos_finish s) = Throw TypeError.
Proof.
  intros Hv Hpo.
  pose proof (renderGallery_run_stops keys v rest s Hv Hpo) as Hrun.
  split; [done|].
  assert (Hrun' : renderGallery
                    (set_originalOrder ((VStr <$> keys) ++ v :: rest) s)
                  = (set_originalOrder ((VStr <$> keys) ++ v :: rest) s,
                     ClearGallery :: gallery_items 0 keys, Throw TypeError))
    by (by apply (renderGallery_run_stops keys v rest)).
  unfold loadPhotos_finish. rewrite !run_bind. mrun. rewrite Hpo. mrun.
  unfold fmap in Hrun'. by rewrite Hrun'.
Qed.

Lemma renderGallery_stops_witness :
  renderGallery (reviewing [VStr (lit "a/x.jpg"); VNull; VStr (lit "b/y.jpg")])
  = (reviewing [VStr (lit "a/x.jpg"); VNull; VStr (lit "b/y.jpg")],
     ClearGallery :: gallery_items 0 [lit "a/x.jpg"], Throw TypeError).
Proof.
  refine (proj1 (renderGallery_stops [lit "a/x.jpg"] VNull [VStr (lit "b/y.jpg")]
            (reviewing [VStr (lit "a/x.jpg"); VNull; VStr (lit "b/y.jpg")])
            _ eq_refl)).
  intros key H. discriminate H.
Defined.

Lemma read_digits_acc (u : Decimal.uint) (acc : nat) :
  foldl (λ acc c, 10 * acc + (N.to_nat c - 48))%nat acc (digits u)
  = Nat.of_uint_acc u acc.
Proof.
  revert acc. induction u as [|u IH|u IH|u IH|u IH|u IH|u IH|u IH|u IH|u IH|u IH];
    intros acc; [done|..]; cbn [digits foldl Nat.of_uint_acc];
    rewrite IH, Nat.tail_mul_spec; f_equal; lia.
Qed.

Lemma read_digits_zeros (n : nat) (s : jsstring) :
  read_digits (replicate n 48%N ++ s) = read_digits s.
Proof.
  unfold read_digits. rewrite foldl_app. f_equal.
  induction n as [|n IH]; [done|]. simpl. exact IH.
Qed.

Lemma digits_are_digits (u : Decimal.uint) : forallb is_digit (digits u) = true.
Proof. induction u; simpl; done. Qed.

Lemma String_of_nat_short (n : nat) :
  (n < 1000)%nat → (length (String_of_nat n) ≤ 3)%nat.
Proof.
  intros Hn.
  assert (H : Forall (λ n, length (String_of_nat n) ≤ 3)%nat (seq 0 1000)).
  { apply (bool_decide_eq_true_1 _). vm_compute. reflexivity. }
  rewrite Forall_forall in H. apply H, elem_of_seq. lia.
Qed.

(** A string of [n] digits writes a number below [10 ^ n]. *)
Lemma read_digits_bound (s : jsstring) (acc : nat) :
  forallb is_digit s = true →
  (foldl (λ acc c, 10 * acc + (N.to_nat c - 48))%nat acc s
   < (acc + 1) * 10 ^ length s)%nat.
Proof.
  revert acc. induction s as [|c s IH]; intros acc Hs.
  - simpl. lia.
  - cbn [forallb] in Hs. apply andb_true_iff in Hs as [Hc Hs].
    assert (Hd : (N.to_nat c - 48 ≤ 9)%nat).
    { unfold is_digit in Hc. apply andb_true_iff in Hc as [_ Hc].
      apply N.leb_le in Hc. lia. }
    specialize (IH (10 * acc + (N.to_nat c - 48))%nat Hs).
    cbn [foldl length]. rewrite Nat.pow_succ_r'.
    set (p := (10 ^ length s)%nat) in *. nia.
Qed.

(** From 100 on, the decimal numeral has at least three digits. *)
Lemma String_of_nat_long (n : nat) :
  (100 ≤ n)%nat → (3 ≤ length (String_of_nat n))%nat.
Proof.
  intros Hn.
  pose proof (read_digits_bound (String_of_nat n) 0
                (digits_are_digits (Nat.to_uint n))) as Hb.
  unfold String_of_nat in *. rewrite read_digits_acc in Hb.
  change (Nat.of_uint_acc (Nat.to_uint n) 0) with (Nat.of_uint (Nat.to_uint n))
    in Hb.
  rewrite Unsigned.of_to in Hb.
  destruct (length (digits (Nat.to_uint n))) as [|[|[|k]]]; simpl in Hb; lia.
Qed.

Lemma nzhead_nonzero (u u' : Decimal.uint) : Decimal.nzhead u ≠ Decimal.D0 u'.
Proof. induction u; simpl; done. Qed.

(** The decimal numeral of a positive number does not start with a
    zero. *)
Lemma String_of_nat_canonical (n : nat) :
  (0 < n)%nat → head (String_of_nat n) ≠ Some 48%N.
Proof.
  intros Hn Hhead. unfold String_of_nat in Hhead.
  pose proof (Unsigned.to_of (Nat.to_uint n)) as Hnorm.
  rewrite Unsigned.of_to in Hnorm.
  destruct (Nat.to_uint n) as [|u| | | | | | | | |] eqn:Hu; try done.
  unfold Decimal.unorm in Hnorm. cbn [Decimal.nzhead] in Hnorm.
  destruct (Decimal.nzhead u) as [|u'| | | | | | | | |] eqn:Hz;
    try discriminate Hnorm.
  - injection Hnorm as ->.
    pose proof (Unsigned.of_to n) as Hback. rewrite Hu in Hback.
    change (Nat.of_uint (Decimal.D0 Decimal.Nil)) with 0%nat in Hback. lia.
  - by apply nzhead_nonzero in Hz.
Qed.

(** X16.  The position label of the entry at [index] is the decimal
    writing of [index + 1] padded with zeros to three characters: it is
    made of digits, it reads back as [index + 1], it is at least three
    characters long, and exactly three for the first 999 entries; from
    the hundredth entry on it is the decimal numeral itself, unpadded,
    which does not start with a zero. *)
Theorem displayNum_reads_back (index : nat) :
  read_digits (padStart0 3 (String_of_nat (index + 1))) = (index + 1)%nat
  ∧ forallb is_digit (padStart0 3 (String_of_nat (index + 1))) = true
  ∧ (3 ≤ length (padStart0 3 (String_of_nat (index + 1))))%nat
  ∧ ((index < 999)%nat →
     length (padStart0 3 (String_of_nat (index + 1))) = 3%nat)
  ∧ ((99 ≤ index)%nat →
     padStart0 3 (String_of_nat (index + 1)) = String_of_nat (index + 1))
  ∧ head (String_of_nat (index + 1)) ≠ Some 48%N
  ∧ read_digits (String_of_nat (index + 1)) = (index + 1)%nat
  ∧ forallb is_digit (String_of_nat (index + 1)) = true.
Proof.
  unfold padStart0. split; [|split; [|split; [|split; [|split; [|split; [|split]]]]]].
  - rewrite read_digits_zeros. unfold read_digits, String_of_nat.
    rewrite read_digits_acc. apply Unsigned.of_to.
  - rewrite forallb_app. unfold String_of_nat. rewrite digits_are_digits.
    rewrite andb_true_r. generalize (3 - length (digits (Nat.to_uint (index + 1))))%nat.
    intros n. induction n; simpl; done.
  - rewrite length_app, length_replicate. lia.
  - intros Hi. rewrite length_app, length_replicate.
    pose proof (String_of_nat_short (index + 1) ltac:(lia)). lia.
  - intros Hi.
    pose proof (String_of_nat_long (index + 1) ltac:(lia)) as Hlen.
    by replace (3 - length (String_of_nat (index + 1)))%nat with 0%nat by lia.
  - apply String_of_nat_canonical. lia.
  - unfold read_digits, String_of_nat.
    rewrite read_digits_acc. apply Unsigned.of_to.
  - apply digits_are_digits.
Qed.

Lemma displayNum_reads_back_witness :
  length (padStart0 3 (String_of_nat (41 + 1))) = 3%nat.
Proof.
  refine (proj1 (proj2 (proj2 (proj2 (displayNum_reads_back 41)))) _). lia.
Defined.

(** X17.  [extractAgeBucket] gives back the label a filename starts
    with, and the placeholder otherwise: a filename made of two digits,
    a hyphen and two digits followed by anything yields these five code
    units; a filename that does not start so yields the placeholder
    [??]; so whatever the filename, the result is either the placeholder
    or the first five code units of the filename. *)
Theorem extractAgeBucket_label (name : jsstring) :
  (∀ a b d e rest,
     is_digit a = true → is_digit b = true →
     is_digit d = true → is_digit e = true →
     name = [a; b; 45%N; d; e] ++ rest →
     extractAgeBucket name = [a; b; 45%N; d; e])
  ∧ ((∀ a b d e rest,
        name = [a; b; 45%N; d; e] ++ rest →
        is_digit a && is_digit b && is_digit d && is_digit e = false) →
     extractAgeBucket name = lit "??")
  ∧ (extractAgeBucket name = lit "??"
     ∨ (length (extractAgeBucket name) = 5%nat
        ∧ ∃ rest, name = extractAgeBucket name ++ rest)).
Proof.
  split; [|split].
  - intros a b d e rest Ha Hb Hd He ->. simpl.
    by rewrite Ha, Hb, Hd, He.
  - intros Hno. unfold extractAgeBucket.
    destruct name as [|a [|b [|c [|d [|e rest]]]]]; try done.
    destruct (N.eqb_spec c 45) as [->|Hc].
    + specialize (Hno a b d e rest eq_refl).
      destruct (is_digit a), (is_digit b), (is_digit d), (is_digit e);
        simpl in *; done.
    + by destruct (is_digit a), (is_digit b).
  - unfold extractAgeBucket.
    destruct name as [|a [|b [|c [|d [|e rest]]]]]; try by left.
    destruct (is_digit a && is_digit b && (c =? 45)%N && is_digit d && is_digit e);
      [right|by left].
    split; [done|]. by exists rest.
Qed.

(** A filename with its label, and one without. *)
Lemma extractAgeBucket_label_witness :
  extractAgeBucket (lit "01-05(003)_|EX|_name.jpg") = lit "01-05"
  ∧ extractAgeBucket (lit "ab-05(003).jpg") = lit "??".
Proof.
  split.
  - exact (proj1 (extractAgeBucket_label (lit "01-05(003)_|EX|_name.jpg"))
             48 49 48 53 (lit "(003)_|EX|_name.jpg")
             eq_refl eq_refl eq_refl eq_refl eq_refl)%N.
  - apply (proj1 (proj2 (extractAgeBucket_label (lit "ab-05(003).jpg")))).
    intros a b d e rest H. vm_compute in H. by injection H as <- <- <- <- _.
Defined.

(** ** The end of a load *)

Lemma strings_or_not (l : list jsval) :
  (∃ keys, l = VStr <$> keys)
  ∨ (∃ keys bad rest, l = (VStr <$> keys) ++ bad :: rest ∧ ∀ key, bad ≠ VStr key).
Proof.
  induction l as [|a l IH]; [left; by exists []|].
  destruct a as [| | | |key| |];
    try (right; eexists [], _, l; split; [done|]; intros k H; discriminate H).
  destruct IH as [[keys ->]|(keys & bad & rest & -> & Hbad)].
  - left. by exists (key :: keys).
  - right. by exists (key :: keys), bad, rest.
Qed.

Lemma gallery_items_appended (index : nat) (keys : list jsstring) :
  Forall (λ e, ∃ item, e = AppendPhotoItem item) (gallery_items index keys).
Proof.
  revert index. induction keys as [|key keys IH]; intros index; simpl.
  - constructor.
  - constructor; [by eexists|apply IH].
Qed.

Lemma loadPhotos_finish_run (keys : list jsstring) (s : state) :
  photoOrder s = VArr (VStr <$> keys) →
  loadPhotos_finish s
  = (set_disabled saveOrderBtn true
       (set_sortable true (set_originalOrder (VStr <$> keys) s)),
     ClearGallery
       :: gallery_items 0 keys
       ++ ShowGallery :: Console (lit "[SORTABLE] Initialized")
       :: SetPhotoCount (length keys)
       :: (if bool_decide (20 < length keys)%nat then [ShowBottomActions] else [])
       ++ [ShowLoading false],
     Return tt).
Proof.
  intros Hpo. unfold loadPhotos_finish, initializeSortable.
  pose proof (renderGallery_run keys (set_originalOrder (VStr <$> keys) s) Hpo)
    as Ht.
  unfold mbind at 1 2 3. unfold M_bind, gets at 1, lift at 1, modify at 1.
  rewrite Hpo. cbn [spread].
  unfold mbind at 1. unfold M_bind. rewrite Ht.
  mrun. rewrite Hpo. mrun.
  assert (Hlen : length (list_fmap _ _ VStr keys) = length keys)
    by apply length_fmap.
  rewrite Hlen.
  destruct (bool_decide _); mrun; by rewrite <- ?app_assoc.
Qed.

Lemma loadPhotos_finish_throws (s : state) :
  (∀ keys, photoOrder s ≠ VArr (VStr <$> keys)) →
  ∃ original t,
    loadPhotos_finish s = (set_originalOrder original s, t, Throw TypeError).
Proof.
  intros Hno. unfold loadPhotos_finish.
  destruct (photoOrder s) as [| | | |text|l|ms] eqn:Hpo;
    try (exists (originalOrder s), []; rewrite run_bind; mrun; rewrite Hpo;
         by destruct s).
  - exists (VStr <$> code_points text), [ClearGallery].
    rewrite !run_bind. mrun. rewrite Hpo. mrun.
    unfold renderGallery. rewrite !run_bind. mrun. by rewrite Hpo.
  - destruct (strings_or_not l) as [[keys ->]|(keys & bad & rest & -> & Hbad)];
      [by destruct (Hno keys)|].
    exists ((VStr <$> keys) ++ bad :: rest), (ClearGallery :: gallery_items 0 keys).
    pose proof (renderGallery_run_stops keys bad rest
                  (set_originalOrder ((VStr <$> keys) ++ bad :: rest) s)
                  Hbad Hpo) as Hrun.
    rewrite !run_bind. mrun. rewrite Hpo. mrun.
    unfold fmap in Hrun. by rewrite Hrun.
Qed.

Lemma loadPhotos_afterManifest_cases (localeCompare : jsstring → jsstring → Z)
    (r : fetch_result) (s : state) :
  (∃ e t, loadPhotos_afterManifest localeCompare r s = (s, t, Throw e))
  ∨ (∃ sorted,
       state_of (loadPhotos_afterManifest localeCompare r s)
       = state_of (loadPhotos_finish (set_photoOrder (VArr (VStr <$> sorted)) s))
       ∧ result_of (loadPhotos_afterManifest localeCompare r s)
         = result_of (loadPhotos_finish
                        (set_photoOrder (VArr (VStr <$> sorted)) s))).
Proof.
  unfold loadPhotos_afterManifest.
  destruct r as [|status [body|]]; mrun; try (left; by eauto).
  - destruct (ok status); mrun; [|left; by eauto].
    destruct body as [| | | | |l|ms]; mrun;
      try (destruct (string_conversion _); mrun); try (left; by eauto).
    destruct (photoEntries localeCompare l) as [sorted|e] eqn:He; mrun;
      [|left; by eauto].
    right. exists sorted. unfold fmap.
    by destruct (loadPhotos_finish _) as [[s1 t1] [[]|e]].
  - destruct (ok status); mrun; left; by eauto.
Qed.

Lemma loadPhotos_cases (localeCompare : jsstring → jsstring → Z)
    (custom manifest : fetch_result) (s : state) :
  (∃ e t, loadPhotos localeCompare custom manifest s = (s, t, Throw e))
  ∨ (∃ order,
       truthy order = true
       ∧ state_of (loadPhotos localeCompare custom manifest s)
         = state_of (loadPhotos_finish (set_photoOrder order s))
       ∧ result_of (loadPhotos localeCompare custom manifest s)
         = result_of (loadPhotos_finish (set_photoOrder order s))).
Proof.
  destruct (loadExistingOrder_resume_total custom s) as (v & t & Hv & _).
  unfold loadPhotos. rewrite run_bind, loadPhotos_begin_run, run_bind.
  destruct (truthy v) eqn:Htruthy.
  - destruct (length_conversion v) as [[]|e] eqn:Hlen.
    + rewrite (loadPhotos_afterCustomOrder_present custom s v t Hv Htruthy Hlen).
      right. exists v. split; [done|].
      unfold state_of, trace_of, result_of.
      by destruct (loadPhotos_finish (set_photoOrder v s)) as [[s1 t1] [[]|e]].
    + rewrite (loadPhotos_afterCustomOrder_unreadable custom s v t e Hv Htruthy
                 Hlen).
      left. by eauto.
  - rewrite (loadPhotos_afterCustomOrder_absent custom s v t Hv Htruthy).
    destruct (loadPhotos_afterManifest_cases localeCompare manifest s)
      as [(e & t' & Hrun)|(sorted & Hs & Hr)].
    + left. rewrite Hrun. by eauto.
    + right. exists (VArr (VStr <$> sorted)). split; [done|].
      unfold state_of, trace_of, result_of in *.
      destruct (loadPhotos_afterManifest localeCompare manifest s)
        as [[s1 t1] r1].
      simpl in *. subst. by destruct (loadPhotos_finish _) as [[s2 t2] [[]|e]].
Qed.

(** X18.  A load that reaches its end on a PhotoOrder of strings
    snapshots it as OriginalOrder, renders one element per entry,
    attaches the drag handler, shows the number of entries as the photo
    count, disables the save control and hides the loading state last;
    the bottom action bar is shown exactly when there are more than 20
    entries. *)
Theorem loadPhotos_finish_report (keys : list jsstring) (s : state) :
  photoOrder s = VArr (VStr <$> keys) →
  loadPhotos_finish s
  = (set_disabled saveOrderBtn true
       (set_sortable true (set_originalOrder (VStr <$> keys) s)),
     ClearGallery
       :: gallery_items 0 keys
       ++ ShowGallery :: Console (lit "[SORTABLE] Initialized")
       :: SetPhotoCount (length keys)
       :: (if bool_decide (20 < length keys)%nat then [ShowBottomActions] else [])
       ++ [ShowLoading false],
     Return tt)
  ∧ (ShowBottomActions ∈ trace_of (loadPhotos_finish s) ↔ (20 < length keys)%nat)
  ∧ (∀ n, SetPhotoCount n ∈ trace_of (loadPhotos_finish s) → n = length keys).
Proof.
  intros Hpo. rewrite (loadPhotos_finish_run keys s Hpo).
  split; [done|]. unfold trace_of. simpl.
  pose proof (gallery_items_appended 0 keys) as Hitems.
  rewrite Forall_forall in Hitems.
  split; [split|].
  - intros Hin. apply elem_of_cons in Hin as [Hin|Hin]; [done|].
    apply elem_of_app in Hin as [Hin|Hin];
      [by destruct (Hitems _ Hin) as [item Hitem]|].
    repeat (apply elem_of_cons in Hin as [Hin|Hin]; [done|]).
    case_bool_decide; [done|].
    repeat (apply elem_of_cons in Hin as [Hin|Hin]; [done|]).
    by apply elem_of_nil in Hin.
  - intros Hlen. rewrite bool_decide_true by done.
    apply elem_of_cons. right. apply elem_of_app. right.
    do 3 (apply elem_of_cons; right). apply elem_of_cons. by left.
  - intros n Hin. apply elem_of_cons in Hin as [Hin|Hin]; [done|].
    apply elem_of_app in Hin as [Hin|Hin];
      [by destruct (Hitems _ Hin) as [item Hitem]|].
    do 2 (apply elem_of_cons in Hin as [Hin|Hin]; [done|]).
    apply elem_of_cons in Hin as [Hin|Hin]; [by injection Hin|].
    case_bool_decide;
      repeat (apply elem_of_cons in Hin as [Hin|Hin]; [done|]);
      by apply elem_of_nil in Hin.
Qed.

(** Three photos: no bottom action bar. *)
Lemma loadPhotos_finish_report_witness :
  ShowBottomActions ∈ trace_of (loadPhotos_finish (reviewing three_photos))
  ↔ (20 < 3)%nat.
Proof.
  exact (proj1 (proj2 (loadPhotos_finish_report
                         [lit "a/01.jpg"; lit "b/02.jpg"; lit "c/03.jpg"]
                         (reviewing three_photos) eq_refl))).
Defined.

(** X19.  However a load goes, it leaves the dirty flag, the [uid] and
    the token as they were.  When it returns, PhotoOrder is a list of
    strings, OriginalOrder is equal to it, the drag handler is attached
    and the save control is disabled.  When it throws, the drag handler
    has not been attached and the save control is as it was. *)
Theorem loadPhotos_outcome (localeCompare : jsstring → jsstring → Z)
    (custom manifest : fetch_result) (s : state) :
  hasUnsavedChanges (state_of (loadPhotos localeCompare custom manifest s))
  = hasUnsavedChanges s
  ∧ uid (state_of (loadPhotos localeCompare custom manifest s)) = uid s
  ∧ reviewToken (state_of (loadPhotos localeCompare custom manifest s))
    = reviewToken s
  ∧ match result_of (loadPhotos localeCompare custom manifest s) with
    | Return _ =>
        ∃ keys,
          photoOrder (state_of (loadPhotos localeCompare custom manifest s))
          = VArr (VStr <$> keys)
          ∧ originalOrder (state_of (loadPhotos localeCompare custom manifest s))
            = VStr <$> keys
          ∧ sortable (state_of (loadPhotos localeCompare custom manifest s)) = true
          ∧ saveOrderBtn_disabled
              (state_of (loadPhotos localeCompare custom manifest s)) = true
    | Throw _ =>
        sortable (state_of (loadPhotos localeCompare custom manifest s))
        = sortable s
        ∧ saveOrderBtn_disabled
            (state_of (loadPhotos localeCompare custom manifest s))
          = saveOrderBtn_disabled s
    end.
Proof.
  destruct (loadPhotos_cases localeCompare custom manifest s)
    as [(e & t & ->)|(order & _ & -> & ->)]; [done|].
  destruct order as [| | | |text|l|ms];
    try (match goal with
         | |- context [loadPhotos_finish ?s'] =>
             destruct (loadPhotos_finish_throws s') as (original & t & ->);
             [intros keys H; discriminate H|done]
         end).
  destruct (strings_or_not l) as [[keys ->]|(keys & bad & rest & -> & Hbad)].
  - rewrite (loadPhotos_finish_run keys (set_photoOrder _ s) eq_refl).
    repeat split. by exists keys.
  - destruct (loadPhotos_finish_throws
                (set_photoOrder (VArr ((VStr <$> keys) ++ bad :: rest)) s))
      as (original & t & ->); [|done].
    intros keys' [= H]. clear -H Hbad.
    revert keys' H. induction keys as [|key keys IH]; intros [|key' keys'] H;
      try discriminate H.
    + injection H as H _. by destruct (Hbad key').
    + injection H as _ H. by apply (IH keys').
Qed.

(** ** The photo list along a session *)

#[global] Instance same_orders_preorder : PreOrder same_orders.
Proof.
  split; [done|].
  intros s1 s2 s3 [H1 H2] [H3 H4]. split; congruence.
Qed.

Lemma saveOrder_begin_run (url : jsstring) (s : state) :
  saveOrder_begin url s
  = (set_saveStatus_text (lit "Saving...") (set_disabled saveOrderBtn true s),
     [SetSaveStatusClass (lit "save-status saving"); Fetch (save_request url s)],
     Return (save_request url s)).
Proof. done. Qed.

Lemma saveOrder_resume_orders (r : fetch_result) (s : state) (l : list jsval) :
  photoOrder s = VArr l →
  ∃ s1 t1,
    saveOrder_resume r s = (s1, t1, Return tt)
    ∧ photoOrder s1 = VArr l
    ∧ (originalOrder s1 = originalOrder s ∨ originalOrder s1 = l)
    ∧ Forall (λ e, is_fetch e = false) t1.
Proof.
  intros Hpo. unfold saveOrder_resume, server_error.
  destruct r as [|status [v|]]; mrun.
  - eexists _, _. split; [done|]. split; [done|]. split; [by left|].
    by repeat constructor.
  - destruct (ok status); mrun.
    + rewrite Hpo. mrun. eexists _, _. split; [done|]. split; [done|].
      split; [by right|]. by repeat constructor.
    + error_cases v;
        (eexists _, _; split; [done|]; split; [done|]; split; [by left|];
         by repeat constructor).
  - destruct (ok status); mrun;
      (eexists _, _; split; [done|]; split; [done|]; split; [by left|];
       by repeat constructor).
Qed.

Lemma carries_no_fetch (l : list jsval) (t : list effect) :
  Forall (λ e, is_fetch e = false) t → Forall (carries l) t.
Proof.
  intros Ht. eapply Forall_impl; [exact Ht|]. intros e He. by destruct e.
Qed.

(** The code that reads or writes neither list, and sends no photo
    order. *)
Lemma controls_keep_orders (l : list jsval) (answer : bool) (r : fetch_result)
    (reason text : jsstring) :
  respects same_orders (carries l) approveOrder_call
  ∧ respects same_orders (carries l) (approveOrder_resume r)
  ∧ respects same_orders (carries l) submitRejection
  ∧ respects same_orders (carries l) (submitRejection_resume reason r)
  ∧ respects same_orders (carries l) closeRejectModal
  ∧ respects same_orders (carries l) clearSavedStatus
  ∧ respects same_orders (carries l) beforeunload
  ∧ respects same_orders (carries l) rejectOrder
  ∧ respects same_orders (carries l) closeConfirmModal
  ∧ respects same_orders (carries l) (modify (set_rejectReason_value text)).
Proof.
  unfold approveOrder_call, approveOrder_resume, submitRejection,
    submitRejection_resume, closeRejectModal, clearSavedStatus, beforeunload,
    rejectOrder, closeConfirmModal, server_error, showConfirmation,
    disableAllActions, fetch.
  repeat apply conj; frame;
    try (apply respects_emit; intros order H; vm_compute in H; discriminate H).
Qed.

Lemma respects_orders {A} (l l' : list jsval) (m : M A) (s : state) :
  respects same_orders (carries l) m →
  photoOrder s = VArr l' → l' ≡ₚ l → originalOrder s ≡ₚ l →
  (∃ l'', photoOrder (state_of (m s)) = VArr l'' ∧ l'' ≡ₚ l)
  ∧ originalOrder (state_of (m s)) ≡ₚ l
  ∧ Forall (carries l) (trace_of (m s)).
Proof.
  intros Hm Hpo Hp Ho. destruct (Hm s) as [[H1 H2] Ht].
  split; [exists l'; by rewrite H1|]. split; [by rewrite H2|done].
Qed.

Lemma save_request_carries (l l' : list jsval) (url : jsstring) (s : state) :
  photoOrder s = VArr l' → l' ≡ₚ l → carries l (Fetch (save_request url s)).
Proof.
  intros Hpo Hp order H. vm_compute in H. injection H as <-.
  exists l'. split; [exact Hpo|done].
Qed.

Lemma approveOrder_begin_orders (l l' : list jsval) (answer : bool) (s : state) :
  photoOrder s = VArr l' → l' ≡ₚ l →
  same_orders s (state_of (approveOrder_begin answer s))
  ∧ Forall (carries l) (trace_of (approveOrder_begin answer s)).
Proof.
  intros Hpo Hp.
  pose proof (save_request_carries l l' SAVE_ORDER_LAMBDA_URL s Hpo Hp) as Hsave.
  unfold approveOrder_begin, approveOrder_call, saveOrder_begin. mrun.
  destruct (hasUnsavedChanges s); [destruct answer|]; mrun;
    (split; [done|]); repeat constructor; try done;
    intros order H; vm_compute in H; discriminate H.
Qed.

Lemma bind_pure {A B} (m : M A) (k : A → M B) (s : state) :
  (∀ a s', state_of (k a s') = s' ∧ trace_of (k a s') = []) →
  state_of ((m ≫= k) s) = state_of (m s)
  ∧ trace_of ((m ≫= k) s) = trace_of (m s).
Proof.
  intros Hk. rewrite run_bind. unfold state_of, trace_of in *.
  destruct (m s) as [[s1 t1] [a|e]]; [|done].
  specialize (Hk a s1). destruct (k a s1) as [[s2 t2] r2]. simpl in *.
  destruct Hk as [-> ->]. by rewrite app_nil_r.
Qed.

(** An event handled on a rearrangement of [l] leaves one. *)
Lemma handler_orders (localeCompare : jsstring → jsstring → Z)
    (l l' : list jsval) (c : config) (ev : event) :
  photoOrder (st c) = VArr l' → l' ≡ₚ l → originalOrder (st c) ≡ₚ l →
  Forall load_free (inflight c) → within (length l) ev →
  (∃ l'', photoOrder (state_of (handler localeCompare ev c (st c))) = VArr l''
          ∧ l'' ≡ₚ l)
  ∧ originalOrder (state_of (handler localeCompare ev c (st c))) ≡ₚ l
  ∧ Forall (carries l) (trace_of (handler localeCompare ev c (st c))).
Proof.
  intros Hpo Hp Ho Hfree Hin.
  destruct (controls_keep_orders l true NetworkFailure [] [])
    as (H1 & _ & H3 & _ & H5 & H6 & H7 & H8 & H9 & _).
  destruct ev as [n r|oldIndex newIndex| |answer| |text| | | | |]; cbn [handler].
  - destruct (inflight c !! n) as [k|] eqn:Hk;
      [|apply (respects_orders l l'); [frame|done..]].
    pose proof (Forall_lookup_1 _ _ _ _ Hfree Hk) as Hload.
    destruct (controls_keep_orders l true r [] [])
      as (_ & H2 & _ & _).
    destruct k as [| |[]| |reason]; try done; cbn [resume].
    + destruct (saveOrder_resume_orders r (st c) l' Hpo)
        as (s1 & t1 & Hrun & Hpo1 & Ho1 & Ht1).
      rewrite run_bind, Hrun.
      assert (Ho1' : originalOrder s1 ≡ₚ l) by (by destruct Ho1 as [->| ->]).
      destruct (respects_orders l l' (approveOrder_call;; mret [KApprove]) s1)
        as (Hpo2 & Ho2 & Ht2); [frame; apply H1|done..|].
      unfold state_of, trace_of in *.
      destruct ((approveOrder_call;; mret [KApprove]) s1) as [[s2 t2] r2].
      simpl in *. split; [done|]. split; [done|].
      apply Forall_app. split; [by apply carries_no_fetch|done].
    + destruct (saveOrder_resume_orders r (st c) l' Hpo)
        as (s1 & t1 & Hrun & Hpo1 & Ho1 & Ht1).
      rewrite run_bind, Hrun. mrun. split; [by exists l'|].
      split; [by destruct Ho1 as [->| ->]|].
      rewrite app_nil_r. by apply carries_no_fetch.
    + apply (respects_orders l l'); [frame; apply H2|done..].
    + destruct (controls_keep_orders l true r reason [])
        as (_ & _ & _ & H4 & _).
      apply (respects_orders l l'); [frame; apply H4|done..].
  - destruct (sortable (st c)); [|apply (respects_orders l l'); [frame|done..]].
    destruct Hin as [Hi Hj].
    destruct (bind_pure (onEnd oldIndex newIndex) (λ _, mret ([] : list kont)) (st c))
      as [-> ->]; [done|].
    destruct (decide (oldIndex = newIndex)) as [->|Hne].
    + unfold onEnd. rewrite bool_decide_false by (intros H; by apply H).
      split; [by exists l'|]. split; [done|constructor].
    + pose proof (Permutation_length Hp) as Hlen.
      destruct (lookup_lt_is_Some_2 l' (Z.to_nat oldIndex)) as [x Hx]; [lia|].
      rewrite <- (Z2Nat.id oldIndex), <- (Z2Nat.id newIndex) by lia.
      rewrite (onEnd_run (st c) l' _ _ x Hpo Hx) by lia.
      split; [|split; [done|by repeat constructor]].
      eexists. split; [done|].
      by rewrite (reinserted_permutation l' _ _ x Hx).
  - rewrite run_bind, saveOrder_begin_run. mrun.
    split; [by exists l'|]. split; [done|].
    repeat constructor. by apply (save_request_carries l l').
  - destruct (approveOrder_begin_orders l l' answer (st c) Hpo Hp) as [[Hs1 Hs2] Ht].
    destruct (bind_pure (approveOrder_begin answer)
                (λ '(_, saving),
                   mret [if saving : bool then KSave true else KApprove])
                (st c)) as [-> ->]; [by intros [req saving] s'|].
    split; [exists l'; by rewrite Hs1|]. split; [by rewrite Hs2|done].
  - apply (respects_orders l l'); [frame; apply H8|done..].
  - apply (respects_orders l l'); [frame|done..].
  - apply (respects_orders l l'); [frame; apply H5|done..].
  - apply (respects_orders l l'); [frame; apply H3|done..].
  - apply (respects_orders l l'); [frame; apply H9|done..].
  - apply (respects_orders l l'); [frame; apply H6|done..].
  - apply (respects_orders l l'); [frame; apply H7|done..].
Qed.

Lemma step_rearranged (localeCompare : jsstring → jsstring → Z)
    (l : list jsval) (c : config) (ev : event) :
  rearranged l c → within (length l) ev →
  rearranged l (step localeCompare c ev).1
  ∧ Forall (carries l) (step localeCompare c ev).2.
Proof.
  intros (l' & Hpo & Hp & Ho & Hfree) Hin.
  destruct (handler_orders localeCompare l l' c ev Hpo Hp Ho Hfree Hin)
    as ((l'' & Hpo' & Hp') & Ho' & Ht).
  pose proof (handler_konts localeCompare c ev (st c)) as Hks.
  assert (Hrest : Forall load_free (settles ev (inflight c))).
  { destruct ev; simpl; try done. by apply Forall_delete. }
  unfold step. unfold state_of, trace_of, result_of in *.
  destruct (handler localeCompare ev c (st c)) as [[s1 t1] [ks|e]]; simpl in *.
  - split; [|done]. exists l''. repeat split; try done.
    apply Forall_app. split; [done|]. by apply Hks.
  - split.
    + exists l''. by repeat split.
    + apply Forall_app. split; [done|]. by repeat constructor.
Qed.

(** X20.  Once a load has ended, a session never loses or duplicates a
    photo: as long as every drag has both its indices inside the list,
    whatever the operator clicks and however the calls are answered,
    PhotoOrder and OriginalOrder stay rearrangements of the loaded list,
    no load is started again, and every call that carries a photo order
    carries a rearrangement of the loaded list. *)
Theorem photos_never_lost (localeCompare : jsstring → jsstring → Z)
    (l : list jsval) (evs : list event) (c : config) :
  rearranged l c → Forall (within (length l)) evs →
  rearranged l (run localeCompare evs c).1
  ∧ Forall (carries l) (run localeCompare evs c).2.
Proof.
  revert c. induction evs as [|ev evs IH]; intros c Hc Hevs.
  - split; [done|constructor].
  - apply Forall_cons in Hevs as [Hev Hevs].
    destruct (step_rearranged localeCompare l c ev Hc Hev) as [Hc1 Ht1].
    cbn [run]. destruct (step localeCompare c ev) as [c1 t1].
    specialize (IH c1 Hc1 Hevs).
    destruct (run localeCompare evs c1) as [c2 t2]. simpl in *.
    destruct IH as [IH1 IH2]. split; [done|by apply Forall_app].
Qed.

(** The session of the scenario: the second photo is dragged to the
    front, the order is saved, the photo is dragged back while the save
    is in flight, and the save is answered. *)
Lemma photos_never_lost_witness :
  rearranged [VStr (lit "a/01-1.jpg"); VStr (lit "b/02-1.jpg")]
    (run compare_code_units
       [DragEnd 1 0; ClickSave; DragEnd 0 1;
        Answer 0 (Response 200 (Some (VObj [])))]
       loaded_session).1.
Proof.
  refine (proj1 (photos_never_lost compare_code_units
                   [VStr (lit "a/01-1.jpg"); VStr (lit "b/02-1.jpg")]
                   [DragEnd 1 0; ClickSave; DragEnd 0 1;
                    Answer 0 (Response 200 (Some (VObj [])))]
                   loaded_session _ _)).
  - exists [VStr (lit "a/01-1.jpg"); VStr (lit "b/02-1.jpg")].
    split; [vm_compute; reflexivity|]. split; [reflexivity|].
    split; [vm_compute; reflexivity|]. vm_compute. constructor.
  - repeat constructor; simpl; lia.
Defined.

(** X21.  A drag while a save is in flight is reported as saved: when
    the order is sent, an entry is then dragged to another place and the
    save is answered successfully, the dirty flag is cleared, the status
    reads "Saved" and OriginalOrder is the order after the drag, while
    the order that was sent is the one before it. *)
Theorem drag_during_save (url : jsstring) (r : fetch_result) (s : state)
    (l : list jsval) (i j : nat) :
  photoOrder s = VArr l → NoDup l →
  (i < length l)%nat → (j < length l)%nat → i ≠ j → accepted r = true →
  trace_of (saveOrder_begin url s)
  = [SetSaveStatusClass (lit "save-status saving"); Fetch (save_request url s)]
  ∧ req_body (save_request url s)
    = Some (VObj [(lit "uid", to_value (uid s));
                  (lit "review_token", to_value (reviewToken s));
                  (lit "photo_order", VArr l)])
  ∧ ∃ l',
      l' ≠ l
      ∧ photoOrder (state_of ((saveOrder_begin url;;
                               onEnd (Z.of_nat i) (Z.of_nat j);;
                               saveOrder_resume r) s)) = VArr l'
      ∧ originalOrder (state_of ((saveOrder_begin url;;
                                  onEnd (Z.of_nat i) (Z.of_nat j);;
                                  saveOrder_resume r) s)) = l'
      ∧ hasUnsavedChanges (state_of ((saveOrder_begin url;;
                                      onEnd (Z.of_nat i) (Z.of_nat j);;
                                      saveOrder_resume r) s)) = false
      ∧ saveStatus_text (state_of ((saveOrder_begin url;;
                                    onEnd (Z.of_nat i) (Z.of_nat j);;
                                    saveOrder_resume r) s)) = saved_mark.
Proof.
  intros Hpo Hnodup Hi Hj Hij Hr.
  split; [done|]. split; [simpl; by rewrite Hpo|].
  destruct (lookup_lt_is_Some_2 l i Hi) as [x Hx].
  set (s1 := set_saveStatus_text (lit "Saving...")
               (set_disabled saveOrderBtn true s)).
  assert (Hpo1 : photoOrder s1 = VArr l) by done.
  pose proof (onEnd_run s1 l i j x Hpo1 Hx Hj Hij) as Hdrag.
  set (l' := take j (delete i l) ++ x :: drop j (delete i l)) in *.
  set (s2 := set_saveStatus_text (lit "Unsaved changes") _) in Hdrag.
  assert (Hpo2 : photoOrder s2 = VArr l') by done.
  pose proof (saveOrder_resume_accepted r s2 l' Hr Hpo2) as Hsaved.
  exists l'. split.
  - intros Heq.
    assert (Hlen : (j ≤ length (delete i l))%nat).
    { rewrite length_delete by eauto. lia. }
    pose proof (lookup_reinserted (delete i l) j x Hlen) as Hjx.
    fold l' in Hjx. rewrite Heq in Hjx.
    by apply Hij, (NoDup_lookup l i j x).
  - rewrite run_bind, saveOrder_begin_run. fold s1.
    rewrite run_bind, Hdrag, Hsaved. done.
Qed.

Lemma drag_during_save_witness :
  ∃ l',
    l' ≠ three_photos
    ∧ originalOrder (state_of ((saveOrder_begin SAVE_ORDER_LAMBDA_URL;;
                                onEnd 0 2;;
                                saveOrder_resume (Response 200 (Some (VObj []))))
                                 (reviewing three_photos))) = l'
    ∧ hasUnsavedChanges (state_of ((saveOrder_begin SAVE_ORDER_LAMBDA_URL;;
                                    onEnd 0 2;;
                                    saveOrder_resume (Response 200 (Some (VObj []))))
                                     (reviewing three_photos))) = false.
Proof.
  destruct (drag_during_save SAVE_ORDER_LAMBDA_URL (Response 200 (Some (VObj [])))
              (reviewing three_photos) three_photos 0 2)
    as (_ & _ & l' & H1 & _ & H3 & H4 & _).
  - reflexivity.
  - repeat constructor; vm_compute; intros H;
      repeat (apply elem_of_cons in H as [H|H]; [discriminate H|]);
      by apply elem_of_nil in H.
  - simpl. lia.
  - simpl. lia.
  - lia.
  - reflexivity.
  - exists l'. exact (conj H1 (conj H3 H4)).
Defined.

(** ** After an approval or a rejection *)




(** ** Approving and rejecting by a redirect *)

(** X23.  In the redirect-based variant [rejectOrder] issues no call and
    leaves the state as it was, the dirty flag included.  It navigates
    exactly when the operator confirms the rejection, after having
    agreed to discard the unsaved changes if there are any, and then to
    the reject endpoint of the review token. *)
Theorem redirect_rejectOrder (discard confirmed : bool) (s : state) :
  state_of (RedirectBased.rejectOrder discard confirmed s) = s
  ∧ result_of (RedirectBased.rejectOrder discard confirmed s) = Return tt
  ∧ Forall (λ e, is_fetch e = false)
      (trace_of (RedirectBased.rejectOrder discard confirmed s))
  ∧ ((∃ url, Navigate url
             ∈ trace_of (RedirectBased.rejectOrder discard confirmed s))
     ↔ confirmed = true ∧ (hasUnsavedChanges s = true → discard = true))
  ∧ (∀ url,
       Navigate url ∈ trace_of (RedirectBased.rejectOrder discard confirmed s) →
       url = RedirectBased.API_BASE_URL ++ lit "/reject/"
             ++ interpolate (reviewToken s)).
Proof.
  unfold RedirectBased.rejectOrder, RedirectBased.navigate. mrun.
  destruct (hasUnsavedChanges s), discard, confirmed; mrun;
    (split; [done|]); (split; [done|]); (split; [by repeat constructor|]);
    (split; [split|]).
  all: try (intros [url H];
            first [ done
                  | exfalso;
                    repeat (apply elem_of_cons in H as [H|H]; [discriminate H|]);
                    by apply elem_of_nil in H ]).
  all: try (intros [H1 H2];
            first [ discriminate H1
                  | specialize (H2 eq_refl); discriminate H2
                  | solve [eexists; repeat constructor] ]).
  all: intros url H;
    repeat (apply elem_of_cons in H as [H|H];
            [first [discriminate H | by injection H]|]);
    by apply elem_of_nil in H.
Qed.

(** X24.  In the redirect-based variant [approveOrder] sends the save
    call only when there are unsaved changes and the operator accepts to
    save them.  Otherwise it leaves the state alone and issues no call.
    Once the save is answered, whatever the answer, it waits half a
    second and asks for the approval; it navigates exactly when the
    operator confirms, to the approve endpoint of the review token. *)
Theorem redirect_approveOrder (save confirmed : bool) (r : fetch_result)
    (s : state) :
  (hasUnsavedChanges s = true →
   trace_of (RedirectBased.approveOrder_begin true confirmed s)
   = [Confirm (lit "You have unsaved changes. Save them before approving?") true;
      SetSaveStatusClass (lit "save-status saving");
      Fetch (save_request RedirectBased.SAVE_ORDER_LAMBDA_URL s)]
   ∧ result_of (RedirectBased.approveOrder_begin true confirmed s)
     = Return (Some (save_request RedirectBased.SAVE_ORDER_LAMBDA_URL s)))
  ∧ (hasUnsavedChanges s = false ∨ save = false →
     state_of (RedirectBased.approveOrder_begin save confirmed s) = s
     ∧ result_of (RedirectBased.approveOrder_begin save confirmed s) = Return None
     ∧ Forall (λ e, is_fetch e = false)
         (trace_of (RedirectBased.approveOrder_begin save confirmed s))
     ∧ (Navigate (RedirectBased.API_BASE_URL ++ lit "/approve/"
                  ++ interpolate (reviewToken s))
        ∈ trace_of (RedirectBased.approveOrder_begin save confirmed s)
        ↔ confirmed = true))
  ∧ ∃ s1 t1,
      RedirectBased.approveOrder_afterSave r s
      = (s1, t1 ++ [SetTimeout 500], Return tt)
      ∧ saveOrder_resume r s = (s1, t1, Return tt)
      ∧ RedirectBased.approveOrder_afterWait confirmed s1
        = (s1,
           Confirm (lit "Approve this order and send to customer now?") confirmed
             :: (if confirmed
                 then [Navigate (RedirectBased.API_BASE_URL ++ lit "/approve/"
                                 ++ interpolate (reviewToken s))]
                 else []),
           Return tt).
Proof.
  split; [|split].
  - intros Hdirty. unfold RedirectBased.approveOrder_begin, saveOrder_begin.
    mrun. by rewrite Hdirty.
  - intros Hclean.
    unfold RedirectBased.approveOrder_begin, RedirectBased.approveOrder_confirm,
      RedirectBased.navigate.
    mrun.
    destruct (hasUnsavedChanges s), save, confirmed; mrun;
      try (by destruct Hclean);
      (split; [done|]); (split; [done|]); (split; [by repeat constructor|]);
      (split; [|intros H; first [discriminate H | by repeat constructor]]);
      intros H;
      first [ done
            | exfalso;
              repeat (apply elem_of_cons in H as [H|H]; [discriminate H|]);
              by apply elem_of_nil in H ].
  - destruct (saveOrder_resume_total r s) as (s1 & t1 & Hrun & _ & Ht & _).
    exists s1, t1. unfold RedirectBased.approveOrder_afterSave.
    rewrite run_bind, Hrun. mrun. split; [done|]. split; [done|].
    unfold RedirectBased.approveOrder_afterWait,
      RedirectBased.approveOrder_confirm, RedirectBased.navigate.
    mrun. destruct confirmed; simpl; by rewrite ?Ht.
Qed.

(** ** Filenames *)

Lemma after_last_slash_unique (p1 p2 n1 n2 : jsstring) :
  (47%N ∉ n1) → (47%N ∉ n2) → p1 ++ 47%N :: n1 = p2 ++ 47%N :: n2 → n1 = n2.
Proof.
  intros H1 H2. revert p2.
  induction p1 as [|c p1 IH]; intros [|c' p2] H; simpl in H.
  - by injection H.
  - injection H as _ Hn. destruct H1. rewrite Hn.
    apply elem_of_app. right. apply elem_of_cons. by left.
  - injection H as _ Hn. destruct H2. rewrite <- Hn.
    apply elem_of_app. right. apply elem_of_cons. by left.
  - injection H as _ H. by apply (IH p2).
Qed.

(** X25.  The filename of a key is what follows its last [/], the whole
    key when it has none; so the comparator of the manifest sort ignores
    the folders of the two keys and hands their filenames to
    [localeCompare]. *)
Theorem filename_of_key (localeCompare : jsstring → jsstring → Z)
    (p1 p2 n1 n2 : jsstring) :
  (47%N ∉ n1) → (47%N ∉ n2) →
  filename n1 = n1
  ∧ filename (p1 ++ 47%N :: n1) = n1
  ∧ by_filename localeCompare (p1 ++ 47%N :: n1) (p2 ++ 47%N :: n2)
    = localeCompare n1 n2
  ∧ by_filename localeCompare (p1 ++ 47%N :: n1) n2 = localeCompare n1 n2.
Proof.
  intros H1 H2.
  assert (Hplain : ∀ n, 47%N ∉ n → filename n = n).
  { intros n Hn.
    destruct (filename_after_last_slash n) as [_ [Heq|[prefix Heq]]]; [done|].
    destruct Hn. rewrite Heq.
    apply elem_of_app. right. apply elem_of_cons. by left. }
  assert (Hpath : ∀ p n, 47%N ∉ n → filename (p ++ 47%N :: n) = n).
  { intros p n Hn.
    destruct (filename_after_last_slash (p ++ 47%N :: n))
      as [Hno [Heq|[prefix Heq]]].
    - destruct Hno. rewrite <- Heq.
      apply elem_of_app. right. apply elem_of_cons. by left.
    - symmetry. by apply (after_last_slash_unique p prefix). }
  unfold by_filename. by rewrite !Hpath, !Hplain.
Qed.

Lemma filename_of_key_witness :
  by_filename compare_code_units
    (lit "z" ++ 47%N :: lit "01-05(001)_x.jpg")
    (lit "a/b" ++ 47%N :: lit "06-10(001)_y.jpg")
  = compare_code_units (lit "01-05(001)_x.jpg") (lit "06-10(001)_y.jpg").
Proof.
  refine (proj1 (proj2 (proj2
            (filename_of_key compare_code_units (lit "z") (lit "a/b")
               (lit "01-05(001)_x.jpg") (lit "06-10(001)_y.jpg") _ _))));
    apply (bool_decide_eq_true_1 _); vm_compute; reflexivity.
Defined.

(** ** Leaving the page *)

#[global] Instance same_listeners_preorder : PreOrder same_listeners.
Proof.
  split; [done|].
  intros s1 s2 s3 [H1 H2] [H3 H4]. split; congruence.
Qed.

(** Outside loading, no event attaches or removes a listener. *)
Lemma handler_same_listeners (localeCompare : jsstring → jsstring → Z)
    (c : config) (ev : event) :
  (∀ n r k, ev = Answer n r → inflight c !! n = Some k → load_free k) →
  respects same_listeners (λ _, True) (handler localeCompare ev c).
Proof.
  intros Hfree.
  destruct ev as [n r|oldIndex newIndex| |answer| |text| | | | |];
    cbn [handler].
  - destruct (inflight c !! n) as [k|] eqn:Hk; [|frame].
    specialize (Hfree n r k eq_refl Hk).
    destruct k as [| |[]| |reason]; try done; cbn [resume];
      unfold saveOrder_resume, approveOrder_call, approveOrder_resume,
        submitRejection_resume, server_error, showConfirmation,
        disableAllActions, fetch;
      frame.
  - unfold onEnd, updateDisplayNumbers, markAsChanged. frame.
  - unfold saveOrder_begin, fetch. frame.
  - unfold approveOrder_begin, approveOrder_call, saveOrder_begin, fetch. frame.
  - unfold rejectOrder. frame.
  - frame.
  - unfold closeRejectModal. frame.
  - unfold submitRejection, closeRejectModal, fetch. frame.
  - unfold closeConfirmModal. frame.
  - unfold clearSavedStatus. frame.
  - unfold beforeunload. frame.
Qed.

(** When loading ends, the unload listener is installed. *)
Lemma load_ends_guarded (localeCompare : jsstring → jsstring → Z)
    (r : fetch_result) (s : state) :
  (unloadGuard (state_of (DOMContentLoaded_afterCustomOrder r s)) = true
   ∨ state_of (DOMContentLoaded_afterCustomOrder r s) = s)
  ∧ unloadGuard (state_of (DOMContentLoaded_afterManifest localeCompare r s))
    = true.
Proof.
  split.
  - destruct (loadExistingOrder_resume_total r s) as (v & t & Hv & _).
    unfold DOMContentLoaded_afterCustomOrder, try_catch, loadFailed,
      addUnloadGuard.
    rewrite run_bind.
    destruct (truthy v) eqn:Htruthy;
      [destruct (length_conversion v) as [[]|e] eqn:Hlen|].
    + rewrite (loadPhotos_afterCustomOrder_present r s v t Hv Htruthy Hlen).
      left. unfold state_of, trace_of, result_of.
      by destruct (loadPhotos_finish (set_photoOrder v s)) as [[s1 t1] [[]|e]].
    + rewrite (loadPhotos_afterCustomOrder_unreadable r s v t e Hv Htruthy Hlen).
      by left.
    + rewrite (loadPhotos_afterCustomOrder_absent r s v t Hv Htruthy).
      by right.
  - unfold DOMContentLoaded_afterManifest, try_catch, loadFailed, addUnloadGuard.
    rewrite run_bind. unfold state_of.
    by destruct (loadPhotos_afterManifest localeCompare r s) as [[s1 t1] [[]|e]].
Qed.

Lemma handler_guarded (localeCompare : jsstring → jsstring → Z)
    (c : config) (ev : event) :
  (unloadGuard (st c) = true →
   unloadGuard (state_of (handler localeCompare ev c (st c))) = true)
  ∧ (guarded (st c) → guarded (state_of (handler localeCompare ev c (st c)))).
Proof.
  assert (Hload : ∀ s',
    unloadGuard s' = true ∨ s' = st c →
    (unloadGuard (st c) = true → unloadGuard s' = true)
    ∧ (guarded (st c) → guarded s')).
  { intros s' [Hs'| ->]; [|done]. split; [done|]. by intros _ _. }
  assert (Hsame : ∀ s',
    same_listeners (st c) s' →
    (unloadGuard (st c) = true → unloadGuard s' = true)
    ∧ (guarded (st c) → guarded s')).
  { intros s' [H1 H2]. unfold guarded. rewrite H1, H2. by split. }
  destruct ev as [n r|oldIndex newIndex| |answer| |text| | | | |];
    try (apply Hsame, handler_same_listeners; intros ? ? ? H; discriminate H).
  destruct (inflight c !! n) as [k|] eqn:Hk.
  - destruct (load_ends_guarded localeCompare r (st c)) as [H1 H2].
    destruct k as [| |thenApprove| |reason];
      try (apply Hsame, handler_same_listeners;
           intros ? ? ? [= <- <-]; rewrite Hk; by intros [= <-]).
    + apply Hload. cbn [handler]. rewrite Hk. cbn [resume].
      destruct (bind_pure (DOMContentLoaded_afterCustomOrder r)
                  (λ next, mret (if next is Some _ then [KManifest] else []))
                  (st c)) as [-> _]; [done|].
      exact H1.
    + apply Hload. left. cbn [handler]. rewrite Hk. cbn [resume].
      destruct (bind_pure (DOMContentLoaded_afterManifest localeCompare r)
                  (λ _, mret ([] : list kont)) (st c)) as [-> _]; [done|].
      exact H2.
  - apply Hsame, handler_same_listeners.
    intros ? ? ? [= <- <-]. by rewrite Hk.
Qed.

Lemma boot_guarded (query : list (jsstring * jsstring)) (s0 : state) :
  fresh s0 → guarded (st (boot query s0).1).
Proof.
  intros (_ & _ & _ & _ & _ & Hsortable & _) H. revert H.
  unfold boot, DOMContentLoaded, loadPhotos_begin, loadExistingOrder_begin.
  mrun. destruct (not_ _ || not_ _); mrun; congruence.
Qed.

Lemma run_guarded (localeCompare : jsstring → jsstring → Z)
    (evs : list event) (c : config) :
  (unloadGuard (st c) = true →
   unloadGuard (st (run localeCompare evs c).1) = true)
  ∧ (guarded (st c) → guarded (st (run localeCompare evs c).1)).
Proof.
  revert c. induction evs as [|ev evs IH]; intros c; [done|].
  rewrite run_cons.
  destruct (IH (step localeCompare c ev).1) as [IH1 IH2].
  destruct (handler_guarded localeCompare c ev) as [H1 H2].
  rewrite <- step_state in H1, H2. split; auto.
Qed.

Lemma mutates_sortable (localeCompare : jsstring → jsstring → Z)
    (c : config) (ev : event) :
  mutates localeCompare c ev → sortable (st c) = true.
Proof.
  intros [(oldIndex & newIndex & ->) Hne]. rewrite step_state in Hne.
  cbn [handler] in Hne. destruct (sortable (st c)); [done|]. by destruct Hne.
Qed.

(** X26.  Unsaved changes are not lost silently.  The unload listener
    is installed when loading ends, in the turn that attaches the drag
    handler, and nothing removes it; so in a session, after a drag that
    changes PhotoOrder and any run of events none of which is the
    successful answer to a save, an approval or a rejection, leaving the
    page is intercepted: the listener prevents the unload. *)
Theorem leaving_is_guarded (localeCompare : jsstring → jsstring → Z)
    (c : config) (ev : event) (evs : list event) :
  reachable localeCompare c → mutates localeCompare c ev →
  never localeCompare (λ c ev, save_succeeds c ev || action_succeeds c ev)
    evs (step localeCompare c ev).1 = true →
  (step localeCompare
     (run localeCompare evs (step localeCompare c ev).1).1 LeavePage).2
  = [PreventUnload].
Proof.
  intros (s0 & query & evs0 & Hfresh & ->) Hmutates Hnever.
  pose proof (run_keeps_dirty localeCompare evs _ Hnever
                (mutation_sets_dirty localeCompare _ ev Hmutates)) as Hdirty.
  pose proof (proj2 (run_guarded localeCompare evs0 (boot query s0).1)
                (boot_guarded query s0 Hfresh)
                (mutates_sortable localeCompare _ ev Hmutates)) as Hguard.
  apply (proj1 (handler_guarded localeCompare _ ev)) in Hguard.
  rewrite <- step_state in Hguard.
  apply (proj1 (run_guarded localeCompare evs _)) in Hguard.
  set (final := (run localeCompare evs _).1) in *.
  unfold step. cbn [handler]. rewrite Hguard. unfold beforeunload. mrun.
  by rewrite Hdirty.
Qed.

(** A drag, then a save that the server answers 500, then the operator
    leaves. *)
Lemma leaving_is_guarded_witness :
  (step compare_code_units
     (run compare_code_units [ClickSave; Answer 0 (Response 500 None)]
        (step compare_code_units loaded_session (DragEnd 0 1)).1).1
     LeavePage).2
  = [PreventUnload].
Proof.
  apply (leaving_is_guarded compare_code_units loaded_session (DragEnd 0 1)
           [ClickSave; Answer 0 (Response 500 None)]).
  - exact loaded_session_reachable.
  - split; [by eexists _, _|]. vm_compute. discriminate.
  - reflexivity.
Defined.
